(** * The particle-field animator of [portofolio/js/script.js]

    A shallow embedding of the particle network (the IIFE headed
    [particles.js] in the script, together with the older copy above it) and
    the properties its specification states.

    JavaScript numbers are modelled by the real numbers of the Standard
    Library: [+], [-], [*], [/] and [Math.sqrt] are the exact operations,
    [Math.round] is [floor (x + 1/2)], and [Math.random] reads a stream of
    draws kept in the state.  Two things the real numbers hide are modelled
    next to them: the count arithmetic of [resize], which is also given in
    binary64 ([Binary64], on the primitive floats and their specification),
    and division by zero, which [divide] does not answer.  The mutable
    variables of the closure, the canvas and the frame queue of the
    browser form one record, [World]; every function of the script is a
    function on it. *)

From Stdlib Require Import String Reals Lra Lia ZArith List Bool.
From Stdlib Require PrimFloat FloatOps FloatAxioms SpecFloat Uint63.
Import ListNotations.

Open Scope R_scope.

(** ** JavaScript primitives *)

Module Js.

(** [Math.round]: the nearest integer, halves going up. *)
Definition Math_round (x : R) : Z := Zfloor (x + 1 / 2).

Definition Math_max (a b : R) : R := Rmax a b.
Definition Math_min (a b : R) : R := Rmin a b.
Definition Math_sqrt (a : R) : R := sqrt a.

(** [a || b] on numbers: [b] when [a] is falsy, that is [0]. *)
Definition or_else (a b : R) : R := if Req_dec_T a 0 then b else a.

(** A variable holding a number or [null]. *)
Definition nullable := option R.

(** [v !== null]. *)
Definition not_null (v : nullable) : bool :=
  match v with Some _ => true | None => false end.

(** The number an arithmetic operator sees: [null] converts to [0]. *)
Definition to_number (v : nullable) : R :=
  match v with Some r => r | None => 0 end.

(** [a < b] and [a > b] as the conditions of an [if]. *)
Definition ltb (a b : R) : bool := if Rlt_dec a b then true else false.
Definition gtb (a b : R) : bool := ltb b a.

(** Division as the script performs it.  In the real numbers a quotient by
    0 is some number; in the script it is [NaN] or an infinity.  [divide]
    keeps the difference: it has no result when the divisor is 0. *)
Definition divide (a c : R) : option R :=
  if Req_dec_T c 0 then None else Some (a / c).

(** [l.slice(0, e)] for an integer [e]: a negative end counts from the
    back of the array. *)
Definition slice0 {A : Type} (l : list A) (e : Z) : list A :=
  if (e <? 0)%Z
  then firstn (Z.to_nat (Z.max (Z.of_nat (length l) + e) 0)) l
  else firstn (Z.to_nat e) l.

End Js.
Import Js.

(** ** Data *)

Record Color := { r : Z; g : Z; b : Z }.

(** The object [CONFIG]. *)
Record Config := {
  baseCount : R;
  connectDistance : R;
  maxSize : R;
  minSize : R;
  speedRange : R;
  color : Color;
  lineAlpha : R;
  particleAlpha : R;
  mouseRadius : R;
  repel : bool
}.

Definition CONFIG : Config := {|
  baseCount := 60;
  connectDistance := 120;
  maxSize := 2.2;
  minSize := 0.8;
  speedRange := 0.6;
  color := {| r := 0; g := 245; b := 255 |};
  lineAlpha := 0.10;
  particleAlpha := 0.7;
  mouseRadius := 120;
  repel := true
|}.

Record Particle := {
  x : R;
  y : R;
  size : R;
  vx : R;
  vy : R;
  alpha : R
}.

(** The object [mouse]. *)
Record Mouse := {
  m_x : nullable;
  m_y : nullable;
  m_vx : R;
  m_vy : R;
  lastX : nullable;
  lastY : nullable;
  active : bool
}.

Definition mouse0 : Mouse :=
  {| m_x := None; m_y := None; m_vx := 0; m_vy := 0;
     lastX := None; lastY := None; active := false |}.

(** A colour string [rgba(r, g, b, a)]. *)
Record Rgba := { cr : Z; cg : Z; cb : Z; ca : R }.

(** What the 2D context was asked to paint. *)
Inductive DrawOp :=
| ClearRect (x0 y0 w h : R)
| Stroke (style : Rgba) (lineWidth : R) (x1 y1 x2 y2 : R)
| FillArc (style : Rgba) (cx cy radius : R)
| FillHalo (cx cy gradRadius arcRadius : R).

(** Callbacks handed to [requestAnimationFrame]. *)
Inductive Callback := CbLoop | CbMouse.

(** The closure variables of the IIFE, the canvas, and the part of the
    browser the script talks to. *)
Record World := {
  particles : list Particle;
  width : R;
  height : R;
  devicePixelRatio : R;
  mouse : Mouse;
  isRunning : bool;
  animId : option nat;
  rafMouse : option nat;
  canvas_width : Z;
  canvas_height : Z;
  transform : R;
  painted : list DrawOp;
  rafQueue : list Callback;
  rafNext : nat;
  prng : nat -> R
}.

Definition set_particles (v : list Particle) (w : World) : World :=
  {| particles := v; width := width w; height := height w;
     devicePixelRatio := devicePixelRatio w; mouse := mouse w;
     isRunning := isRunning w; animId := animId w; rafMouse := rafMouse w;
     canvas_width := canvas_width w; canvas_height := canvas_height w;
     transform := transform w; painted := painted w;
     rafQueue := rafQueue w; rafNext := rafNext w; prng := prng w |}.

Definition set_surface (wd ht : R) (cw ch : Z) (t : R) (w : World) : World :=
  {| particles := particles w; width := wd; height := ht;
     devicePixelRatio := devicePixelRatio w; mouse := mouse w;
     isRunning := isRunning w; animId := animId w; rafMouse := rafMouse w;
     canvas_width := cw; canvas_height := ch;
     transform := t; painted := painted w;
     rafQueue := rafQueue w; rafNext := rafNext w; prng := prng w |}.

Definition set_mouse (v : Mouse) (w : World) : World :=
  {| particles := particles w; width := width w; height := height w;
     devicePixelRatio := devicePixelRatio w; mouse := v;
     isRunning := isRunning w; animId := animId w; rafMouse := rafMouse w;
     canvas_width := canvas_width w; canvas_height := canvas_height w;
     transform := transform w; painted := painted w;
     rafQueue := rafQueue w; rafNext := rafNext w; prng := prng w |}.

Definition set_isRunning (v : bool) (w : World) : World :=
  {| particles := particles w; width := width w; height := height w;
     devicePixelRatio := devicePixelRatio w; mouse := mouse w;
     isRunning := v; animId := animId w; rafMouse := rafMouse w;
     canvas_width := canvas_width w; canvas_height := canvas_height w;
     transform := transform w; painted := painted w;
     rafQueue := rafQueue w; rafNext := rafNext w; prng := prng w |}.

Definition set_animId (v : option nat) (w : World) : World :=
  {| particles := particles w; width := width w; height := height w;
     devicePixelRatio := devicePixelRatio w; mouse := mouse w;
     isRunning := isRunning w; animId := v; rafMouse := rafMouse w;
     canvas_width := canvas_width w; canvas_height := canvas_height w;
     transform := transform w; painted := painted w;
     rafQueue := rafQueue w; rafNext := rafNext w; prng := prng w |}.

Definition set_rafMouse (v : option nat) (w : World) : World :=
  {| particles := particles w; width := width w; height := height w;
     devicePixelRatio := devicePixelRatio w; mouse := mouse w;
     isRunning := isRunning w; animId := animId w; rafMouse := v;
     canvas_width := canvas_width w; canvas_height := canvas_height w;
     transform := transform w; painted := painted w;
     rafQueue := rafQueue w; rafNext := rafNext w; prng := prng w |}.

Definition set_painted (v : list DrawOp) (w : World) : World :=
  {| particles := particles w; width := width w; height := height w;
     devicePixelRatio := devicePixelRatio w; mouse := mouse w;
     isRunning := isRunning w; animId := animId w; rafMouse := rafMouse w;
     canvas_width := canvas_width w; canvas_height := canvas_height w;
     transform := transform w; painted := v;
     rafQueue := rafQueue w; rafNext := rafNext w; prng := prng w |}.

Definition set_raf (q : list Callback) (n : nat) (w : World) : World :=
  {| particles := particles w; width := width w; height := height w;
     devicePixelRatio := devicePixelRatio w; mouse := mouse w;
     isRunning := isRunning w; animId := animId w; rafMouse := rafMouse w;
     canvas_width := canvas_width w; canvas_height := canvas_height w;
     transform := transform w; painted := painted w;
     rafQueue := q; rafNext := n; prng := prng w |}.

Definition set_prng (v : nat -> R) (w : World) : World :=
  {| particles := particles w; width := width w; height := height w;
     devicePixelRatio := devicePixelRatio w; mouse := mouse w;
     isRunning := isRunning w; animId := animId w; rafMouse := rafMouse w;
     canvas_width := canvas_width w; canvas_height := canvas_height w;
     transform := transform w; painted := painted w;
     rafQueue := rafQueue w; rafNext := rafNext w; prng := v |}.

(** ** Statements that read and write the world *)

Definition M (A : Type) : Type := World -> A * World.

Definition ret {A} (a : A) : M A := fun w => (a, w).
Definition bind {A B} (m : M A) (k : A -> M B) : M B :=
  fun w => let (a, w') := m w in k a w'.
Definition gets {A} (f : World -> A) : M A := fun w => (f w, w).
Definition modify (f : World -> World) : M unit := fun w => (tt, f w).
Definition exec {A} (m : M A) (w : World) : World := snd (m w).

Notation "x <- m ;; k" := (bind m (fun x => k))
  (at level 61, m at next level, right associativity).
Notation "m ;;; k" := (bind m (fun _ => k))
  (at level 61, right associativity).

(** [Math.random()]: the next draw of the stream. *)
Definition Math_random : M R :=
  fun w => (prng w 0%nat, set_prng (fun n => prng w (S n)) w).

(** [requestAnimationFrame(cb)]: queue the callback, return its handle. *)
Definition requestAnimationFrame (cb : Callback) : M nat :=
  fun w => (rafNext w, set_raf (rafQueue w ++ [cb]) (S (rafNext w)) w).

(** ** Creating particles and resizing *)

Definition rand (min max : R) : M R :=
  u <- Math_random ;; ret (u * (max - min) + min).

Definition createParticle (cfg : Config) : M Particle :=
  u1 <- Math_random ;;
  wd <- gets width ;;
  u2 <- Math_random ;;
  ht <- gets height ;;
  sz <- rand (minSize cfg) (maxSize cfg) ;;
  u3 <- Math_random ;;
  u4 <- Math_random ;;
  al <- rand 0.4 (particleAlpha cfg) ;;
  ret {| x := u1 * wd; y := u2 * ht; size := sz;
         vx := (u3 - 0.5) * speedRange cfg;
         vy := (u4 - 0.5) * speedRange cfg;
         alpha := al |}.

(** [particles.push(createParticle())]. *)
Definition push_particle (cfg : Config) : M unit :=
  p <- createParticle cfg ;;
  modify (fun w => set_particles (particles w ++ [p]) w).

(** [for (let i = start; i < count; i++) particles.push(createParticle())],
    given the number of turns the loop takes. *)
Fixpoint push_loop (cfg : Config) (turns : nat) : M unit :=
  match turns with
  | O => ret tt
  | S n => push_particle cfg ;;; push_loop cfg n
  end.

Definition refArea : R := 1366 * 768.

(** The constant [count] of [resize], from the area of the surface. *)
Definition targetCount (cfg : Config) (area : R) : Z :=
  Math_round (baseCount cfg * Math_max 0.5 (Math_min 2.2 (area / refArea))).

(** The [if]/[else if] chain that ends [resize]. *)
Definition reconcile (cfg : Config) (count : Z) : M unit :=
  len <- gets (fun w => length (particles w)) ;;
  if Nat.eqb len 0 then
    push_loop cfg (Z.to_nat (count - 0))
  else if (Z.of_nat len <? count)%Z then
    push_loop cfg (Z.to_nat (count - Z.of_nat len))
  else if gtb (IZR (Z.of_nat len)) (IZR count * 1.4) then
    modify (fun w => set_particles (slice0 (particles w) count) w)
  else ret tt.

(** What [resize] reads from the page. *)
Record Layout := {
  clientWidth : R;
  clientHeight : R;
  innerWidth : R;
  innerHeight : R
}.

Definition resize (cfg : Config) (l : Layout) : M unit :=
  modify (fun w =>
    let wd := or_else (clientWidth l) (innerWidth l) in
    let ht := or_else (clientHeight l) (innerHeight l) in
    set_surface wd ht
      (Math_round (wd * devicePixelRatio w))
      (Math_round (ht * devicePixelRatio w))
      (devicePixelRatio w) w) ;;;
  wd <- gets width ;;
  ht <- gets height ;;
  let area := wd * ht in
  let count := targetCount cfg area in
  reconcile cfg count.

(** ** The frame: [update], [render], [loop] *)

Definition set_x (v : R) (p : Particle) : Particle :=
  {| x := v; y := y p; size := size p; vx := vx p; vy := vy p; alpha := alpha p |}.
Definition set_y (v : R) (p : Particle) : Particle :=
  {| x := x p; y := v; size := size p; vx := vx p; vy := vy p; alpha := alpha p |}.
Definition set_vx (v : R) (p : Particle) : Particle :=
  {| x := x p; y := y p; size := size p; vx := v; vy := vy p; alpha := alpha p |}.
Definition set_vy (v : R) (p : Particle) : Particle :=
  {| x := x p; y := y p; size := size p; vx := vx p; vy := v; alpha := alpha p |}.

(** "apply velocity" and "wrap around edges". *)
Definition advance (wd ht : R) (p : Particle) : Particle :=
  let p := set_x (x p + vx p) p in
  let p := set_y (y p + vy p) p in
  let p := if ltb (x p) (-10) then set_x (wd + 10) p else p in
  let p := if gtb (x p) (wd + 10) then set_x (-10) p else p in
  let p := if ltb (y p) (-10) then set_y (ht + 10) p else p in
  let p := if gtb (y p) (ht + 10) then set_y (-10) p else p in
  p.

(** "clamp velocity". *)
Definition clamp_velocity (cfg : Config) (p : Particle) : Particle :=
  let vmax := speedRange cfg * 2.2 in
  let p := set_vx (Math_max (- vmax) (Math_min vmax (vx p))) p in
  let p := set_vy (Math_max (- vmax) (Math_min vmax (vy p))) p in
  p.

(** "mouse interaction". *)
Definition interact (cfg : Config) (m : Mouse) (p : Particle) : Particle :=
  if active m && not_null (m_x m) then
    let dx := x p - to_number (m_x m) in
    let dy := y p - to_number (m_y m) in
    let dist := Math_sqrt (dx * dx + dy * dy) in
    if ltb dist (mouseRadius cfg) then
      let force := (1 - dist / mouseRadius cfg) * 0.6 in
      let dirX := dx / or_else dist 1 in
      let dirY := dy / or_else dist 1 in
      let p :=
        if repel cfg then
          let p := set_vx (vx p + dirX * force) p in
          set_vy (vy p + dirY * force) p
        else
          let p := set_vx (vx p - dirX * force * 0.15) p in
          set_vy (vy p - dirY * force * 0.15) p in
      clamp_velocity cfg p
    else p
  else p.

(** "gentle velocity damping". *)
Definition damp (p : Particle) : Particle :=
  let p := set_vx (vx p * 0.995) p in
  let p := set_vy (vy p * 0.995) p in
  p.

(** The body of the [for] loop of [update], for one particle. *)
Definition update_particle (cfg : Config) (wd ht : R) (m : Mouse)
    (p : Particle) : Particle :=
  damp (interact cfg m (advance wd ht p)).

(** The mouse interaction once more, its three divisions made through
    [divide]: it has a result when no divisor is 0.
    [dirX = dx / (dist || 1)] and [dirY = dy / (dist || 1)]: *)
Definition direction (dx dy dist : R) : option (R * R) :=
  match divide dx (or_else dist 1), divide dy (or_else dist 1) with
  | Some dirX, Some dirY => Some (dirX, dirY)
  | _, _ => None
  end.

Definition interact_checked (cfg : Config) (m : Mouse) (p : Particle)
    : option Particle :=
  if active m && not_null (m_x m) then
    let dx := x p - to_number (m_x m) in
    let dy := y p - to_number (m_y m) in
    let dist := Math_sqrt (dx * dx + dy * dy) in
    if ltb dist (mouseRadius cfg) then
      match divide dist (mouseRadius cfg), direction dx dy dist with
      | Some ratio, Some (dirX, dirY) =>
          let force := (1 - ratio) * 0.6 in
          let p :=
            if repel cfg then
              let p := set_vx (vx p + dirX * force) p in
              set_vy (vy p + dirY * force) p
            else
              let p := set_vx (vx p - dirX * force * 0.15) p in
              set_vy (vy p - dirY * force * 0.15) p in
          Some (clamp_velocity cfg p)
      | _, _ => None
      end
    else Some p
  else Some p.

Definition update_particle_checked (cfg : Config) (wd ht : R) (m : Mouse)
    (p : Particle) : option Particle :=
  option_map damp (interact_checked cfg m (advance wd ht p)).

(** The loop visits every index once and changes that particle only. *)
Definition update (cfg : Config) : M unit :=
  modify (fun w =>
    set_particles
      (map (update_particle cfg (width w) (height w) (mouse w)) (particles w)) w).

Definition rgba (cfg : Config) (a : R) : Rgba :=
  {| cr := r (color cfg); cg := g (color cfg); cb := b (color cfg); ca := a |}.

Definition clear (w : World) : list DrawOp :=
  [ClearRect 0 0 (width w) (height w)].

Definition drawParticle (cfg : Config) (p : Particle) : list DrawOp :=
  [FillArc (rgba cfg (alpha p)) (x p) (y p) (size p)].

Definition drawLine (cfg : Config) (p1 p2 : Particle) (dist : R) : list DrawOp :=
  let alpha := Math_max 0 (lineAlpha cfg * (1 - dist / connectDistance cfg)) in
  [Stroke (rgba cfg alpha) 0.5 (x p1) (y p1) (x p2) (y p2)].

(** The body of the inner loop of [render], for the particles [a], [b]. *)
Definition connect (cfg : Config) (a b : Particle) : list DrawOp :=
  let dx := x a - x b in
  let dy := y a - y b in
  let dist := Math_sqrt (dx * dx + dy * dy) in
  if ltb dist (connectDistance cfg) then drawLine cfg a b dist else [].

(** The inner loop: [a] is [particles[i]], [rest] the particles after it. *)
Fixpoint connect_with (cfg : Config) (a : Particle) (rest : list Particle)
    : list DrawOp :=
  match rest with
  | [] => []
  | b :: rest' => connect cfg a b ++ connect_with cfg a rest'
  end.

(** The outer loop. *)
Fixpoint connections (cfg : Config) (ps : list Particle) : list DrawOp :=
  match ps with
  | [] => []
  | a :: rest => connect_with cfg a rest ++ connections cfg rest
  end.

Definition halo (cfg : Config) (m : Mouse) : list DrawOp :=
  if active m && not_null (m_x m) then
    [FillHalo (to_number (m_x m)) (to_number (m_y m))
       (Math_min (mouseRadius cfg * 1.2) 240) (mouseRadius cfg * 1.2)]
  else [].

(** What one call of [render] paints, in order. *)
Definition render_ops (cfg : Config) (w : World) : list DrawOp :=
  clear w
  ++ connections cfg (particles w)
  ++ flat_map (drawParticle cfg) (particles w)
  ++ halo cfg (mouse w).

Definition render (cfg : Config) : M unit :=
  modify (fun w => set_painted (painted w ++ render_ops cfg w) w).

Definition loop (cfg : Config) : M unit :=
  running <- gets isRunning ;;
  if negb running then ret tt
  else
    update cfg ;;;
    render cfg ;;;
    id <- requestAnimationFrame CbLoop ;;
    modify (set_animId (Some id)).

(** ** Pointer, visibility and the event loop of the page *)

Record PointerEvent := { clientX : R; clientY : R }.

(** [canvas.getBoundingClientRect()]. *)
Record Rect := { left : R; top : R }.

(** [!rafMouse]. *)
Definition falsy_handle (h : option nat) : bool :=
  match h with None => true | Some n => Nat.eqb n 0 end.

Definition onMouseMove (e : PointerEvent) (rect : Rect) : M unit :=
  modify (fun w =>
    let m := mouse w in
    let mx := clientX e - left rect in
    let my := clientY e - top rect in
    let moved := not_null (lastX m) in
    set_mouse
      {| m_x := Some mx; m_y := Some my;
         m_vx := if moved then mx - to_number (lastX m) else m_vx m;
         m_vy := if moved then my - to_number (lastY m) else m_vy m;
         lastX := Some mx; lastY := Some my;
         active := true |} w) ;;;
  pending <- gets rafMouse ;;
  if falsy_handle pending then
    id <- requestAnimationFrame CbMouse ;;
    modify (set_rafMouse (Some id))
  else ret tt.

Definition onMouseLeave : M unit :=
  modify (fun w =>
    set_mouse
      {| m_x := None; m_y := None;
         m_vx := m_vx (mouse w); m_vy := m_vy (mouse w);
         lastX := None; lastY := None;
         active := false |} w).

Definition onTouchMove (touches : list PointerEvent) (rect : Rect) : M unit :=
  match touches with
  | [] => ret tt
  | t :: _ => onMouseMove t rect
  end.

Definition onTouchEnd : M unit := onMouseLeave.

Inductive VisibilityState := visible | hidden.

Definition is_visible (v : VisibilityState) : bool :=
  match v with visible => true | hidden => false end.

(** The [visibilitychange] listener. *)
Definition onVisibilityChange (cfg : Config) (v : VisibilityState) : M unit :=
  modify (set_isRunning (is_visible v)) ;;;
  running <- gets isRunning ;;
  if running then loop cfg else ret tt.

Definition run_callback (cfg : Config) (cb : Callback) : M unit :=
  match cb with
  | CbLoop => loop cfg
  | CbMouse => modify (set_rafMouse None)
  end.

Fixpoint run_callbacks (cfg : Config) (cbs : list Callback) : M unit :=
  match cbs with
  | [] => ret tt
  | cb :: rest => run_callback cfg cb ;;; run_callbacks cfg rest
  end.

(** A repaint: the browser takes the queued callbacks and runs them;
    callbacks requested meanwhile wait for the next repaint. *)
Definition frame (cfg : Config) : M unit :=
  q <- gets rafQueue ;;
  modify (fun w => set_raf [] (rafNext w) w) ;;;
  run_callbacks cfg q.

(** What the page can do to the animator once [init] has bound the
    listeners.  [ResizeTimer] is the debounced timer of [bind] firing. *)
Inductive Event :=
| VisibilityChange (v : VisibilityState)
| Frame
| ResizeTimer (l : Layout)
| MouseMove (e : PointerEvent) (rect : Rect)
| MouseLeave
| TouchMove (touches : list PointerEvent) (rect : Rect)
| TouchEnd.

Definition handle (cfg : Config) (ev : Event) : M unit :=
  match ev with
  | VisibilityChange v => onVisibilityChange cfg v
  | Frame => frame cfg
  | ResizeTimer l => resize cfg l
  | MouseMove e rect => onMouseMove e rect
  | MouseLeave => onMouseLeave
  | TouchMove ts rect => onTouchMove ts rect
  | TouchEnd => onTouchEnd
  end.

Definition step (cfg : Config) (ev : Event) (w : World) : World :=
  exec (handle cfg ev) w.

Definition run (cfg : Config) (evs : list Event) (w : World) : World :=
  fold_left (fun w ev => step cfg ev w) evs w.

(** [init]: [resize(); bind(); loop();], [bind] only registering the
    listeners that [handle] dispatches to. *)
Definition init (cfg : Config) (l : Layout) : M unit :=
  resize cfg l ;;;
  loop cfg.

(** The page when the IIFE starts: the initial values of its variables. *)
Record Page := {
  layout : Layout;
  window_devicePixelRatio : R;
  randoms : nat -> R
}.

Definition fresh (pg : Page) : World :=
  {| particles := []; width := 0; height := 0;
     devicePixelRatio := Math_max 1 (or_else (window_devicePixelRatio pg) 1);
     mouse := mouse0; isRunning := true; animId := None; rafMouse := None;
     canvas_width := 300; canvas_height := 150; transform := 1;
     painted := []; rafQueue := []; rafNext := 1; prng := randoms pg |}.

Definition boot (cfg : Config) (pg : Page) : World :=
  exec (init cfg (layout pg)) (fresh pg).

(** ** The top level of the script *)

(** The elements of the page that have an id. *)
Record Document := { ids : list string }.

Inductive Element := ElementWithId (id : string).

Definition getElementById (doc : Document) (id : string) : option Element :=
  if existsb (String.eqb id) (ids doc) then Some (ElementWithId id) else None.

Inductive JsError := TypeError.

(** How a statement ends: normally, or by throwing. *)
Inductive Completion (A : Type) :=
| Normal (a : A)
| Throw (e : JsError).
Arguments Normal {A} a.
Arguments Throw {A} e.

Definition and_then {A B} (c : Completion A) (k : A -> Completion B) : Completion B :=
  match c with
  | Normal a => k a
  | Throw e => Throw e
  end.

Inductive Context2d := ContextOf (canvas : Element).

(** [canvas.getContext('2d')]: reading a property of [null] throws. *)
Definition getContext (canvas : option Element) : Completion Context2d :=
  match canvas with
  | Some c => Normal (ContextOf c)
  | None => Throw TypeError
  end.

(** The older engine at the top level of the script,
    [const canvas = document.getElementById('particles');
     const ctx = canvas.getContext('2d'); ... initParticles();
     animateParticles();], as far as its start goes: [true] says that it
    runs. *)
Definition legacy_engine (doc : Document) : Completion bool :=
  let canvas := getElementById doc "particles" in
  and_then (getContext canvas) (fun ctx => Normal true).

(** The IIFE: [if (!canvas) return;], then the definitions and [init()]. *)
Definition animator_iife (doc : Document) (pg : Page) : Completion (option World) :=
  let canvas := getElementById doc "particles" in
  match canvas with
  | None => Normal None
  | Some c => and_then (getContext canvas) (fun ctx => Normal (Some (boot CONFIG pg)))
  end.

(** What the script has started once it ran to its end. *)
Record Started := { legacy_running : bool; animator : option World }.

(** The two engines in the order of the script; a throw at the top level
    ends the script. *)
Definition script (doc : Document) (pg : Page) : Completion Started :=
  and_then (legacy_engine doc) (fun l =>
  and_then (animator_iife doc pg) (fun a =>
  Normal {| legacy_running := l; animator := a |})).

(** ** Vocabulary of the properties *)

(** [clamp] as the specification writes it. *)
Definition clamp (v lo hi : R) : R :=
  if Rlt_dec v lo then lo else if Rlt_dec hi v then hi else v.

(** The part of the world that only [update] and [resize] write. *)
Definition same_core (w w' : World) : Prop :=
  particles w' = particles w /\ width w' = width w
  /\ height w' = height w /\ prng w' = prng w.

Definition core_pred (P : World -> Prop) : Prop :=
  forall w w', same_core w w' -> P w -> P w'.

Definition random_ok (w : World) : Prop := forall n, 0 <= prng w n < 1.

(** Position within the margin of a [wd] by [ht] surface. *)
Definition inside (wd ht : R) (p : Particle) : Prop :=
  (-10 <= x p <= wd + 10) /\ (-10 <= y p <= ht + 10).

(** Each velocity component within [2.2 * speedRange]. *)
Definition slow (cfg : Config) (p : Particle) : Prop :=
  Rabs (vx p) <= 2.2 * speedRange cfg /\ Rabs (vy p) <= 2.2 * speedRange cfg.

Definition layout_ok (l : Layout) : Prop :=
  0 <= clientWidth l /\ 0 <= clientHeight l
  /\ 0 <= innerWidth l /\ 0 <= innerHeight l.

Definition page_ok (pg : Page) : Prop :=
  layout_ok (layout pg) /\ forall n, 0 <= randoms pg n < 1.

Definition event_ok (ev : Event) : Prop :=
  match ev with ResizeTimer l => layout_ok l | _ => True end.

Definition not_resize (ev : Event) : Prop :=
  match ev with ResizeTimer _ => False | _ => True end.

(** A world measured [wd] by [ht] whose particles all satisfy [Q]. *)
Definition settled (Q : Particle -> Prop) (wd ht : R) (w : World) : Prop :=
  random_ok w /\ width w = wd /\ height w = ht /\ Forall Q (particles w).

Definition Inv_d (w : World) : Prop :=
  random_ok w /\ 0 <= width w /\ 0 <= height w.

Definition Inv_p (w : World) : Prop :=
  Inv_d w /\ Forall (inside (width w) (height w)) (particles w).

Definition Inv_v (cfg : Config) (w : World) : Prop :=
  random_ok w /\ Forall (slow cfg) (particles w).

(** The Euclidean distance between two particles. *)
Definition distance (a c : Particle) : R :=
  sqrt ((x a - x c) * (x a - x c) + (y a - y c) * (y a - y c)).

(** The line between [a] and [c] at opacity [op]. *)
Definition line (cfg : Config) (a c : Particle) (op : R) : DrawOp :=
  Stroke (rgba cfg op) 0.5 (x a) (y a) (x c) (y c).

Definition faded (cfg : Config) (a c : Particle) : R :=
  lineAlpha cfg * (1 - distance a c / connectDistance cfg).

(** The unordered pairs of a list: each element with each later one. *)
Fixpoint pairs {A : Type} (l : list A) : list (A * A) :=
  match l with
  | [] => []
  | a :: rest => map (pair a) rest ++ pairs rest
  end.

(** The pair is closer than [connectDistance]. *)
Definition near (cfg : Config) (ac : Particle * Particle) : bool :=
  ltb (distance (fst ac) (snd ac)) (connectDistance cfg).

Definition pair_line (cfg : Config) (ac : Particle * Particle) : DrawOp :=
  line cfg (fst ac) (snd ac) (faded cfg (fst ac) (snd ac)).

Definition is_stroke (op : DrawOp) : bool :=
  match op with Stroke _ _ _ _ _ _ => true | _ => false end.

(** Distance from the pointer to the particle, as [update] computes it. *)
Definition pointer_distance (m : Mouse) (p : Particle) : R :=
  let dx := x p - to_number (m_x m) in
  let dy := y p - to_number (m_y m) in
  sqrt (dx * dx + dy * dy).

(** The claim of C8 read literally: every particle closer to the pointer than
    [mouseRadius] has a vector of length [(1 - dist / mouseRadius) * 0.6]
    (times 0.15 in attract mode) added to its velocity. *)
Definition pointer_force_as_claimed (cfg : Config) (m : Mouse) (p : Particle) : Prop :=
  let dist := pointer_distance m p in
  dist < mouseRadius cfg ->
  exists Fx Fy,
    sqrt (Fx * Fx + Fy * Fy)
    = (1 - dist / mouseRadius cfg) * 0.6 * (if repel cfg then 1 else 0.15)
    /\ interact cfg m p
       = clamp_velocity cfg (set_vy (vy p + Fy) (set_vx (vx p + Fx) p)).

(** Events that can reach the animator while the page stays hidden. *)
Definition quiet (ev : Event) : Prop :=
  match ev with
  | VisibilityChange visible => False
  | ResizeTimer _ => False
  | _ => True
  end.

(** Nothing was updated or painted between [w] and [w'], and the animator is
    paused in [w']. *)
Definition frozen (w w' : World) : Prop :=
  isRunning w' = false /\ particles w' = particles w /\ painted w' = painted w
  /\ width w' = width w /\ height w' = height w.

Definition forget_velocity (m : Mouse) : Mouse :=
  {| m_x := m_x m; m_y := m_y m; m_vx := 0; m_vy := 0;
     lastX := lastX m; lastY := lastY m; active := active m |}.

Definition blind (w : World) : World := set_mouse (forget_velocity (mouse w)) w.

(** Two worlds that differ at most in [mouse.vx] and [mouse.vy]. *)
Definition alike (w1 w2 : World) : Prop := blind w1 = blind w2.

Record alike_fields (w1 w2 : World) : Prop := {
  al_particles : particles w1 = particles w2;
  al_width : width w1 = width w2;
  al_height : height w1 = height w2;
  al_dpr : devicePixelRatio w1 = devicePixelRatio w2;
  al_mouse : forget_velocity (mouse w1) = forget_velocity (mouse w2);
  al_isRunning : isRunning w1 = isRunning w2;
  al_animId : animId w1 = animId w2;
  al_rafMouse : rafMouse w1 = rafMouse w2;
  al_canvas_width : canvas_width w1 = canvas_width w2;
  al_canvas_height : canvas_height w1 = canvas_height w2;
  al_transform : transform w1 = transform w2;
  al_painted : painted w1 = painted w2;
  al_rafQueue : rafQueue w1 = rafQueue w2;
  al_rafNext : rafNext w1 = rafNext w2;
  al_prng : prng w1 = prng w2
}.

(** A statement whose result and effect do not depend on the pointer
    velocity. *)
Definition secure {A} (m : M A) : Prop :=
  forall w1 w2, alike w1 w2 ->
    fst (m w1) = fst (m w2) /\ alike (snd (m w1)) (snd (m w2)).

(** The direction without the guard: [dx / dist] and [dy / dist]. *)
Definition direction_unguarded (dx dy dist : R) : option (R * R) :=
  match divide dx dist, divide dy dist with
  | Some dirX, Some dirY => Some (dirX, dirY)
  | _, _ => None
  end.

(** Events that can reach the animator while the page stays hidden: all but
    the notification that it is visible again.  The debounced resize timer is
    among them. *)
Definition while_hidden (ev : Event) : Prop :=
  match ev with
  | VisibilityChange visible => False
  | _ => True
  end.

Definition is_resize (ev : Event) : bool :=
  match ev with ResizeTimer _ => true | _ => false end.

(** The resizes among the events, in order. *)
Definition resizes (evs : list Event) : list Event := filter is_resize evs.

(** A statement whose result and whose effect on the core depend on the core
    only. *)
Definition determined {A : Type} (m : M A) : Prop :=
  forall w1 w2, same_core w1 w2 ->
    fst (m w1) = fst (m w2) /\ same_core (snd (m w1)) (snd (m w2)).

(** ** Sample pages, worlds and particles *)

(** A 1366 by 768 page whose random draws are all 0.5. *)
Definition page0 : Page :=
  {| layout := {| clientWidth := 1366; clientHeight := 768;
                  innerWidth := 1366; innerHeight := 768 |};
     window_devicePixelRatio := 1;
     randoms := fun _ => 0.5 |}.

Definition world0 : World := fresh page0.

Definition still : Particle :=
  {| x := 0; y := 0; size := 1; vx := 0; vy := 0; alpha := 0.5 |}.

(** A world holding [n] particles. *)
Definition crowd (n : nat) : World := set_particles (repeat still n) world0.

(** A particle at rest at [(px, py)]. *)
Definition dot (px py : R) : Particle :=
  {| x := px; y := py; size := 1; vx := 0; vy := 0; alpha := 0.5 |}.

(** The pointer resting at [(px, py)]. *)
Definition pointer (px py : R) : Mouse :=
  {| m_x := Some px; m_y := Some py; m_vx := 0; m_vy := 0;
     lastX := Some px; lastY := Some py; active := true |}.

(** The pointer moving to [(px, py)] of a canvas at the origin. *)
Definition pointer_at (px py : R) : Event :=
  MouseMove {| clientX := px; clientY := py |} {| left := 0; top := 0 |}.

Definition with_pointer_velocity (ux uy : R) (w : World) : World :=
  set_mouse {| m_x := m_x (mouse w); m_y := m_y (mouse w);
               m_vx := ux; m_vy := uy;
               lastX := lastX (mouse w); lastY := lastY (mouse w);
               active := active (mouse w) |} w.

(** The particle [createParticle] makes on a [wd] by [ht] surface when every
    random draw is [c]. *)
Definition newborn (cfg : Config) (c wd ht : R) : Particle :=
  {| x := c * wd; y := c * ht;
     size := c * (maxSize cfg - minSize cfg) + minSize cfg;
     vx := (c - 0.5) * speedRange cfg;
     vy := (c - 0.5) * speedRange cfg;
     alpha := c * (particleAlpha cfg - 0.4) + 0.4 |}.

(** A page that has no element [particles]. *)
Definition page_without_canvas : Document :=
  {| ids := ["navLinks"; "typed"; "reveal-left"; "reveal-right"]%string |}.

(** The page of [page0] with every random draw equal to [c]. *)
Definition page_const (c : R) : Page :=
  {| layout := layout page0; window_devicePixelRatio := 1; randoms := fun _ => c |}.

(** A particle about to leave the 1366 by 768 surface at its left and bottom
    edges. *)
Definition leaving : Particle :=
  {| x := -9.9; y := 777.5; size := 1; vx := -0.2; vy := 0.6; alpha := 0.5 |}.

(** ** More of the animator *)


(** A statement that leaves the value [f] reads from the world as it was. *)
Definition keeps {A B : Type} (f : World -> B) (m : M A) : Prop :=
  forall w, f (snd (m w)) = f w.

Definition is_loop (cb : Callback) : bool :=
  match cb with CbLoop => true | CbMouse => false end.

Definition is_mouse_cb (cb : Callback) : bool :=
  match cb with CbMouse => true | CbLoop => false end.

(** How many [loop] callbacks, and how many callbacks of [onMouseMove], a
    frame queue holds. *)
Definition loops (q : list Callback) : nat := length (filter is_loop q).

Definition mouse_frames (q : list Callback) : nat :=
  length (filter is_mouse_cb q).

(** Size and opacity within the configured ranges. *)
Definition in_ranges (cfg : Config) (p : Particle) : Prop :=
  (minSize cfg <= size p <= maxSize cfg)
  /\ (0.4 <= alpha p <= particleAlpha cfg).

(** Events other than a pointer or touch move. *)
Definition no_move (ev : Event) : Prop :=
  match ev with
  | MouseMove _ _ => False
  | TouchMove _ _ => False
  | _ => True
  end.


(** What the frame callbacks are kept in. *)
Definition raf_state (w : World) : list Callback * nat * option nat :=
  (rafQueue w, rafNext w, rafMouse w).

(** At most one callback of [onMouseMove] waits, and [rafMouse] says so. *)
Definition raf_ok (w : World) : Prop :=
  (1 <= rafNext w)%nat
  /\ match rafMouse w with
     | None => mouse_frames (rafQueue w) = 0%nat
     | Some n => (1 <= n)%nat /\ mouse_frames (rafQueue w) = 1%nat
     end.

Definition count_ok (w : World) : Prop :=
  (30 <= Z.of_nat (length (particles w)) <= 132)%Z.


Set Warnings "-inexact-float".

(** ** The count arithmetic of [resize] in binary64

    The numbers of the script are IEEE 754 doubles.  For positions and
    velocities the real numbers stand in for them.  In two places [resize]
    turns a product into a decision, the rounding of [Math.round] and the test
    [particles.length > count * 1.4]; there the last bit of the product
    matters, and the doubles themselves are used, as the primitive floats of
    the kernel. *)

Module Binary64.
Import PrimFloat.

(** An integer of the script as a double (exact below [2^53]). *)
Definition of_Z (z : Z) : float :=
  if (z <? 0)%Z then PrimFloat.opp (PrimFloat.of_uint63 (Uint63.of_Z (- z)))
  else PrimFloat.of_uint63 (Uint63.of_Z z).

(** [Math.round]: for a finite double [n * 2^e] the integer
    [floor (n * 2^e + 1/2)], computed on the mantissa. *)
Definition Math_round (f : float) : Z :=
  match FloatOps.Prim2SF f with
  | SpecFloat.S754_finite s m e =>
      let n := if s then Z.neg m else Z.pos m in
      if (0 <=? e)%Z then Z.shiftl n e
      else Z.shiftr (2 * n + Z.shiftl 1 (- e)) (- e + 1)
  | _ => 0%Z
  end.

(** [Math.max] and [Math.min] of two numbers neither of which is [NaN], as
    is the case in [resize]. *)
Definition Math_max (a b : float) : float := if PrimFloat.ltb a b then b else a.
Definition Math_min (a b : float) : float := if PrimFloat.ltb b a then b else a.
Definition gtb (a b : float) : bool := PrimFloat.ltb b a.

Definition refArea : float := (of_Z 1366 * of_Z 768)%float.

(** [CONFIG.baseCount * Math.max(0.5, Math.min(2.2, area / refArea))] with
    [CONFIG.baseCount = 60], and [count], its [Math.round]. *)
Definition scaled (area : float) : float :=
  (60 * Math_max 0.5 (Math_min 2.2 (area / refArea)))%float.

Definition targetCount (area : float) : Z := Math_round (scaled area).

(** The [if]/[else if] chain that ends [resize]. *)
Definition reconcile (cfg : Config) (count : Z) : M unit :=
  len <- gets (fun w => length (particles w)) ;;
  if Nat.eqb len 0 then
    push_loop cfg (Z.to_nat (count - 0))
  else if (Z.of_nat len <? count)%Z then
    push_loop cfg (Z.to_nat (count - Z.of_nat len))
  else if gtb (of_Z (Z.of_nat len)) (of_Z count * 1.4)%float then
    modify (fun w => set_particles (slice0 (particles w) count) w)
  else ret tt.

(** The test [particles.length > count * 1.4] on its own. *)
Definition over_band (len count : Z) : bool :=
  gtb (of_Z len) (of_Z count * 1.4)%float.

(** [clientWidth], [innerWidth] and the like are integers. *)
Record Layout := {
  clientWidth : Z;
  clientHeight : Z;
  innerWidth : Z;
  innerHeight : Z
}.

Definition or_else (a b : Z) : Z := if (a =? 0)%Z then b else a.

(** [resize] with [CONFIG]. *)
Definition resize (l : Layout) : M unit :=
  modify (fun w =>
    let wd := IZR (or_else (clientWidth l) (innerWidth l)) in
    let ht := IZR (or_else (clientHeight l) (innerHeight l)) in
    set_surface wd ht
      (Js.Math_round (wd * devicePixelRatio w))
      (Js.Math_round (ht * devicePixelRatio w))
      (devicePixelRatio w) w) ;;;
  let wd := of_Z (or_else (clientWidth l) (innerWidth l)) in
  let ht := of_Z (or_else (clientHeight l) (innerHeight l)) in
  let area := (wd * ht)%float in
  let count := targetCount area in
  reconcile CONFIG count.

(** The area of a [wd] by [ht] surface as [resize] computes it. *)
Definition area (wd ht : Z) : float := (of_Z wd * of_Z ht)%float.

(** [k - 0.5 <= x < k + 0.5], in doubles. *)
Definition below (k : Z) : float := (of_Z k - 0.5)%float.
Definition above (k : Z) : float := (of_Z k + 0.5)%float.
Definition near (x : float) (k : Z) : bool :=
  PrimFloat.leb (below k) x && PrimFloat.ltb x (above k).


End Binary64.

(** The integers from [0] to [n - 1]. *)
Definition upto (n : nat) : list Z := map Z.of_nat (seq 0 n).

(** The targets up to 132 whose product [T * 1.4], an integer in exact
    arithmetic, is a double just below that integer: there [C = 1.4 * T]
    passes the test [C > T * 1.4] of the script. *)
Definition band_edge (C T : Z) : Prop :=
  (5 * C = 7 * T)%Z /\ (T = 45 \/ T = 85 \/ T = 90)%Z.

Definition band_edgeb (C T : Z) : bool :=
  (5 * C =? 7 * T)%Z && ((T =? 45) || (T =? 85) || (T =? 90))%Z.

(** The test of the script against the exact comparison, for every count up
    to 200 and every target up to 132. *)
Definition band_scan : bool :=
  forallb (fun T =>
    forallb (fun C =>
      Bool.eqb (Binary64.over_band C T)
               ((7 * T <? 5 * C)%Z || band_edgeb C T))
      (upto 201))
    (upto 133).

(** [k] is [round (60 * clamp (area / (1366 * 768), 0.5, 2.2))], in integers. *)
Definition is_target (area k : Z) : bool :=
  if (2 * area <=? 1049088)%Z then (k =? 30)%Z
  else if (23079936 <=? 10 * area)%Z then (k =? 132)%Z
  else (2098176 * k <=? 120 * area + 1049088)%Z
       && (120 * area + 1049088 <? 2098176 * (k + 1))%Z.

(** The exact target of [area], from the exact target [k] of [area - 1]. *)
Definition exact_next (area k : Z) : Z :=
  if (2 * area <=? 1049088)%Z then 30%Z
  else if (23079936 <=? 10 * area)%Z then 132%Z
  else if (2098176 * (k + 1) <=? 120 * area + 1049088)%Z then (k + 1)%Z else k.

(** The double of the script lies within a half of [k]; on the area of a 1568
    by 1366 surface, where the exact product is 122.5, it lies below. *)
Definition target_near (area k : Z) : bool :=
  Binary64.near (Binary64.scaled (Binary64.of_Z area))
    (if (area =? 2141888)%Z then 122%Z else k).

(** One area after the other: the area, its exact target, and whether every
    double so far was near the exact target. *)
Definition scan_step (s : Z * Z * bool) : Z * Z * bool :=
  let '(area, k, ok) := s in
  let k' := exact_next area k in
  ((area + 1)%Z, k', ok && target_near area k').

Definition target_scan (n : N) : Z * Z * bool :=
  N.iter n scan_step (0%Z, 30%Z, true).

(** The doubles [k - 0.5] and [k + 0.5] are what their names say: [f] is
    [m * 2^e] with a mantissa of 53 bits, and twice its value is [twice]. *)
Definition half_ok (f : PrimFloat.float) (twice : Z) : bool :=
  match FloatOps.Prim2SF f with
  | SpecFloat.S754_finite false m e =>
      (-60 <=? e)%Z && (e <? 0)%Z
      && (Z.pos (SpecFloat.digits2_pos m) =? 53)%Z
      && (Z.pos m * 2 ^ (e + 60) =? twice * 2 ^ 59)%Z
  | _ => false
  end.

Definition threshold_ok (k : Z) : bool :=
  half_ok (Binary64.below k) (2 * k - 1) && half_ok (Binary64.above k) (2 * k + 1).

Definition thresholds_ok : bool :=
  forallb (fun i => threshold_ok (30 + Z.of_nat i)) (seq 0 103).

(** The value of the double [m * 2^e], times [2^60]. *)
Definition scaled_value (m : positive) (e : Z) : Z := (Z.pos m * 2 ^ (e + 60))%Z.

(** ** The older engine at the top of the script

    [initParticles], [connectParticles] and [animateParticles] with their
    own array [particlesArray].  They read [canvas.width] and
    [canvas.height] at every call. *)

Module Legacy.

Record Particle := {
  x : R;
  y : R;
  size : R;
  speedX : R;
  speedY : R
}.

Record World := {
  canvas_width : R;
  canvas_height : R;
  particlesArray : list Particle;
  painted : list DrawOp;
  frames : nat;
  prng : nat -> R
}.

(** The object literal of [initParticles]: five draws, in order. *)
Definition new_particle (w : World) : Particle :=
  {| x := prng w 0%nat * canvas_width w;
     y := prng w 1%nat * canvas_height w;
     size := prng w 2%nat * 2 + 1;
     speedX := (prng w 3%nat - 0.5) * 0.5;
     speedY := (prng w 4%nat - 0.5) * 0.5 |}.

(** [particlesArray.push({...})]. *)
Definition push (w : World) : World :=
  {| canvas_width := canvas_width w; canvas_height := canvas_height w;
     particlesArray := particlesArray w ++ [new_particle w];
     painted := painted w; frames := frames w;
     prng := fun n => prng w (5 + n)%nat |}.

Definition initParticles (innerWidth innerHeight : R) (w : World) : World :=
  let w :=
    {| canvas_width := innerWidth; canvas_height := innerHeight;
       particlesArray := [];
       painted := painted w; frames := frames w; prng := prng w |} in
  let count := Zfloor (canvas_width w * canvas_height w / 90000) in
  Nat.iter (Z.to_nat (Z.max 40 count)) push w.

(** The body of the inner loop of [connectParticles]. *)
Definition connect (a c : Particle) : list DrawOp :=
  let dx := x a - x c in
  let dy := y a - y c in
  let dist := Math_sqrt (dx * dx + dy * dy) in
  if ltb dist 120 then
    [Stroke {| cr := 0; cg := 245; cb := 255; ca := 0.1 |} 0.5
       (x a) (y a) (x c) (y c)]
  else [].

(** The inner loop over [row], the particles from index [a] on. *)
Definition connect_row (a : Particle) (row : list Particle) : list DrawOp :=
  flat_map (connect a) row.

(** The outer loop: [b] starts at [a] itself. *)
Fixpoint connectParticles (ps : list Particle) : list DrawOp :=
  match ps with
  | [] => []
  | a :: rest => connect_row a (a :: rest) ++ connectParticles rest
  end.

(** What [animateParticles] does to one particle after drawing it. *)
Definition move (cw ch : R) (p : Particle) : Particle :=
  let x1 := x p + speedX p in
  let y1 := y p + speedY p in
  let x2 := if ltb x1 0 then cw else x1 in
  let x3 := if gtb x2 cw then 0 else x2 in
  let y2 := if ltb y1 0 then ch else y1 in
  let y3 := if gtb y2 ch then 0 else y2 in
  {| x := x3; y := y3; size := size p; speedX := speedX p; speedY := speedY p |}.

Definition disc (p : Particle) : DrawOp :=
  FillArc {| cr := 0; cg := 245; cb := 255; ca := 0.6 |} (x p) (y p) (size p).

Definition animateParticles (w : World) : World :=
  let moved := map (move (canvas_width w) (canvas_height w)) (particlesArray w) in
  {| canvas_width := canvas_width w; canvas_height := canvas_height w;
     particlesArray := moved;
     painted := painted w
                ++ [ClearRect 0 0 (canvas_width w) (canvas_height w)]
                ++ map disc (particlesArray w)
                ++ connectParticles moved;
     frames := S (frames w);
     prng := prng w |}.

(** A repaint runs the callbacks that wait. *)
Definition frame (w : World) : World :=
  Nat.iter (frames w) animateParticles
    {| canvas_width := canvas_width w; canvas_height := canvas_height w;
       particlesArray := particlesArray w; painted := painted w;
       frames := 0; prng := prng w |}.

Definition random_ok (w : World) : Prop := forall n, 0 <= prng w n < 1.

(** A particle as [initParticles] makes them on a [cw] by [ch] canvas. *)
Definition fresh_on (cw ch : R) (p : Particle) : Prop :=
  (0 <= x p <= cw) /\ (0 <= y p <= ch) /\ (1 <= size p <= 3)
  /\ Rabs (speedX p) <= 0.25 /\ Rabs (speedY p) <= 0.25.

(** A world before the first call, every draw being 0.5. *)
Definition steady : World :=
  {| canvas_width := 0; canvas_height := 0; particlesArray := [];
     painted := []; frames := 0; prng := fun _ => 0.5 |}.

End Legacy.

(** ** The counters of the statistics *)

Module StatCounter.

(** What unary [+] makes of the attribute [data-target]. *)
Inductive Num := Finite (v : R) | NaN.

(** One counter: the closure variables [target] and [count], the text of
    the element (the number last written, if any), and whether the interval
    still runs. *)
Record Counter := {
  target : Num;
  count : nat;
  textContent : option nat;
  ticking : bool
}.

Definition start (t : Num) : Counter :=
  {| target := t; count := 0; textContent := None; ticking := true |}.

(** [count >= target]. *)
Definition reached (n : nat) (t : Num) : bool :=
  match t with
  | Finite v => if Rle_dec v (INR n) then true else false
  | NaN => false
  end.

(** The callback of [setInterval]; a cleared interval calls it no more. *)
Definition tick (c : Counter) : Counter :=
  if ticking c then
    let n := S (count c) in
    {| target := target c; count := n; textContent := Some n;
       ticking := negb (reached n (target c)) |}
  else c.

End StatCounter.

(** ** The project grid: filter buttons and search *)

Module Projects.

Record Button := { data_filter : option string; active : bool }.

Record Card := { category : option string; title : string; display : string }.

Record Grid := { filterBtns : list Button; projectCards : list Card }.

(** [a === b] for two attribute values; an absent one is [null] for
    [getAttribute] and [undefined] for [dataset], which are never equal. *)
Definition strict_eq (a c : option string) : bool :=
  match a, c with
  | Some s, Some t => String.eqb s t
  | _, _ => false
  end.

(** [filter === 'all' || card.dataset.category === filter]. *)
Definition matches (filter : option string) (c : Card) : bool :=
  strict_eq filter (Some "all"%string) || strict_eq (category c) filter.

Definition set_display (d : string) (c : Card) : Card :=
  {| category := category c; title := title c; display := d |}.

Definition set_active (v : bool) (b : Button) : Button :=
  {| data_filter := data_filter b; active := v |}.

(** [btn.classList.add('active')] for the button at index [i]. *)
Fixpoint activate (i : nat) (btns : list Button) : list Button :=
  match btns, i with
  | [], _ => []
  | b :: rest, O => set_active true b :: rest
  | b :: rest, S j => b :: activate j rest
  end.

(** The click listener of the button at index [i]. *)
Definition onFilterClick (i : nat) (g : Grid) : Grid :=
  match nth_error (filterBtns g) i with
  | None => g
  | Some btn =>
      let filter := data_filter btn in
      {| filterBtns := activate i (map (set_active false) (filterBtns g));
         projectCards :=
           map (fun c => set_display (if matches filter c then "block" else "none") c)
               (projectCards g) |}
  end.

(** [s.includes(sub)]. *)
Fixpoint includes (s sub : string) : bool :=
  prefix sub s
  || match s with
     | EmptyString => false
     | String _ s' => includes s' sub
     end.

(** The input listener of the search box, for a given [toLowerCase]. *)
Definition onSearchInput (toLowerCase : string -> string) (value : string)
    (g : Grid) : Grid :=
  let val := toLowerCase value in
  {| filterBtns := filterBtns g;
     projectCards :=
       map (fun c =>
              let title := toLowerCase (title c) in
              set_display (if includes title val then "block" else "none") c)
           (projectCards g) |}.

(** Two buttons and two cards, one of them without a category. *)
Definition sample_grid : Grid :=
  {| filterBtns := [ {| data_filter := Some "all"%string; active := true |};
                     {| data_filter := Some "web"%string; active := false |} ];
     projectCards := [ {| category := Some "web"%string; title := "Shop"%string;
                          display := "block"%string |};
                       {| category := None; title := "Game"%string;
                          display := "block"%string |} ] |}.

End Projects.

(** ** Highlighting the navigation on scroll *)

Module Nav.

Record SectionEl := { offsetTop : R; id : option string }.

Record Link := { href : option string; active : bool }.

(** [pageYOffset >= sectionTop - 70]. *)
Definition reached (pageYOffset : R) (sec : SectionEl) : bool :=
  if Rle_dec (offsetTop sec - 70) pageYOffset then true else false.

(** The variable [current] after the loop over the sections. *)
Definition current (pageYOffset : R) (sections : list SectionEl) : option string :=
  fold_left (fun cur sec => if reached pageYOffset sec then id sec else cur)
    sections (Some ""%string).

(** ["#" + current], a [null] id printing as [null]. *)
Definition hash (cur : option string) : string :=
  ("#" ++ match cur with Some s => s | None => "null" end)%string.

(** The handler [window.onscroll]: the links after it ran. *)
Definition onscroll (pageYOffset : R) (sections : list SectionEl)
    (links : list Link) : list Link :=
  let cur := current pageYOffset sections in
  map (fun l =>
         {| href := href l;
            active := Projects.strict_eq (href l) (Some (hash cur)) |})
      links.

End Nav.

(** * Properties *)

(** ** The primitives *)

Lemma ltb_true a b : ltb a b = true <-> a < b.
Proof. unfold ltb; destruct (Rlt_dec a b); split; intros; auto; discriminate. Qed.

Lemma ltb_false a b : ltb a b = false <-> b <= a.
Proof.
  unfold ltb; destruct (Rlt_dec a b); split; intros; auto; try discriminate; lra.
Qed.

Lemma Math_round_eq (z : Z) (x : R) :
  IZR z - 1 / 2 <= x < IZR z + 1 / 2 -> Math_round x = z.
Proof. intros H; unfold Math_round; apply Zfloor_eq; lra. Qed.

Lemma or_else_nonzero a : or_else a 1 <> 0.
Proof. unfold or_else; destruct (Req_dec_T a 0); lra. Qed.

(** ** Resizing: the target count and the reconciliation *)

Lemma max_min_clamp (v lo hi : R) :
  lo <= hi -> Math_max lo (Math_min hi v) = clamp v lo hi.
Proof.
  intros Hle; unfold Math_max, Math_min, clamp, Rmax, Rmin.
  destruct (Rlt_dec v lo), (Rlt_dec hi v), (Rle_dec hi v);
    try destruct (Rle_dec lo hi); try destruct (Rle_dec lo v); lra.
Qed.

Lemma targetCount_clamp (cfg : Config) (area : R) :
  targetCount cfg area =
  Math_round (baseCount cfg * clamp (area / (1366 * 768)) 0.5 2.2).
Proof.
  unfold targetCount, refArea; rewrite max_min_clamp by lra; reflexivity.
Qed.

Lemma push_loop_appends (cfg : Config) (n : nat) (w : World) :
  exists news,
    particles (exec (push_loop cfg n) w) = particles w ++ news
    /\ length news = n.
Proof.
  revert w; induction n as [|n IH]; intros w.
  - exists []; split; [cbn; now rewrite app_nil_r | reflexivity].
  - cbn [push_loop].
    unfold exec, bind in *.
    destruct (push_particle cfg w) as [u w1] eqn:E1.
    destruct (IH w1) as [news [Hn Hl]].
    assert (Hp : exists p, particles w1 = particles w ++ [p]).
    { unfold push_particle, bind, modify in E1.
      destruct (createParticle cfg w) as [p w0] eqn:E0.
      injection E1 as _ <-. exists p; cbn.
      unfold createParticle, rand, bind, gets, ret, Math_random in E0; cbn in E0.
      injection E0 as _ <-; reflexivity. }
    destruct Hp as [p Hp].
    exists (p :: news); split; [|cbn; now rewrite Hl].
    rewrite Hn, Hp, <- app_assoc; reflexivity.
Qed.

Lemma reconcile_cases (cfg : Config) (T : Z) (w : World) :
  (0 <= T)%Z ->
  let C := Z.of_nat (length (particles w)) in
  let ps' := particles (exec (reconcile cfg T) w) in
  (C = 0%Z -> Z.of_nat (length ps') = T)
  /\ ((0 < C < T)%Z ->
      Z.of_nat (length ps') = T /\ firstn (length (particles w)) ps' = particles w)
  /\ (IZR C > 1.4 * IZR T ->
      Z.of_nat (length ps') = T /\ ps' = firstn (Z.to_nat T) (particles w))
  /\ ((T <= C)%Z /\ IZR C <= 1.4 * IZR T -> ps' = particles w).
Proof.
  intros HT C ps'; subst C ps'.
  unfold reconcile, bind, gets, exec; cbn [fst snd].
  set (len := length (particles w)).
  assert (Hpush : forall n, (Z.of_nat len + Z.of_nat n = T)%Z ->
            Z.of_nat (length (particles (snd (push_loop cfg n w)))) = T
            /\ firstn len (particles (snd (push_loop cfg n w))) = particles w).
  { intros n Hn. destruct (push_loop_appends cfg n w) as [news [Hp Hl]].
    unfold exec in Hp; rewrite Hp; split.
    - rewrite length_app, Hl; fold len; lia.
    - subst len; rewrite firstn_app, Nat.sub_diag, firstn_all; cbn.
      now rewrite app_nil_r. }
  destruct (Nat.eqb len 0) eqn:E0.
  - apply Nat.eqb_eq in E0.
    split; [|split; [|split]].
    + intros _; apply Hpush; lia.
    + lia.
    + intros H; rewrite E0 in H; cbn in H. apply IZR_le in HT. lra.
    + intros [H1 _]. assert (T = 0%Z) by lia; subst T.
      reflexivity.
  - apply Nat.eqb_neq in E0.
    destruct (Z.of_nat len <? T)%Z eqn:E1.
    + apply Z.ltb_lt in E1.
      split; [|split; [|split]].
      * lia.
      * intros _; apply Hpush; lia.
      * intros H; apply IZR_lt in E1.
        assert (0 <= IZR (Z.of_nat len)) by (apply IZR_le; lia). lra.
      * intros [H _]; lia.
    + apply Z.ltb_ge in E1.
      unfold gtb. destruct (ltb (IZR T * 1.4) (IZR (Z.of_nat len))) eqn:E2.
      * apply ltb_true in E2.
        assert (Hs : slice0 (particles w) T = firstn (Z.to_nat T) (particles w)).
        { unfold slice0. destruct (T <? 0)%Z eqn:E3;
            [apply Z.ltb_lt in E3; lia|reflexivity]. }
        unfold modify; cbn [snd particles set_particles].
        split; [|split; [|split]].
        -- lia.
        -- lia.
        -- intros _; split; [|exact Hs].
           rewrite Hs, length_firstn. fold len. lia.
        -- intros [_ H]; lra.
      * apply ltb_false in E2. unfold ret; cbn [snd].
        split; [|split; [|split]].
        -- lia.
        -- lia.
        -- intros H; lra.
        -- reflexivity.
Qed.

Lemma crowd_count (n : nat) : Z.of_nat (length (particles (crowd n))) = Z.of_nat n.
Proof. cbn; now rewrite repeat_length. Qed.

Lemma targetCount_value (area : R) (z : Z) :
  IZR z - 1 / 2 <= 60 * clamp (area / (1366 * 768)) 0.5 2.2 < IZR z + 1 / 2 ->
  targetCount CONFIG area = z.
Proof. intros H; rewrite targetCount_clamp; apply Math_round_eq; exact H. Qed.

(** ** Invariants of the running animator *)

Ltac run_m :=
  unfold exec, bind, ret, gets, modify in *; cbn [fst snd] in *.

Lemma same_core_refl w : same_core w w.
Proof. repeat split. Qed.

Lemma same_core_trans w1 w2 w3 :
  same_core w1 w2 -> same_core w2 w3 -> same_core w1 w3.
Proof.
  intros (A1 & A2 & A3 & A4) (B1 & B2 & B3 & B4).
  repeat split; congruence.
Qed.

Lemma onMouseMove_core e rect w : same_core w (exec (onMouseMove e rect) w).
Proof.
  unfold onMouseMove, requestAnimationFrame; run_m.
  cbn [rafMouse set_mouse].
  destruct (falsy_handle (rafMouse w)); repeat split.
Qed.

Lemma onMouseLeave_core w : same_core w (exec onMouseLeave w).
Proof. repeat split. Qed.

Lemma onTouchMove_core ts rect w : same_core w (exec (onTouchMove ts rect) w).
Proof.
  destruct ts as [|t ts]; [apply same_core_refl | apply onMouseMove_core].
Qed.

Lemma render_core cfg w : same_core w (exec (render cfg) w).
Proof. repeat split. Qed.

(** [loop] is [update] followed by statements that leave the core alone, or
    nothing at all. *)
Lemma loop_core cfg w :
  same_core w (exec (loop cfg) w)
  \/ same_core (exec (update cfg) w) (exec (loop cfg) w).
Proof.
  unfold loop, requestAnimationFrame, render, update; run_m.
  destruct (isRunning w); cbn; [right | left]; repeat split.
Qed.

Section Preservation.

Variable cfg : Config.
Variable P : World -> Prop.
Variable ok : Event -> Prop.

Hypothesis P_core : core_pred P.
Hypothesis P_update : forall w, P w -> P (exec (update cfg) w).
Hypothesis P_resize :
  forall l w, ok (ResizeTimer l) -> P w -> P (exec (resize cfg l) w).

Lemma loop_preserves w : P w -> P (exec (loop cfg) w).
Proof.
  intros H; destruct (loop_core cfg w) as [Hc|Hc].
  - exact (P_core _ _ Hc H).
  - exact (P_core _ _ Hc (P_update _ H)).
Qed.

Lemma run_callbacks_preserves cbs w :
  P w -> P (exec (run_callbacks cfg cbs) w).
Proof.
  revert w; induction cbs as [|cb cbs IH]; intros w H; [exact H|].
  cbn [run_callbacks]; unfold exec, bind.
  destruct (run_callback cfg cb w) as [u w1] eqn:E.
  apply IH.
  replace w1 with (exec (run_callback cfg cb) w) by (unfold exec; now rewrite E).
  destruct cb; cbn [run_callback].
  - apply loop_preserves; exact H.
  - refine (P_core w _ _ H); repeat split.
Qed.

Lemma step_preserves ev w : ok ev -> P w -> P (step cfg ev w).
Proof.
  intros Hok H; destruct ev as [v| |l|e rect| |ts rect|]; unfold step; cbn [handle].
  - unfold onVisibilityChange; run_m.
    destruct v; cbn [is_visible isRunning set_isRunning].
    + apply (loop_preserves (set_isRunning true w)).
      refine (P_core w _ _ H); repeat split.
    + refine (P_core w _ _ H); repeat split.
  - unfold frame; run_m.
    apply (run_callbacks_preserves (rafQueue w)).
    refine (P_core w _ _ H); repeat split.
  - apply P_resize; assumption.
  - exact (P_core _ _ (onMouseMove_core e rect w) H).
  - exact (P_core _ _ (onMouseLeave_core w) H).
  - exact (P_core _ _ (onTouchMove_core ts rect w) H).
  - exact (P_core _ _ (onMouseLeave_core w) H).
Qed.

Lemma run_preserves evs w : Forall ok evs -> P w -> P (run cfg evs w).
Proof.
  revert w; induction evs as [|ev evs IH]; intros w Hok H; [exact H|].
  inversion Hok; subst. cbn [run fold_left].
  apply IH; [assumption|]. apply step_preserves; assumption.
Qed.

End Preservation.

Lemma or_else_nonneg a c : 0 <= a -> 0 <= c -> 0 <= or_else a c.
Proof. intros; unfold or_else; destruct (Req_dec_T a 0); assumption. Qed.

(** *** One particle *)

Ltac psimpl :=
  cbn [x y size vx vy alpha set_x set_y set_vx set_vy] in *.

(** Decide the innermost comparison the goal branches on. *)
Ltac case_ltb :=
  psimpl;
  match goal with
  | |- context [if ltb ?a ?c then _ else _] =>
      lazymatch a with
      | context [ltb] => fail
      | _ =>
          lazymatch c with
          | context [ltb] => fail
          | _ =>
              let E := fresh "E" in
              destruct (ltb a c) eqn:E;
              [apply ltb_true in E | apply ltb_false in E]
          end
      end
  end.

Lemma advance_inside wd ht p : 0 <= wd -> 0 <= ht -> inside wd ht (advance wd ht p).
Proof.
  intros Hw Hh; unfold advance, inside, gtb.
  repeat case_ltb; psimpl; lra.
Qed.

Lemma advance_velocity wd ht p :
  vx (advance wd ht p) = vx p /\ vy (advance wd ht p) = vy p.
Proof.
  unfold advance, gtb; repeat case_ltb; psimpl; split; reflexivity.
Qed.

Lemma interact_position cfg m p :
  x (interact cfg m p) = x p /\ y (interact cfg m p) = y p.
Proof.
  unfold interact, clamp_velocity.
  destruct (active m && not_null (m_x m)); [|split; reflexivity].
  match goal with |- context [if ltb ?a ?c then _ else _] => destruct (ltb a c) end;
    [|split; reflexivity].
  destruct (repel cfg); split; reflexivity.
Qed.

Lemma damp_position p : x (damp p) = x p /\ y (damp p) = y p.
Proof. split; reflexivity. Qed.

Lemma update_particle_inside cfg wd ht m p :
  0 <= wd -> 0 <= ht -> inside wd ht (update_particle cfg wd ht m p).
Proof.
  intros Hw Hh; unfold update_particle, inside.
  destruct (damp_position (interact cfg m (advance wd ht p))) as [-> ->].
  destruct (interact_position cfg m (advance wd ht p)) as [-> ->].
  apply advance_inside; assumption.
Qed.

Lemma clamp_component_abs vmax v :
  0 <= vmax -> Rabs (Math_max (- vmax) (Math_min vmax v)) <= vmax.
Proof.
  intros H; apply Rabs_le; unfold Math_max, Math_min, Rmax, Rmin.
  destruct (Rle_dec vmax v); destruct (Rle_dec (- vmax) _); lra.
Qed.

Lemma clamp_velocity_slow cfg p : 0 <= speedRange cfg -> slow cfg (clamp_velocity cfg p).
Proof.
  intros H; unfold slow, clamp_velocity; cbn [vx vy set_vx set_vy].
  replace (2.2 * speedRange cfg) with (speedRange cfg * 2.2) by lra.
  split; apply clamp_component_abs; lra.
Qed.

(** Inside the bound the clamp changes nothing. *)
Lemma clamp_velocity_id cfg p : slow cfg p -> clamp_velocity cfg p = p.
Proof.
  intros [Hx Hy]; unfold clamp_velocity, set_vx, set_vy; cbn [x y size vx vy alpha].
  assert (Hc : forall v, Rabs v <= 2.2 * speedRange cfg ->
             Math_max (- (speedRange cfg * 2.2)) (Math_min (speedRange cfg * 2.2) v) = v).
  { intros v Hv. unfold Math_max, Math_min, Rmax, Rmin.
    assert (- (2.2 * speedRange cfg) <= v <= 2.2 * speedRange cfg).
    { revert Hv; unfold Rabs; destruct (Rcase_abs v); lra. }
    destruct (Rle_dec (speedRange cfg * 2.2) v); destruct (Rle_dec _ _); lra. }
  rewrite (Hc _ Hx), (Hc _ Hy); destruct p; reflexivity.
Qed.

Lemma interact_slow cfg m p :
  0 <= speedRange cfg -> slow cfg p -> slow cfg (interact cfg m p).
Proof.
  intros H Hp; unfold interact.
  destruct (active m && not_null (m_x m)); [|exact Hp].
  match goal with |- context [if ltb ?a ?c then _ else _] => destruct (ltb a c) end;
    [|exact Hp].
  apply clamp_velocity_slow; exact H.
Qed.

Lemma damp_component_abs v : Rabs (v * 0.995) <= Rabs v.
Proof.
  rewrite Rabs_mult, (Rabs_right 0.995) by lra.
  pose proof (Rabs_pos v); lra.
Qed.

Lemma damp_slow cfg p : slow cfg p -> slow cfg (damp p).
Proof.
  intros [Hx Hy]; unfold slow, damp; cbn [vx vy set_vx set_vy].
  pose proof (damp_component_abs (vx p)); pose proof (damp_component_abs (vy p)).
  split; lra.
Qed.

Lemma update_particle_slow cfg wd ht m p :
  0 <= speedRange cfg -> slow cfg p -> slow cfg (update_particle cfg wd ht m p).
Proof.
  intros H Hp; unfold update_particle.
  apply damp_slow, interact_slow; [exact H|].
  unfold slow; destruct (advance_velocity wd ht p) as [-> ->]; exact Hp.
Qed.

(** *** New particles *)

Lemma createParticle_world cfg w :
  let w' := snd (createParticle cfg w) in
  particles w' = particles w /\ width w' = width w /\ height w' = height w
  /\ (random_ok w -> random_ok w').
Proof.
  unfold createParticle, rand, Math_random; run_m.
  split; [reflexivity | split; [reflexivity | split; [reflexivity |]]].
  intros H n; apply H.
Qed.

Lemma createParticle_inside cfg w :
  random_ok w -> 0 <= width w -> 0 <= height w ->
  inside (width w) (height w) (fst (createParticle cfg w)).
Proof.
  intros Hr Hw Hh.
  unfold createParticle, rand, Math_random, inside; run_m; cbn.
  pose proof (Hr 0%nat); pose proof (Hr 1%nat).
  split; nra.
Qed.

(** Fresh velocity components lie in [[-speedRange/2, speedRange/2]]. *)
Lemma createParticle_velocity cfg w :
  random_ok w -> 0 <= speedRange cfg ->
  let p := fst (createParticle cfg w) in
  Rabs (vx p) <= speedRange cfg / 2 /\ Rabs (vy p) <= speedRange cfg / 2.
Proof.
  intros Hr Hs.
  unfold createParticle, rand, Math_random; run_m; cbn.
  pose proof (Hr 3%nat); pose proof (Hr 4%nat).
  split; apply Rabs_le; nra.
Qed.

Lemma createParticle_slow cfg w :
  random_ok w -> 0 <= speedRange cfg -> slow cfg (fst (createParticle cfg w)).
Proof.
  intros Hr Hs; destruct (createParticle_velocity cfg w Hr Hs) as [Hx Hy].
  split; lra.
Qed.

Lemma Forall_prefix {A} (Q : A -> Prop) (n : nat) (l : list A) :
  Forall Q l -> Forall Q (firstn n l).
Proof.
  intros H; rewrite <- (firstn_skipn n l) in H.
  apply Forall_app in H; destruct H as [H _]; exact H.
Qed.

Section Resize.

Variable cfg : Config.
Variable Q : Particle -> Prop.
Variables wd ht : R.

(** Every particle created on a [wd] by [ht] surface satisfies [Q]. *)
Hypothesis Q_new :
  forall w, random_ok w -> width w = wd -> height w = ht ->
            Q (fst (createParticle cfg w)).

Lemma push_particle_settled w : settled Q wd ht w -> settled Q wd ht (exec (push_particle cfg) w).
Proof.
  intros (Hr & Hw & Hh & Hq).
  pose proof (Q_new w Hr Hw Hh) as Hnew.
  destruct (createParticle_world cfg w) as (Hp & Hw' & Hh' & Hr').
  unfold push_particle, exec, bind, modify.
  destruct (createParticle cfg w) as [p w1]; cbn [fst snd] in *.
  split; [intros n; apply (Hr' Hr) | split; [|split]]; cbn; try congruence.
  rewrite Hp; apply Forall_app; split;
    [exact Hq | constructor; [exact Hnew | constructor]].
Qed.

Lemma push_loop_settled n w : settled Q wd ht w -> settled Q wd ht (exec (push_loop cfg n) w).
Proof.
  revert w; induction n as [|n IH]; intros w H; [exact H|].
  cbn [push_loop]; unfold exec, bind.
  pose proof (push_particle_settled w H) as H1; unfold exec in H1.
  destruct (push_particle cfg w) as [u w1]; cbn [snd] in H1.
  apply IH; exact H1.
Qed.

Lemma reconcile_settled count w : settled Q wd ht w -> settled Q wd ht (exec (reconcile cfg count) w).
Proof.
  intros H; unfold reconcile, exec, bind, gets, modify, ret; cbn [fst snd].
  destruct (Nat.eqb (length (particles w)) 0); [apply push_loop_settled; exact H|].
  destruct (Z.of_nat (length (particles w)) <? count)%Z;
    [apply push_loop_settled; exact H|].
  destruct (gtb _ _); [|exact H].
  destruct H as (Hr & Hw & Hh & Hq); cbn.
  split; [exact Hr | split; [exact Hw | split; [exact Hh |]]].
  unfold slice0; destruct (count <? 0)%Z; apply Forall_prefix; exact Hq.
Qed.

Lemma resize_settled l w :
  wd = or_else (clientWidth l) (innerWidth l) ->
  ht = or_else (clientHeight l) (innerHeight l) ->
  random_ok w -> Forall Q (particles w) ->
  settled Q wd ht (exec (resize cfg l) w).
Proof.
  intros Hw Hh Hr Hq; unfold resize, exec, bind, gets, modify; cbn [fst snd].
  apply reconcile_settled.
  split; [exact Hr | split; [|split]]; cbn; auto.
Qed.

End Resize.

(** *** The world *)

Lemma Inv_d_core : core_pred Inv_d.
Proof.
  intros w w' (Hp & Hw & Hh & Hr) (H1 & H2 & H3).
  unfold Inv_d, random_ok; rewrite Hw, Hh, Hr; auto.
Qed.

Lemma Inv_p_core : core_pred Inv_p.
Proof.
  intros w w' Hc [Hd Hf]; split; [exact (Inv_d_core _ _ Hc Hd)|].
  destruct Hc as (Hp & Hw & Hh & Hr); rewrite Hp, Hw, Hh; exact Hf.
Qed.

Lemma Inv_v_core cfg : core_pred (Inv_v cfg).
Proof.
  intros w w' (Hp & Hw & Hh & Hr) [H1 H2].
  unfold Inv_v, random_ok; rewrite Hp, Hr; auto.
Qed.

Lemma update_inside cfg w :
  0 <= width w -> 0 <= height w ->
  Forall (inside (width w) (height w)) (particles (exec (update cfg) w)).
Proof.
  intros Hw Hh; cbn; apply Forall_map, Forall_forall; intros p _.
  apply update_particle_inside; assumption.
Qed.

Lemma Inv_d_update cfg w : Inv_d w -> Inv_d (exec (update cfg) w).
Proof. intros H; exact H. Qed.

Lemma Inv_p_update cfg w : Inv_p w -> Inv_p (exec (update cfg) w).
Proof.
  intros [Hd Hf]; split; [exact Hd|].
  destruct Hd as (_ & Hw & Hh); exact (update_inside cfg w Hw Hh).
Qed.

Lemma Inv_v_update cfg w :
  0 <= speedRange cfg -> Inv_v cfg w -> Inv_v cfg (exec (update cfg) w).
Proof.
  intros Hs [Hr Hf]; split; [exact Hr|].
  cbn; apply Forall_map; revert Hf; apply Forall_impl; intros p Hp.
  apply update_particle_slow; assumption.
Qed.

Lemma Inv_d_resize cfg l w :
  layout_ok l -> Inv_d w -> Inv_d (exec (resize cfg l) w).
Proof.
  intros (H1 & H2 & H3 & H4) (Hr & _).
  destruct (resize_settled cfg (fun _ => True) _ _ (fun _ _ _ _ => I) l w
              eq_refl eq_refl Hr) as (Hr' & Hw & Hh & _).
  { apply Forall_forall; intros; exact I. }
  split; [exact Hr' | rewrite Hw, Hh; split; apply or_else_nonneg; assumption].
Qed.

Lemma Inv_v_resize cfg l w :
  0 <= speedRange cfg -> Inv_v cfg w -> Inv_v cfg (exec (resize cfg l) w).
Proof.
  intros Hs [Hr Hf].
  destruct (resize_settled cfg (slow cfg) _ _
              (fun w' Hr' _ _ => createParticle_slow cfg w' Hr' Hs) l w
              eq_refl eq_refl Hr Hf) as (Hr' & _ & _ & Hf').
  split; assumption.
Qed.

(** After [init] every particle is a fresh one of the measured surface. *)
Lemma Inv_p_boot cfg pg : page_ok pg -> Inv_p (boot cfg pg).
Proof.
  intros [(H1 & H2 & H3 & H4) Hr]; unfold boot, init, exec, bind.
  set (wd := or_else (clientWidth (layout pg)) (innerWidth (layout pg))).
  set (ht := or_else (clientHeight (layout pg)) (innerHeight (layout pg))).
  assert (Hwd : 0 <= wd) by (apply or_else_nonneg; assumption).
  assert (Hht : 0 <= ht) by (apply or_else_nonneg; assumption).
  assert (Hs : settled (inside wd ht) wd ht (exec (resize cfg (layout pg)) (fresh pg))).
  { apply resize_settled; try reflexivity; [|exact Hr|constructor].
    intros w Hw Ew Eh; rewrite <- Ew, <- Eh.
    apply createParticle_inside; [exact Hw | rewrite Ew | rewrite Eh]; assumption. }
  unfold exec in Hs.
  destruct (resize cfg (layout pg) (fresh pg)) as [u w1]; cbn [snd] in Hs.
  apply (loop_preserves cfg Inv_p Inv_p_core (Inv_p_update cfg)).
  destruct Hs as (Hr1 & Hw1 & Hh1 & Hf1).
  split; [split; [exact Hr1 | rewrite Hw1, Hh1; split; assumption]|].
  rewrite Hw1, Hh1; exact Hf1.
Qed.

Lemma Inv_v_boot cfg pg :
  0 <= speedRange cfg -> (forall n, 0 <= randoms pg n < 1) -> Inv_v cfg (boot cfg pg).
Proof.
  intros Hs Hr; unfold boot, init, exec, bind.
  assert (H : Inv_v cfg (exec (resize cfg (layout pg)) (fresh pg))).
  { apply Inv_v_resize; [exact Hs|]. split; [exact Hr | constructor]. }
  unfold exec in H.
  destruct (resize cfg (layout pg) (fresh pg)) as [u w1]; cbn [snd] in H.
  apply (loop_preserves cfg (Inv_v cfg) (Inv_v_core cfg) (fun w => Inv_v_update cfg w Hs)).
  exact H.
Qed.


Lemma Inv_v_reachable cfg pg evs :
  0 <= speedRange cfg ->
  (forall n, 0 <= randoms pg n < 1) ->
  Inv_v cfg (run cfg evs (boot cfg pg)).
Proof.
  intros Hs Hr.
  apply (run_preserves cfg (Inv_v cfg) (fun _ => True) (Inv_v_core cfg)
           (fun w => Inv_v_update cfg w Hs)).
  - intros l w _; apply Inv_v_resize; exact Hs.
  - apply Forall_forall; intros; exact I.
  - apply Inv_v_boot; assumption.
Qed.

(** Outside the pointer branch the interaction does nothing. *)
Lemma interact_skip cfg m p :
  active m && not_null (m_x m) = false
  \/ mouseRadius cfg <= pointer_distance m p ->
  interact cfg m p = p.
Proof.
  intros [H | H]; unfold interact.
  - rewrite H; reflexivity.
  - destruct (active m && not_null (m_x m)); [|reflexivity].
    fold (pointer_distance m p).
    change (Math_sqrt
              ((x p - to_number (m_x m)) * (x p - to_number (m_x m))
               + (y p - to_number (m_y m)) * (y p - to_number (m_y m))))
      with (pointer_distance m p).
    destruct (ltb (pointer_distance m p) (mouseRadius cfg)) eqn:E;
      [apply ltb_true in E; lra | reflexivity].
Qed.

(** C2.  In every state the animator reaches, whatever the events, each
    velocity component of each particle is at most [2.2 * speedRange] in
    absolute value.  A new particle starts within [speedRange / 2], and an
    update that does not take the pointer branch only multiplies the
    velocity by 0.995. *)
Theorem velocity_bound (cfg : Config) (pg : Page) (evs : list Event) :
  0 <= speedRange cfg ->
  (forall n, 0 <= randoms pg n < 1) ->
  Forall (fun p => Rabs (vx p) <= 2.2 * speedRange cfg
                   /\ Rabs (vy p) <= 2.2 * speedRange cfg)
         (particles (run cfg evs (boot cfg pg)))
  /\ (forall w,
         random_ok w ->
         Rabs (vx (fst (createParticle cfg w))) <= speedRange cfg / 2
         /\ Rabs (vy (fst (createParticle cfg w))) <= speedRange cfg / 2)
  /\ (forall wd ht m p,
         active m && not_null (m_x m) = false
         \/ mouseRadius cfg <= pointer_distance m (advance wd ht p) ->
         vx (update_particle cfg wd ht m p) = vx p * 0.995
         /\ vy (update_particle cfg wd ht m p) = vy p * 0.995).
Proof.
  intros Hs Hr; split; [|split].
  - exact (proj2 (Inv_v_reachable cfg pg evs Hs Hr)).
  - intros w Hw; exact (createParticle_velocity cfg w Hw Hs).
  - intros wd ht m p H; unfold update_particle.
    rewrite (interact_skip cfg m _ H); unfold damp; cbn [vx vy set_vx set_vy].
    destruct (advance_velocity wd ht p) as [-> ->]; split; reflexivity.
Qed.

Lemma velocity_bound_witness :
  Forall (fun p => Rabs (vx p) <= 2.2 * speedRange CONFIG
                   /\ Rabs (vy p) <= 2.2 * speedRange CONFIG)
         (particles (run CONFIG [pointer_at 3 4; Frame; Frame] (boot CONFIG page0))).
Proof.
  apply (velocity_bound CONFIG page0 [pointer_at 3 4; Frame; Frame]).
  - cbn; lra.
  - intros n; cbn; lra.
Defined.

(** ** Connecting lines *)

Lemma connect_distance cfg a c :
  connect cfg a c =
  if ltb (distance a c) (connectDistance cfg)
  then drawLine cfg a c (distance a c) else [].
Proof. reflexivity. Qed.

Lemma distance_nonneg a c : 0 <= distance a c.
Proof. apply sqrt_pos. Qed.

Lemma connect_near cfg a c :
  0 <= lineAlpha cfg ->
  distance a c < connectDistance cfg ->
  connect cfg a c = [line cfg a c (faded cfg a c)].
Proof.
  intros Hl Hd; rewrite connect_distance.
  pose proof (distance_nonneg a c) as H0.
  destruct (ltb (distance a c) (connectDistance cfg)) eqn:E;
    [|apply ltb_false in E; lra].
  unfold drawLine, line, faded, Math_max; rewrite Rmax_right; [reflexivity|].
  apply Rmult_le_pos; [exact Hl|].
  assert (distance a c / connectDistance cfg < 1); [|lra].
  apply (Rmult_lt_reg_r (connectDistance cfg)); [lra|].
  unfold Rdiv; rewrite Rmult_assoc, Rinv_l; lra.
Qed.

Lemma connect_far cfg a c :
  connectDistance cfg <= distance a c -> connect cfg a c = [].
Proof.
  intros Hd; rewrite connect_distance.
  destruct (ltb (distance a c) (connectDistance cfg)) eqn:E;
    [apply ltb_true in E; lra | reflexivity].
Qed.

(** A line in the output of the inner loop belongs to one of the pairs. *)
Lemma connect_with_In cfg a rest op :
  In op (connect_with cfg a rest) <->
  exists k c, nth_error rest k = Some c /\ In op (connect cfg a c).
Proof.
  induction rest as [|c rest IH]; cbn [connect_with].
  - split; [intros [] | intros (k & c & Hk & _); destruct k; discriminate].
  - rewrite in_app_iff, IH; split.
    + intros [H | (k & c' & Hk & H)].
      * exists 0%nat, c; split; [reflexivity | exact H].
      * exists (S k), c'; split; assumption.
    + intros (k & c' & Hk & H); destruct k as [|k]; cbn in Hk.
      * injection Hk as ->; left; exact H.
      * right; exists k, c'; split; assumption.
Qed.

(** The two loops visit exactly the pairs [i < j]. *)
Lemma connections_In cfg ps op :
  In op (connections cfg ps) <->
  exists i j a c, (i < j)%nat /\ nth_error ps i = Some a
                  /\ nth_error ps j = Some c /\ In op (connect cfg a c).
Proof.
  induction ps as [|p ps IH]; cbn [connections].
  - split; [intros [] | intros (i & j & a & c & _ & Hi & _); destruct i; discriminate].
  - rewrite in_app_iff, IH, connect_with_In; split.
    + intros [(k & c & Hk & H) | (i & j & a & c & Hij & Hi & Hj & H)].
      * exists 0%nat, (S k), p, c; repeat split; try assumption; lia.
      * exists (S i), (S j), a, c; repeat split; try assumption; lia.
    + intros (i & j & a & c & Hij & Hi & Hj & H).
      destruct j as [|j]; [lia|]; cbn in Hj.
      destruct i as [|i]; cbn in Hi.
      * injection Hi as ->; left; exists j, c; split; assumption.
      * right; exists i, j, a, c; repeat split; try assumption; lia.
Qed.

(** The only strokes [render] paints are those of the connection pass. *)
Lemma render_strokes cfg w style lw x1 y1 x2 y2 :
  In (Stroke style lw x1 y1 x2 y2) (render_ops cfg w) <->
  In (Stroke style lw x1 y1 x2 y2) (connections cfg (particles w)).
Proof.
  unfold render_ops, clear, halo; rewrite !in_app_iff; split.
  - intros [H | [H | [H | H]]]; [|exact H| |].
    + destruct H as [H|[]]; discriminate.
    + apply in_flat_map in H; destruct H as (p & _ & [H|[]]); discriminate.
    + destruct (active (mouse w) && not_null (m_x (mouse w)));
        [destruct H as [H|[]]; discriminate | destruct H].
  - intros H; right; left; exact H.
Qed.

Lemma connect_near_line cfg a c :
  0 < connectDistance cfg -> 0 <= lineAlpha cfg ->
  connect cfg a c = if near cfg (a, c) then [pair_line cfg (a, c)] else [].
Proof.
  intros Hc Hl; unfold near, pair_line; cbn [fst snd].
  destruct (ltb (distance a c) (connectDistance cfg)) eqn:E.
  - apply ltb_true in E; apply connect_near; assumption.
  - apply ltb_false in E; apply connect_far; assumption.
Qed.

Lemma connect_with_pairs cfg a rest :
  0 < connectDistance cfg -> 0 <= lineAlpha cfg ->
  connect_with cfg a rest
  = map (pair_line cfg) (filter (near cfg) (map (pair a) rest)).
Proof.
  intros Hc Hl; induction rest as [|c rest IH]; [reflexivity|].
  cbn [connect_with map filter]; rewrite IH, (connect_near_line cfg a c Hc Hl).
  destruct (near cfg (a, c)); reflexivity.
Qed.

Lemma connections_pairs cfg ps :
  0 < connectDistance cfg -> 0 <= lineAlpha cfg ->
  connections cfg ps = map (pair_line cfg) (filter (near cfg) (pairs ps)).
Proof.
  intros Hc Hl; induction ps as [|a rest IH]; [reflexivity|].
  cbn [connections pairs].
  rewrite IH, (connect_with_pairs cfg a rest Hc Hl), filter_app, map_app.
  reflexivity.
Qed.

Lemma filter_strokes_lines cfg l :
  filter is_stroke (map (pair_line cfg) l) = map (pair_line cfg) l.
Proof.
  induction l as [|ac l IH]; [reflexivity|]; cbn; now rewrite IH.
Qed.

Lemma render_ops_strokes cfg w :
  filter is_stroke (render_ops cfg w)
  = filter is_stroke (connections cfg (particles w)).
Proof.
  unfold render_ops, clear; rewrite !filter_app; cbn [filter is_stroke app].
  assert (Hd : filter is_stroke (flat_map (drawParticle cfg) (particles w)) = []).
  { induction (particles w) as [|p ps IH]; [reflexivity | exact IH]. }
  assert (Hh : filter is_stroke (halo cfg (mouse w)) = []).
  { unfold halo; destruct (active (mouse w) && not_null (m_x (mouse w))); reflexivity. }
  rewrite Hd, Hh, !app_nil_r; reflexivity.
Qed.

(** C5.  The strokes of [render], in order, are the lines of the unordered
    pairs of particles closer than [connectDistance], one each, at opacity
    [lineAlpha * (1 - dist / connectDistance)].  So for particles [i < j]
    the line is drawn when their distance is below [connectDistance], and
    every stroke is such a line; a pair at distance exactly [connectDistance]
    gets no line (the opacity would be 0 there), a pair at distance 0 gets
    the full [lineAlpha]. *)
Theorem render_connects_near_pairs (cfg : Config) (w : World) :
  0 < connectDistance cfg ->
  0 <= lineAlpha cfg ->
  filter is_stroke (render_ops cfg w)
  = map (fun ac =>
           line cfg (fst ac) (snd ac)
             (lineAlpha cfg
              * (1 - distance (fst ac) (snd ac) / connectDistance cfg)))
        (filter (fun ac => ltb (distance (fst ac) (snd ac)) (connectDistance cfg))
                (pairs (particles w)))
  /\ (forall i j a c,
      (i < j)%nat ->
      nth_error (particles w) i = Some a ->
      nth_error (particles w) j = Some c ->
      distance a c < connectDistance cfg ->
      In (line cfg a c (lineAlpha cfg * (1 - distance a c / connectDistance cfg)))
         (render_ops cfg w))
  /\ (forall style lw x1 y1 x2 y2,
         In (Stroke style lw x1 y1 x2 y2) (render_ops cfg w) ->
         exists i j a c,
           (i < j)%nat
           /\ nth_error (particles w) i = Some a
           /\ nth_error (particles w) j = Some c
           /\ distance a c < connectDistance cfg
           /\ Stroke style lw x1 y1 x2 y2 =
              line cfg a c (lineAlpha cfg * (1 - distance a c / connectDistance cfg)))
  /\ (forall a c,
         distance a c = connectDistance cfg ->
         connect cfg a c = []
         /\ lineAlpha cfg * (1 - distance a c / connectDistance cfg) = 0)
  /\ (forall a c,
         distance a c = 0 ->
         connect cfg a c = [line cfg a c (lineAlpha cfg)]).
Proof.
  intros Hc Hl; split; [|split; [|split; [|split]]].
  - rewrite render_ops_strokes, (connections_pairs cfg _ Hc Hl).
    apply filter_strokes_lines.
  - intros i j a c Hij Hi Hj Hd.
    apply render_strokes, connections_In.
    exists i, j, a, c; repeat split; try assumption.
    rewrite (connect_near cfg a c Hl Hd); left; reflexivity.
  - intros style lw x1 y1 x2 y2 H.
    apply render_strokes, connections_In in H.
    destruct H as (i & j & a & c & Hij & Hi & Hj & H).
    exists i, j, a, c.
    destruct (Rlt_dec (distance a c) (connectDistance cfg)) as [Hd|Hd].
    + rewrite (connect_near cfg a c Hl Hd) in H.
      destruct H as [H|[]]; repeat split; try assumption.
      symmetry; exact H.
    + rewrite connect_far in H by lra; destruct H.
  - intros a c Hd; split; [apply connect_far; lra|].
    rewrite Hd; unfold Rdiv; rewrite Rinv_r by lra; lra.
  - intros a c Hd.
    rewrite (connect_near cfg a c Hl) by lra.
    unfold faded; rewrite Hd; unfold Rdiv; rewrite Rmult_0_l, Rminus_0_r, Rmult_1_r.
    reflexivity.
Qed.

Lemma distance_dots_x (x1 x2 py : R) :
  x2 <= x1 -> distance (dot x1 py) (dot x2 py) = x1 - x2.
Proof.
  intros H; unfold distance; cbn [x y dot].
  replace ((x1 - x2) * (x1 - x2) + (py - py) * (py - py))
    with ((x1 - x2) * (x1 - x2)) by lra.
  apply sqrt_square; lra.
Qed.

Lemma render_connects_near_pairs_witness :
  In (line CONFIG (dot 30 0) (dot 0 0)
        (lineAlpha CONFIG * (1 - distance (dot 30 0) (dot 0 0) / connectDistance CONFIG)))
     (render_ops CONFIG (set_particles [dot 30 0; dot 0 0] world0)).
Proof.
  assert (Hc : 0 < connectDistance CONFIG) by (cbn; lra).
  assert (Hl : 0 <= lineAlpha CONFIG) by (cbn; lra).
  destruct (render_connects_near_pairs CONFIG
              (set_particles [dot 30 0; dot 0 0] world0) Hc Hl) as (_ & H & _).
  apply (H 0%nat 1%nat); [lia | reflexivity | reflexivity |].
  rewrite distance_dots_x by lra; cbn; lra.
Defined.

(** Two dots 120 apart draw nothing, two dots 119 apart draw a line. *)
Example connect_at_threshold : connect CONFIG (dot 120 7) (dot 0 7) = [].
Proof. apply connect_far; rewrite distance_dots_x by lra; cbn; lra. Qed.

Example connect_below_threshold :
  connect CONFIG (dot 119 7) (dot 0 7)
  = [line CONFIG (dot 119 7) (dot 0 7) (faded CONFIG (dot 119 7) (dot 0 7))].
Proof.
  apply connect_near; [cbn; lra | rewrite distance_dots_x by lra; cbn; lra].
Qed.

(** ** The pointer force *)

Lemma sum_sqr_nonneg (a c : R) : 0 <= a * a + c * c.
Proof. nra. Qed.

Lemma pointer_distance_nonneg m p : 0 <= pointer_distance m p.
Proof. apply sqrt_pos. Qed.

Lemma pointer_distance_sqr m p :
  let dx := x p - to_number (m_x m) in
  let dy := y p - to_number (m_y m) in
  pointer_distance m p * pointer_distance m p = dx * dx + dy * dy.
Proof. cbn zeta; unfold pointer_distance; apply sqrt_sqrt, sum_sqr_nonneg. Qed.

Lemma interact_active cfg m p :
  active m = true -> not_null (m_x m) = true ->
  interact cfg m p =
  let dx := x p - to_number (m_x m) in
  let dy := y p - to_number (m_y m) in
  let dist := pointer_distance m p in
  if ltb dist (mouseRadius cfg) then
    let force := (1 - dist / mouseRadius cfg) * 0.6 in
    let dirX := dx / or_else dist 1 in
    let dirY := dy / or_else dist 1 in
    clamp_velocity cfg
      (if repel cfg
       then set_vy (vy p + dirY * force) (set_vx (vx p + dirX * force) p)
       else set_vy (vy p - dirY * force * 0.15) (set_vx (vx p - dirX * force * 0.15) p))
  else p.
Proof. intros Ha Hn; unfold interact; rewrite Ha, Hn; reflexivity. Qed.

Lemma set_velocity_eq p ax ay cx cy :
  ax = cx -> ay = cy ->
  set_vy ay (set_vx ax p) = set_vy cy (set_vx cx p).
Proof. intros -> ->; reflexivity. Qed.

Lemma set_velocity_same p ax ay :
  ax = vx p -> ay = vy p -> set_vy ay (set_vx ax p) = p.
Proof. intros -> ->; destruct p; reflexivity. Qed.

(** A particle lying on the pointer: the direction is [(0, 0)] and only the
    clamp is left of the interaction. *)
Lemma interact_at_pointer cfg m p :
  active m = true -> not_null (m_x m) = true ->
  x p = to_number (m_x m) -> y p = to_number (m_y m) ->
  pointer_distance m p = 0
  /\ or_else (pointer_distance m p) 1 = 1
  /\ (x p - to_number (m_x m)) / or_else (pointer_distance m p) 1 = 0
  /\ (y p - to_number (m_y m)) / or_else (pointer_distance m p) 1 = 0
  /\ (interact cfg m p = clamp_velocity cfg p \/ interact cfg m p = p).
Proof.
  intros Ha Hn Hx Hy.
  assert (Hd : pointer_distance m p = 0).
  { unfold pointer_distance; rewrite Hx, Hy.
    replace (_ + _) with 0 by lra; apply sqrt_0. }
  assert (Ho : or_else (pointer_distance m p) 1 = 1).
  { unfold or_else; destruct (Req_dec_T _ 0); [reflexivity | contradiction]. }
  split; [exact Hd | split; [exact Ho | split; [|split]]].
  - rewrite Ho, Hx; lra.
  - rewrite Ho, Hy; lra.
  - rewrite (interact_active cfg m p Ha Hn); cbn zeta.
    destruct (ltb _ _); [left | right; reflexivity].
    rewrite Ho, Hx, Hy.
    f_equal; destruct (repel cfg); apply set_velocity_same; lra.
Qed.

(** C8, as amended.  With the pointer active and a particle at distance
    [dist] from it, [0 < dist < mouseRadius], the interaction adds to the
    velocity the vector [k * (dx, dy)], [(dx, dy)] pointing from the pointer
    to the particle: in repel mode [k > 0] and the vector has length
    [force = (1 - dist / mouseRadius) * 0.6]; in attract mode [k < 0] and the
    length is [0.15 * force]; the sum is then clamped.  At [mouseRadius] or
    beyond the particle is left alone, and at distance 0 nothing is added. *)
Theorem pointer_force (cfg : Config) (m : Mouse) (p : Particle) :
  active m = true ->
  not_null (m_x m) = true ->
  let dx := x p - to_number (m_x m) in
  let dy := y p - to_number (m_y m) in
  let dist := pointer_distance m p in
  let force := (1 - dist / mouseRadius cfg) * 0.6 in
  let k := (if repel cfg then force else - (0.15 * force)) / dist in
  (0 < dist < mouseRadius cfg ->
     interact cfg m p =
       clamp_velocity cfg (set_vy (vy p + k * dy) (set_vx (vx p + k * dx) p))
     /\ 0 < force < 0.6
     /\ sqrt ((k * dx) * (k * dx) + (k * dy) * (k * dy))
        = (if repel cfg then force else 0.15 * force)
     /\ (if repel cfg then 0 < k else k < 0))
  /\ (mouseRadius cfg <= dist -> interact cfg m p = p)
  /\ (dist = 0 -> 0 < mouseRadius cfg -> interact cfg m p = clamp_velocity cfg p).
Proof.
  intros Ha Hn dx dy dist force k.
  pose proof (pointer_distance_sqr m p) as Hsq; cbn zeta in Hsq.
  fold dx dy dist in Hsq.
  split; [|split].
  - intros [Hpos Hlt].
    assert (Hf : 0 < force < 0.6).
    { unfold force.
      assert (0 < dist / mouseRadius cfg < 1); [|lra].
      split; [apply Rdiv_lt_0_compat; lra|].
      apply (Rmult_lt_reg_r (mouseRadius cfg)); [lra|].
      unfold Rdiv; rewrite Rmult_assoc, Rinv_l; lra. }
    assert (Ho : or_else dist 1 = dist).
    { unfold or_else; destruct (Req_dec_T dist 0); [lra | reflexivity]. }
    split; [|split; [exact Hf | split]].
    + rewrite (interact_active cfg m p Ha Hn); cbn zeta.
      fold dx dy dist force.
      destruct (ltb dist (mouseRadius cfg)) eqn:E; [|apply ltb_false in E; lra].
      rewrite Ho; f_equal; unfold k.
      destruct (repel cfg); apply set_velocity_eq; cbn [vx vy set_vx]; field; lra.
    + assert (Hk : (k * dx) * (k * dx) + (k * dy) * (k * dy)
                   = (k * dist) * (k * dist)).
      { replace ((k * dist) * (k * dist)) with (k * k * (dist * dist)) by ring.
        rewrite Hsq; ring. }
      rewrite Hk; unfold k.
      destruct (repel cfg).
      * replace (force / dist * dist) with force by (field; lra).
        apply sqrt_square; lra.
      * replace (- (0.15 * force) / dist * dist) with (- (0.15 * force)) by (field; lra).
        replace (- (0.15 * force) * - (0.15 * force))
          with ((0.15 * force) * (0.15 * force)) by ring.
        apply sqrt_square; lra.
    + unfold k; destruct (repel cfg).
      * apply Rdiv_lt_0_compat; lra.
      * assert (0 < (0.15 * force) / dist) by (apply Rdiv_lt_0_compat; lra).
        replace (- (0.15 * force) / dist) with (- ((0.15 * force) / dist))
          by (field; lra).
        lra.
  - intros Hge.
    rewrite (interact_active cfg m p Ha Hn); cbn zeta; fold dist.
    destruct (ltb dist (mouseRadius cfg)) eqn:E; [apply ltb_true in E; lra | reflexivity].
  - intros H0 HR.
    rewrite (interact_active cfg m p Ha Hn); cbn zeta; fold dx dy dist.
    destruct (ltb dist (mouseRadius cfg)) eqn:E; [|apply ltb_false in E; lra].
    assert (Hdx : dx = 0) by nra.
    assert (Hdy : dy = 0) by nra.
    rewrite Hdx, Hdy.
    f_equal; destruct (repel cfg); apply set_velocity_same; unfold Rdiv; lra.
Qed.

Lemma pointer_distance_dot_x (px py qx : R) :
  px <= qx -> pointer_distance (pointer px py) (dot qx py) = qx - px.
Proof.
  intros H; unfold pointer_distance; cbn [x y dot m_x m_y pointer to_number].
  replace ((qx - px) * (qx - px) + (py - py) * (py - py))
    with ((qx - px) * (qx - px)) by lra.
  apply sqrt_square; lra.
Qed.

Lemma pointer_force_witness :
  interact CONFIG (pointer 0 0) (dot 60 0) = set_vx 0.3 (dot 60 0).
Proof.
  assert (Ha : active (pointer 0 0) = true) by reflexivity.
  assert (Hn : not_null (m_x (pointer 0 0)) = true) by reflexivity.
  destruct (pointer_force CONFIG (pointer 0 0) (dot 60 0) Ha Hn) as [H _].
  assert (Hd : pointer_distance (pointer 0 0) (dot 60 0) = 60)
    by (rewrite pointer_distance_dot_x; lra).
  rewrite Hd in H.
  destruct H as [H _]; [cbn; lra|].
  rewrite H, clamp_velocity_id.
  - unfold set_vx, set_vy, dot; cbn; f_equal; lra.
  - split; apply Rabs_le; cbn; lra.
Defined.

Lemma clamp_component_zero vmax v :
  0 < vmax -> Math_max (- vmax) (Math_min vmax v) = 0 -> v = 0.
Proof.
  unfold Math_max, Math_min, Rmax, Rmin; intros Hm.
  destruct (Rle_dec vmax v); destruct (Rle_dec (- vmax) _); lra.
Qed.

Lemma dot_slow px py : slow CONFIG (dot px py).
Proof. split; apply Rabs_le; cbn; lra. Qed.

(** A particle on the pointer is within the radius, yet nothing of length 0.6
    is added to its velocity: its velocity stays [(0, 0)]. *)
Lemma pointer_force_zero_distance :
  ~ pointer_force_as_claimed CONFIG (pointer 5 5) (dot 5 5).
Proof.
  assert (Ha : active (pointer 5 5) = true) by reflexivity.
  assert (Hn : not_null (m_x (pointer 5 5)) = true) by reflexivity.
  destruct (interact_at_pointer CONFIG (pointer 5 5) (dot 5 5) Ha Hn eq_refl eq_refl)
    as (Hd & _ & _ & _ & Hi).
  assert (Hsame : interact CONFIG (pointer 5 5) (dot 5 5) = dot 5 5).
  { destruct Hi as [-> | ->]; [apply clamp_velocity_id, dot_slow | reflexivity]. }
  unfold pointer_force_as_claimed; cbn zeta; rewrite Hd, Hsame.
  intros H; destruct H as (Fx & Fy & Hmag & Heq); [cbn; lra|].
  assert (Hx : vx (dot 5 5) = vx (clamp_velocity CONFIG
             (set_vy (vy (dot 5 5) + Fy) (set_vx (vx (dot 5 5) + Fx) (dot 5 5)))))
    by (rewrite <- Heq; reflexivity).
  assert (Hy : vy (dot 5 5) = vy (clamp_velocity CONFIG
             (set_vy (vy (dot 5 5) + Fy) (set_vx (vx (dot 5 5) + Fx) (dot 5 5)))))
    by (rewrite <- Heq; reflexivity).
  cbn in Hx, Hy.
  symmetry in Hx, Hy.
  apply clamp_component_zero in Hx; [|lra].
  apply clamp_component_zero in Hy; [|lra].
  assert (Fx = 0) by lra; assert (Fy = 0) by lra; subst Fx Fy.
  replace (0 * 0 + 0 * 0) with 0 in Hmag by lra.
  rewrite sqrt_0 in Hmag; cbn in Hmag; lra.
Qed.

(** ** A particle on the pointer *)

Lemma update_at_pointer cfg wd ht m p :
  slow cfg p ->
  active m = true ->
  m_x m = Some (x (advance wd ht p)) ->
  m_y m = Some (y (advance wd ht p)) ->
  let q := advance wd ht p in
  let dx := x q - to_number (m_x m) in
  let dy := y q - to_number (m_y m) in
  let dist := Math_sqrt (dx * dx + dy * dy) in
  dist = 0
  /\ or_else dist 1 = 1
  /\ dx / or_else dist 1 = 0
  /\ dy / or_else dist 1 = 0
  /\ vx (update_particle cfg wd ht m p) = vx p * 0.995
  /\ vy (update_particle cfg wd ht m p) = vy p * 0.995.
Proof.
  intros Hs Ha Hx Hy q dx dy dist.
  assert (Hn : not_null (m_x m) = true) by (rewrite Hx; reflexivity).
  assert (Ex : x q = to_number (m_x m)) by (rewrite Hx; reflexivity).
  assert (Ey : y q = to_number (m_y m)) by (rewrite Hy; reflexivity).
  destruct (interact_at_pointer cfg m q Ha Hn Ex Ey) as (Hd & Ho & H1 & H2 & Hi).
  change (pointer_distance m q) with dist in Hd, Ho, H1, H2.
  split; [exact Hd | split; [exact Ho | split; [exact H1 | split; [exact H2 |]]]].
  assert (Hq : slow cfg q).
  { unfold slow, q; destruct (advance_velocity wd ht p) as [-> ->]; exact Hs. }
  assert (Hsame : interact cfg m q = q).
  { destruct Hi as [-> | ->]; [apply clamp_velocity_id; exact Hq | reflexivity]. }
  unfold update_particle; fold q; rewrite Hsame.
  unfold damp; cbn [vx vy set_vx set_vy].
  unfold q; destruct (advance_velocity wd ht p) as [-> ->]; split; reflexivity.
Qed.

(** *** Pages whose random draws are all the same

    On [page0] every draw is 0.5: [init] makes 60 particles at the centre
    [(683, 384)] with velocity [(0, 0)]. *)

Lemma or_else_left a c : a <> 0 -> or_else a c = a.
Proof. intros H; unfold or_else; destruct (Req_dec_T a 0); [contradiction | reflexivity]. Qed.

Lemma createParticle_const cfg c w :
  (forall n, prng w n = c) ->
  fst (createParticle cfg w) = newborn cfg c (width w) (height w).
Proof.
  intros H; unfold createParticle, rand, Math_random, newborn; run_m; cbn.
  rewrite !H; reflexivity.
Qed.

Lemma push_loop_const cfg c k w :
  (forall n, prng w n = c) ->
  let w' := exec (push_loop cfg k) w in
  particles w' = particles w ++ repeat (newborn cfg c (width w) (height w)) k
  /\ width w' = width w /\ height w' = height w
  /\ mouse w' = mouse w /\ isRunning w' = isRunning w.
Proof.
  revert w; induction k as [|k IH]; intros w H.
  - cbn; rewrite app_nil_r; repeat split.
  - cbn [push_loop]; unfold exec, bind.
    pose proof (createParticle_const cfg c w H) as Hp.
    destruct (push_particle cfg w) as [u w1] eqn:E.
    assert (H1 : particles w1 = particles w ++ [newborn cfg c (width w) (height w)]
                 /\ width w1 = width w /\ height w1 = height w
                 /\ mouse w1 = mouse w /\ isRunning w1 = isRunning w
                 /\ forall n, prng w1 n = c).
    { unfold push_particle, bind, modify in E.
      destruct (createParticle cfg w) as [p w0] eqn:E0.
      injection E as _ <-; cbn [fst] in Hp; subst p.
      apply (f_equal snd) in E0; cbn [snd] in E0; subst w0.
      unfold createParticle, rand, Math_random; run_m; cbn.
      repeat split; intros n; apply H. }
    destruct H1 as (A1 & A2 & A3 & A4 & A5 & A6).
    destruct (IH w1 A6) as (B1 & B2 & B3 & B4 & B5); unfold exec in *.
    cbn [snd].
    rewrite B1, A1, A2, A3, <- app_assoc.
    repeat split; congruence.
Qed.

Lemma resize_empty_const cfg l c k w :
  particles w = [] ->
  (forall n, prng w n = c) ->
  let wd := or_else (clientWidth l) (innerWidth l) in
  let ht := or_else (clientHeight l) (innerHeight l) in
  targetCount cfg (wd * ht) = Z.of_nat k ->
  let w' := exec (resize cfg l) w in
  particles w' = repeat (newborn cfg c wd ht) k
  /\ width w' = wd /\ height w' = ht
  /\ mouse w' = mouse w /\ isRunning w' = isRunning w.
Proof.
  intros He Hc wd ht Hk.
  unfold resize, reconcile, exec, bind, gets, modify; cbn [fst snd].
  cbn [particles width height set_surface]; fold wd ht.
  rewrite He, Hk; cbn [length Nat.eqb].
  replace (Z.to_nat (Z.of_nat k - 0)) with k by lia.
  match goal with
  | |- context [push_loop cfg k ?w0] =>
      destruct (push_loop_const cfg c k w0 Hc) as (B1 & B2 & B3 & B4 & B5)
  end.
  unfold exec in *; cbn in B1, B2, B3, B4, B5; fold wd ht in B1.
  rewrite He in B1; cbn in B1.
  repeat split; assumption.
Qed.

Lemma loop_running cfg w :
  isRunning w = true ->
  let w' := exec (loop cfg) w in
  particles w' = map (update_particle cfg (width w) (height w) (mouse w)) (particles w)
  /\ width w' = width w /\ height w' = height w /\ mouse w' = mouse w.
Proof.
  intros H; unfold loop, update, render, requestAnimationFrame; run_m.
  rewrite H; cbn; repeat split.
Qed.

(** Within the margins [advance] only adds the velocity. *)
Lemma advance_free wd ht p :
  -10 <= x p + vx p <= wd + 10 ->
  -10 <= y p + vy p <= ht + 10 ->
  advance wd ht p = set_y (y p + vy p) (set_x (x p + vx p) p).
Proof.
  intros Hx Hy; unfold advance, gtb.
  repeat case_ltb; psimpl; try lra; reflexivity.
Qed.

Lemma update_particle_idle cfg wd ht p :
  -10 <= x p + vx p <= wd + 10 ->
  -10 <= y p + vy p <= ht + 10 ->
  update_particle cfg wd ht mouse0 p
  = damp (set_y (y p + vy p) (set_x (x p + vx p) p)).
Proof.
  intros Hx Hy; unfold update_particle; rewrite (advance_free wd ht p Hx Hy).
  reflexivity.
Qed.

Lemma boot_page0 :
  let w := boot CONFIG page0 in
  particles w
  = repeat (update_particle CONFIG 1366 768 mouse0 (newborn CONFIG 0.5 1366 768)) 60
  /\ width w = 1366 /\ height w = 768 /\ mouse w = mouse0.
Proof.
  assert (Hk : targetCount CONFIG (1366 * 768) = Z.of_nat 60).
  { apply targetCount_value.
    replace (1366 * 768 / (1366 * 768)) with 1 by (field; lra).
    unfold clamp; destruct (Rlt_dec 1 0.5), (Rlt_dec 2.2 1); cbn; lra. }
  assert (Hw : or_else 1366 1366 = 1366) by (apply or_else_left; lra).
  assert (Hh : or_else 768 768 = 768) by (apply or_else_left; lra).
  destruct (resize_empty_const CONFIG (layout page0) 0.5 60 (fresh page0)
              eq_refl (fun _ => eq_refl)) as (A1 & A2 & A3 & A4 & A5).
  { cbn [layout page0 clientWidth clientHeight innerWidth innerHeight].
    rewrite Hw, Hh; exact Hk. }
  unfold boot, init, exec, bind in *.
  destruct (resize CONFIG (layout page0) (fresh page0)) as [u w1]; cbn [snd] in *.
  cbn [layout page0 clientWidth clientHeight innerWidth innerHeight] in A1, A2, A3.
  rewrite Hw, Hh in A1; rewrite Hw in A2; rewrite Hh in A3.
  destruct (loop_running CONFIG w1 A5) as (B1 & B2 & B3 & B4); unfold exec in *.
  rewrite B1, B2, B3, B4, A1, A2, A3, A4, map_repeat.
  repeat split.
Qed.

Lemma onMouseMove_mouse e rect w :
  let m := mouse (exec (onMouseMove e rect) w) in
  active m = true
  /\ m_x m = Some (clientX e - left rect)
  /\ m_y m = Some (clientY e - top rect).
Proof.
  unfold onMouseMove, requestAnimationFrame; run_m.
  cbn [rafMouse set_mouse].
  destruct (falsy_handle (rafMouse w)); repeat split.
Qed.

(** A particle moving onto the pointer at [(5, 5)] keeps its direction of
    travel and only loses the damping. *)
Example update_on_pointer :
  let p := {| x := 4; y := 5; size := 1; vx := 1; vy := 0; alpha := 0.5 |} in
  vx (update_particle CONFIG 100 100 (pointer 5 5) p) = 1 * 0.995
  /\ vy (update_particle CONFIG 100 100 (pointer 5 5) p) = 0 * 0.995.
Proof.
  intros p.
  assert (Hq : advance 100 100 p = set_x 5 p).
  { unfold advance, gtb, p; repeat case_ltb; psimpl; try lra.
    unfold set_x, set_y; cbn; f_equal; lra. }
  assert (Hs : slow CONFIG p) by (split; apply Rabs_le; cbn; lra).
  destruct (update_at_pointer CONFIG 100 100 (pointer 5 5) p Hs eq_refl)
    as (_ & _ & _ & _ & H);
    [rewrite Hq; reflexivity | rewrite Hq; reflexivity | exact H].
Qed.

(** ** The paused loop *)

Lemma loop_paused cfg w : isRunning w = false -> exec (loop cfg) w = w.
Proof. intros H; unfold loop; run_m; rewrite H; reflexivity. Qed.

Lemma run_callbacks_paused cfg cbs w :
  isRunning w = false ->
  frozen w (exec (run_callbacks cfg cbs) w)
  /\ rafQueue (exec (run_callbacks cfg cbs) w) = rafQueue w.
Proof.
  revert w; induction cbs as [|cb cbs IH]; intros w H.
  - repeat split; exact H.
  - cbn [run_callbacks]; unfold exec, bind.
    destruct (run_callback cfg cb w) as [u w1] eqn:E.
    assert (H1 : isRunning w1 = false /\ particles w1 = particles w
                 /\ painted w1 = painted w /\ width w1 = width w
                 /\ height w1 = height w /\ rafQueue w1 = rafQueue w).
    { replace w1 with (exec (run_callback cfg cb) w) by (unfold exec; now rewrite E).
      destruct cb; cbn [run_callback].
      - rewrite (loop_paused cfg w H); repeat split; exact H.
      - repeat split; exact H. }
    destruct H1 as (A1 & A2 & A3 & A4 & A5 & A6).
    destruct (IH w1 A1) as [(B1 & B2 & B3 & B4 & B5) B6]; unfold exec in *.
    cbn [snd].
    repeat split; congruence.
Qed.

Lemma onMouseMove_paused e rect w :
  isRunning w = false ->
  frozen w (exec (onMouseMove e rect) w)
  /\ (~ In CbLoop (rafQueue w) -> ~ In CbLoop (rafQueue (exec (onMouseMove e rect) w))).
Proof.
  intros H; unfold onMouseMove, requestAnimationFrame; run_m.
  cbn [rafMouse set_mouse].
  destruct (falsy_handle (rafMouse w)); cbn; (split; [repeat split; exact H|]);
    intros Hn; [|exact Hn].
  rewrite in_app_iff; intros [Hin | [Hin | []]]; [exact (Hn Hin) | discriminate].
Qed.

Lemma step_paused cfg ev w :
  quiet ev -> isRunning w = false ->
  frozen w (step cfg ev w)
  /\ (~ In CbLoop (rafQueue w) \/ ev = Frame -> ~ In CbLoop (rafQueue (step cfg ev w))).
Proof.
  intros Hq H.
  destruct ev as [[|]| |l|e rect| |ts rect|]; try destruct Hq; unfold step; cbn [handle].
  - split; [repeat split|]. intros [Hn | Habs]; [exact Hn | discriminate].
  - unfold frame; run_m.
    destruct (run_callbacks_paused cfg (rafQueue w) (set_raf [] (rafNext w) w) H)
      as [(B1 & B2 & B3 & B4 & B5) B6]; unfold exec in *.
    split; [repeat split; assumption|].
    intros _; rewrite B6; cbn; intros [].
  - destruct (onMouseMove_paused e rect w H) as [Hf Hn].
    split; [exact Hf | intros [Hq | Habs]; [exact (Hn Hq) | discriminate]].
  - split; [repeat split; exact H | intros [Hn | Habs]; [exact Hn | discriminate]].
  - destruct ts as [|t ts]; cbn [onTouchMove].
    + split; [repeat split; exact H | intros [Hn | Habs]; [exact Hn | discriminate]].
    + destruct (onMouseMove_paused t rect w H) as [Hf Hn].
      split; [exact Hf | intros [Hq | Habs]; [exact (Hn Hq) | discriminate]].
  - split; [repeat split; exact H | intros [Hn | Habs]; [exact Hn | discriminate]].
Qed.

Lemma run_paused cfg evs w :
  Forall quiet evs -> isRunning w = false ->
  frozen w (run cfg evs w)
  /\ (~ In CbLoop (rafQueue w) \/ In Frame evs -> ~ In CbLoop (rafQueue (run cfg evs w))).
Proof.
  revert w; induction evs as [|ev evs IH]; intros w Hq H.
  - split; [repeat split; exact H | intros [Hn | []]; exact Hn].
  - inversion Hq as [|? ? Hev Hevs]; subst.
    destruct (step_paused cfg ev w Hev H) as [(A1 & A2 & A3 & A4 & A5) An].
    destruct (IH (step cfg ev w) Hevs A1) as [(B1 & B2 & B3 & B4 & B5) Bn].
    cbn [run fold_left]; fold (run cfg evs (step cfg ev w)).
    split; [repeat split; congruence|].
    intros [Hn | [Hf | Hin]]; apply Bn; auto.
Qed.

(** What the [visibilitychange] listener does when the page is shown. *)
Lemma resume_step cfg w :
  let w' := step cfg (VisibilityChange visible) w in
  isRunning w' = true
  /\ particles w' = map (update_particle cfg (width w) (height w) (mouse w)) (particles w)
  /\ painted w' = painted w ++ render_ops cfg (exec (update cfg) (set_isRunning true w))
  /\ rafQueue w' = rafQueue w ++ [CbLoop].
Proof. repeat split. Qed.

(** ** The pointer velocity is never read *)

Lemma alike_iff w1 w2 : alike w1 w2 <-> alike_fields w1 w2.
Proof.
  unfold alike, blind; split.
  - intros H; constructor;
      [ exact (f_equal particles H) | exact (f_equal width H)
      | exact (f_equal height H) | exact (f_equal devicePixelRatio H)
      | exact (f_equal mouse H) | exact (f_equal isRunning H)
      | exact (f_equal animId H) | exact (f_equal rafMouse H)
      | exact (f_equal canvas_width H) | exact (f_equal canvas_height H)
      | exact (f_equal transform H) | exact (f_equal painted H)
      | exact (f_equal rafQueue H) | exact (f_equal rafNext H)
      | exact (f_equal prng H) ].
  - intros []; destruct w1, w2; cbn in *; unfold set_mouse; cbn; congruence.
Qed.

Lemma forget_velocity_fields m1 m2 :
  forget_velocity m1 = forget_velocity m2 ->
  m_x m1 = m_x m2 /\ m_y m1 = m_y m2 /\ lastX m1 = lastX m2
  /\ lastY m1 = lastY m2 /\ active m1 = active m2.
Proof.
  intros H; repeat split;
    [ exact (f_equal m_x H) | exact (f_equal m_y H) | exact (f_equal lastX H)
    | exact (f_equal lastY H) | exact (f_equal active H) ].
Qed.

Lemma update_particle_forget cfg wd ht m :
  update_particle cfg wd ht m = update_particle cfg wd ht (forget_velocity m).
Proof. reflexivity. Qed.

Lemma halo_forget cfg m : halo cfg m = halo cfg (forget_velocity m).
Proof. reflexivity. Qed.

Lemma update_alike cfg w1 w2 :
  alike w1 w2 -> particles (exec (update cfg) w1) = particles (exec (update cfg) w2).
Proof.
  intros H; apply alike_iff in H; destruct H; cbn.
  rewrite (update_particle_forget cfg _ _ (mouse w1)),
          (update_particle_forget cfg _ _ (mouse w2)).
  congruence.
Qed.

Lemma render_ops_alike cfg w1 w2 : alike w1 w2 -> render_ops cfg w1 = render_ops cfg w2.
Proof.
  intros H; apply alike_iff in H; destruct H; unfold render_ops, clear.
  rewrite (halo_forget cfg (mouse w1)), (halo_forget cfg (mouse w2)).
  congruence.
Qed.

Lemma secure_ret {A} (a : A) : secure (ret a).
Proof. intros w1 w2 H; split; [reflexivity | exact H]. Qed.

Lemma secure_bind {A B} (m : M A) (k : A -> M B) :
  secure m -> (forall a, secure (k a)) -> secure (bind m k).
Proof.
  intros Hm Hk w1 w2 H; unfold bind.
  destruct (Hm w1 w2 H) as [Hf Hs].
  destruct (m w1) as [a1 v1], (m w2) as [a2 v2]; cbn [fst snd] in *; subst a2.
  exact (Hk a1 v1 v2 Hs).
Qed.

Lemma secure_gets {A} (f : World -> A) :
  (forall w1 w2, alike w1 w2 -> f w1 = f w2) -> secure (gets f).
Proof. intros Hf w1 w2 H; split; [exact (Hf w1 w2 H) | exact H]. Qed.

Lemma secure_modify (f : World -> World) :
  (forall w1 w2, alike w1 w2 -> alike (f w1) (f w2)) -> secure (modify f).
Proof. intros Hf w1 w2 H; split; [reflexivity | exact (Hf w1 w2 H)]. Qed.

(** Close a goal [alike (f w1) (f w2)] where [f] sets fields from fields. *)
Ltac alike_fields_tac H :=
  apply alike_iff in H; destruct H; apply alike_iff; constructor; cbn;
  first [ congruence
        | unfold forget_velocity; cbn; congruence
        | match goal with
          | Hp : prng ?a = prng ?c |- _ => rewrite Hp; reflexivity
          end ].

Lemma secure_Math_random : secure Math_random.
Proof.
  intros w1 w2 H; split.
  - apply alike_iff in H; destruct H; cbn; congruence.
  - cbn [Math_random snd]; alike_fields_tac H.
Qed.

Lemma secure_requestAnimationFrame cb : secure (requestAnimationFrame cb).
Proof.
  intros w1 w2 H; split.
  - apply alike_iff in H; destruct H; cbn; congruence.
  - cbn [requestAnimationFrame snd]; alike_fields_tac H.
Qed.

Lemma secure_rand lo hi : secure (rand lo hi).
Proof.
  apply secure_bind; [apply secure_Math_random | intros; apply secure_ret].
Qed.

Lemma secure_createParticle cfg : secure (createParticle cfg).
Proof.
  unfold createParticle.
  repeat first
    [ apply secure_ret
    | apply secure_rand
    | apply secure_Math_random
    | apply secure_gets; intros w1 w2 H; apply alike_iff in H; destruct H; assumption
    | apply secure_bind; [|intros ?] ].
Qed.

Lemma secure_push_particle cfg : secure (push_particle cfg).
Proof.
  apply secure_bind; [apply secure_createParticle|]; intros p.
  apply secure_modify; intros w1 w2 H; alike_fields_tac H.
Qed.

Lemma secure_push_loop cfg n : secure (push_loop cfg n).
Proof.
  induction n as [|n IH]; cbn [push_loop]; [apply secure_ret|].
  apply secure_bind; [apply secure_push_particle | intros _; exact IH].
Qed.

Lemma secure_reconcile cfg count : secure (reconcile cfg count).
Proof.
  apply secure_bind.
  - apply secure_gets; intros w1 w2 H; apply alike_iff in H; destruct H; congruence.
  - intros len.
    destruct (Nat.eqb len 0); [apply secure_push_loop|].
    destruct (Z.of_nat len <? count)%Z; [apply secure_push_loop|].
    destruct (gtb _ _); [|apply secure_ret].
    apply secure_modify; intros w1 w2 H; alike_fields_tac H.
Qed.

Lemma secure_resize cfg l : secure (resize cfg l).
Proof.
  unfold resize.
  apply secure_bind; [apply secure_modify; intros w1 w2 H; alike_fields_tac H|].
  intros _; apply secure_bind;
    [apply secure_gets; intros w1 w2 H; apply alike_iff in H; destruct H; assumption|].
  intros wd; apply secure_bind;
    [apply secure_gets; intros w1 w2 H; apply alike_iff in H; destruct H; assumption|].
  intros ht; apply secure_reconcile.
Qed.

Lemma secure_update cfg : secure (update cfg).
Proof.
  apply secure_modify; intros w1 w2 H.
  pose proof (update_alike cfg w1 w2 H) as Hu; cbn in Hu.
  apply alike_iff in H; destruct H; apply alike_iff; constructor; cbn; congruence.
Qed.

Lemma secure_render cfg : secure (render cfg).
Proof.
  apply secure_modify; intros w1 w2 H.
  pose proof (render_ops_alike cfg w1 w2 H) as Hr.
  apply alike_iff in H; destruct H; apply alike_iff; constructor;
    cbn -[render_ops]; congruence.
Qed.

Lemma secure_loop cfg : secure (loop cfg).
Proof.
  unfold loop; apply secure_bind.
  - apply secure_gets; intros w1 w2 H; apply alike_iff in H; destruct H; assumption.
  - intros running; destruct (negb running); [apply secure_ret|].
    apply secure_bind; [apply secure_update | intros _].
    apply secure_bind; [apply secure_render | intros _].
    apply secure_bind; [apply secure_requestAnimationFrame | intros id].
    apply secure_modify; intros w1 w2 H; alike_fields_tac H.
Qed.

Lemma secure_onMouseMove e rect : secure (onMouseMove e rect).
Proof.
  unfold onMouseMove; apply secure_bind.
  - apply secure_modify; intros w1 w2 H.
    apply alike_iff in H; destruct H.
    destruct (forget_velocity_fields _ _ al_mouse0) as (A1 & A2 & A3 & A4 & A5).
    apply alike_iff; constructor; cbn; try congruence.
    unfold forget_velocity; cbn; congruence.
  - intros _; apply secure_bind.
    + apply secure_gets; intros w1 w2 H; apply alike_iff in H; destruct H; assumption.
    + intros pending; destruct (falsy_handle pending); [|apply secure_ret].
      apply secure_bind; [apply secure_requestAnimationFrame | intros id].
      apply secure_modify; intros w1 w2 H; alike_fields_tac H.
Qed.

Lemma secure_onMouseLeave : secure onMouseLeave.
Proof.
  apply secure_modify; intros w1 w2 H; alike_fields_tac H.
Qed.

Lemma secure_onVisibilityChange cfg v : secure (onVisibilityChange cfg v).
Proof.
  unfold onVisibilityChange; apply secure_bind.
  - apply secure_modify; intros w1 w2 H; alike_fields_tac H.
  - intros _; apply secure_bind.
    + apply secure_gets; intros w1 w2 H; apply alike_iff in H; destruct H; assumption.
    + intros running; destruct running; [apply secure_loop | apply secure_ret].
Qed.

Lemma secure_run_callbacks cfg cbs : secure (run_callbacks cfg cbs).
Proof.
  induction cbs as [|cb cbs IH]; cbn [run_callbacks]; [apply secure_ret|].
  apply secure_bind; [|intros _; exact IH].
  destruct cb; cbn [run_callback]; [apply secure_loop|].
  apply secure_modify; intros w1 w2 H; alike_fields_tac H.
Qed.

Lemma secure_frame cfg : secure (frame cfg).
Proof.
  unfold frame; apply secure_bind.
  - apply secure_gets; intros w1 w2 H; apply alike_iff in H; destruct H; assumption.
  - intros q; apply secure_bind; [|intros _; apply secure_run_callbacks].
    apply secure_modify; intros w1 w2 H; alike_fields_tac H.
Qed.

Lemma secure_handle cfg ev : secure (handle cfg ev).
Proof.
  destruct ev as [v| |l|e rect| |ts rect|]; cbn [handle].
  - apply secure_onVisibilityChange.
  - apply secure_frame.
  - apply secure_resize.
  - apply secure_onMouseMove.
  - apply secure_onMouseLeave.
  - destruct ts; [apply secure_ret | apply secure_onMouseMove].
  - apply secure_onMouseLeave.
Qed.

Lemma run_alike cfg evs w1 w2 :
  alike w1 w2 -> alike (run cfg evs w1) (run cfg evs w2).
Proof.
  revert w1 w2; induction evs as [|ev evs IH]; intros w1 w2 H; [exact H|].
  cbn [run fold_left]; apply IH.
  exact (proj2 (secure_handle cfg ev w1 w2 H)).
Qed.

(** C10.  Take two worlds that differ at most in [mouse.vx] and [mouse.vy]
    and feed them the same events.  The particles (positions and velocities)
    and everything painted agree afterwards, the worlds still differ at most
    in those two fields, and one [update] or one [render] of the two worlds
    gives the same particles and the same drawing. *)
Theorem pointer_velocity_unobserved (cfg : Config) (w1 w2 : World) (evs : list Event) :
  alike w1 w2 ->
  particles (run cfg evs w1) = particles (run cfg evs w2)
  /\ painted (run cfg evs w1) = painted (run cfg evs w2)
  /\ alike (run cfg evs w1) (run cfg evs w2)
  /\ particles (exec (update cfg) w1) = particles (exec (update cfg) w2)
  /\ render_ops cfg w1 = render_ops cfg w2.
Proof.
  intros H.
  pose proof (run_alike cfg evs w1 w2 H) as Hr.
  pose proof Hr as Hf; apply alike_iff in Hf; destruct Hf.
  repeat split; try assumption.
  - apply update_alike; exact H.
  - apply render_ops_alike; exact H.
Qed.

Lemma pointer_velocity_unobserved_witness :
  let w1 := with_pointer_velocity 1 2 (step CONFIG (pointer_at 3 4) (crowd 2)) in
  let w2 := with_pointer_velocity 7 (-9) (step CONFIG (pointer_at 3 4) (crowd 2)) in
  particles (run CONFIG [Frame; Frame] w1) = particles (run CONFIG [Frame; Frame] w2)
  /\ painted (run CONFIG [Frame; Frame] w1) = painted (run CONFIG [Frame; Frame] w2).
Proof.
  intros w1 w2.
  assert (H : alike w1 w2) by reflexivity.
  destruct (pointer_velocity_unobserved CONFIG w1 w2 [Frame; Frame] H) as (H1 & H2 & _).
  split; assumption.
Defined.

(** The move handler does write the field: a second move stores the
    displacement since the first. *)
Example onMouseMove_writes_velocity :
  let w := run CONFIG [pointer_at 3 4; pointer_at 10 6] world0 in
  m_vx (mouse w) = 10 - 0 - 3 /\ m_vy (mouse w) = 6 - 0 - 4.
Proof. cbn; split; lra. Qed.

(** ** Starting on a page without the canvas *)

Lemma animator_iife_absent doc pg :
  getElementById doc "particles" = None -> animator_iife doc pg = Normal None.
Proof. intros H; unfold animator_iife; rewrite H; reflexivity. Qed.

Lemma script_absent doc pg :
  getElementById doc "particles" = None -> script doc pg = Throw TypeError.
Proof. intros H; unfold script, legacy_engine; rewrite H; reflexivity. Qed.

Lemma script_present doc pg :
  getElementById doc "particles" <> None ->
  script doc pg = Normal {| legacy_running := true; animator := Some (boot CONFIG pg) |}.
Proof.
  intros H; unfold script, legacy_engine, animator_iife.
  destruct (getElementById doc "particles"); [reflexivity | contradiction].
Qed.

(** C6.  On a page without the element [particles] the IIFE returns at its
    guard and starts nothing, but the script never gets there: the older
    engine above it reads [getContext] of [null] and throws. *)
Theorem script_without_canvas_throws (pg : Page) :
  getElementById page_without_canvas "particles" = None
  /\ animator_iife page_without_canvas pg = Normal None
  /\ script page_without_canvas pg = Throw TypeError.
Proof.
  split; [reflexivity | split].
  - apply animator_iife_absent; reflexivity.
  - apply script_absent; reflexivity.
Qed.

(** * Further properties of the animator *)

(** ** What a statement leaves alone *)

Lemma keeps_ret {A B} (f : World -> B) (a : A) : keeps f (ret a).
Proof. intros w; reflexivity. Qed.

Lemma keeps_gets {A B} (f : World -> B) (g : World -> A) : keeps f (gets g).
Proof. intros w; reflexivity. Qed.

Lemma keeps_bind {A B C} (f : World -> C) (m : M A) (k : A -> M B) :
  keeps f m -> (forall a, keeps f (k a)) -> keeps f (bind m k).
Proof.
  intros Hm Hk w; unfold bind.
  specialize (Hm w); destruct (m w) as [a w1]; cbn [snd] in Hm.
  rewrite (Hk a w1); exact Hm.
Qed.

Lemma keeps_modify {B} (f : World -> B) (g : World -> World) :
  (forall w, f (g w) = f w) -> keeps f (modify g).
Proof. intros H w; exact (H w). Qed.

Lemma keeps_exec {A B} (f : World -> B) (m : M A) w :
  keeps f m -> f (exec m w) = f w.
Proof. intros H; exact (H w). Qed.

(** Chain the rules through a statement built from [bind]. *)
Ltac keeps_tac :=
  repeat first
    [ apply keeps_ret
    | apply keeps_gets
    | apply keeps_modify; intros ?; reflexivity
    | apply keeps_bind; [|intros ?]
    | assumption ].

Lemma keeps_Math_random {B} (f : World -> B) :
  (forall v w, f (set_prng v w) = f w) -> keeps f Math_random.
Proof. intros H w; exact (H _ w). Qed.

Lemma keeps_requestAnimationFrame {B} (f : World -> B) cb :
  (forall q n w, f (set_raf q n w) = f w) -> keeps f (requestAnimationFrame cb).
Proof. intros H w; exact (H _ _ w). Qed.

Section KeepsResize.

Variable B : Type.
Variable f : World -> B.
Variable cfg : Config.

Hypothesis f_prng : forall v w, f (set_prng v w) = f w.
Hypothesis f_particles : forall v w, f (set_particles v w) = f w.

Lemma keeps_createParticle : keeps f (createParticle cfg).
Proof.
  pose proof (keeps_Math_random f f_prng) as Hr.
  unfold createParticle, rand; keeps_tac.
Qed.

Lemma keeps_push_loop n : keeps f (push_loop cfg n).
Proof.
  induction n as [|n IH]; cbn [push_loop]; [apply keeps_ret|].
  apply keeps_bind; [|intros _; exact IH].
  unfold push_particle; apply keeps_bind; [apply keeps_createParticle|].
  intros p; apply keeps_modify; intros w; apply f_particles.
Qed.

Lemma keeps_reconcile count : keeps f (reconcile cfg count).
Proof.
  unfold reconcile; apply keeps_bind; [apply keeps_gets|]; intros len.
  destruct (Nat.eqb len 0); [apply keeps_push_loop|].
  destruct (Z.of_nat len <? count)%Z; [apply keeps_push_loop|].
  destruct (gtb _ _); [|apply keeps_ret].
  apply keeps_modify; intros w; apply f_particles.
Qed.

Hypothesis f_surface : forall wd ht cw ch t w, f (set_surface wd ht cw ch t w) = f w.

Lemma keeps_resize l : keeps f (resize cfg l).
Proof.
  unfold resize; apply keeps_bind; [apply keeps_modify; intros w; apply f_surface|].
  intros _; apply keeps_bind; [apply keeps_gets|]; intros wd.
  apply keeps_bind; [apply keeps_gets|]; intros ht.
  apply keeps_reconcile.
Qed.

End KeepsResize.

Section KeepsLoop.

Variable B : Type.
Variable f : World -> B.
Variable cfg : Config.

Hypothesis f_particles : forall v w, f (set_particles v w) = f w.
Hypothesis f_painted : forall v w, f (set_painted v w) = f w.
Hypothesis f_raf : forall q n w, f (set_raf q n w) = f w.
Hypothesis f_animId : forall v w, f (set_animId v w) = f w.
Hypothesis f_rafMouse : forall v w, f (set_rafMouse v w) = f w.
Hypothesis f_isRunning : forall v w, f (set_isRunning v w) = f w.

Lemma keeps_loop : keeps f (loop cfg).
Proof.
  unfold loop; apply keeps_bind; [apply keeps_gets|]; intros running.
  destruct (negb running); [apply keeps_ret|].
  apply keeps_bind; [apply keeps_modify; intros w; apply f_particles|]; intros _.
  apply keeps_bind; [apply keeps_modify; intros w; apply f_painted|]; intros _.
  apply keeps_bind; [apply keeps_requestAnimationFrame; exact f_raf|]; intros id.
  apply keeps_modify; intros w; apply f_animId.
Qed.

Lemma keeps_run_callbacks cbs : keeps f (run_callbacks cfg cbs).
Proof.
  induction cbs as [|cb cbs IH]; cbn [run_callbacks]; [apply keeps_ret|].
  apply keeps_bind; [|intros _; exact IH].
  destruct cb; cbn [run_callback]; [apply keeps_loop|].
  apply keeps_modify; intros w; apply f_rafMouse.
Qed.

Lemma keeps_frame : keeps f (frame cfg).
Proof.
  unfold frame; apply keeps_bind; [apply keeps_gets|]; intros q.
  apply keeps_bind; [apply keeps_modify; intros w; apply f_raf|]; intros _.
  apply keeps_run_callbacks.
Qed.

Lemma keeps_onVisibilityChange v : keeps f (onVisibilityChange cfg v).
Proof.
  unfold onVisibilityChange.
  apply keeps_bind; [apply keeps_modify; intros w; apply f_isRunning|]; intros _.
  apply keeps_bind; [apply keeps_gets|]; intros running.
  destruct running; [apply keeps_loop | apply keeps_ret].
Qed.

End KeepsLoop.

(** ** The number of particles *)

Lemma clamp_range v : 0.5 <= clamp v 0.5 2.2 <= 2.2.
Proof. unfold clamp; destruct (Rlt_dec v 0.5), (Rlt_dec 2.2 v); lra. Qed.

Lemma clamp_monotone v1 v2 : v1 <= v2 -> clamp v1 0.5 2.2 <= clamp v2 0.5 2.2.
Proof.
  intros H; unfold clamp.
  destruct (Rlt_dec v1 0.5), (Rlt_dec v2 0.5), (Rlt_dec 2.2 v1), (Rlt_dec 2.2 v2); lra.
Qed.

Lemma targetCount_bounds area : (30 <= targetCount CONFIG area <= 132)%Z.
Proof.
  rewrite targetCount_clamp; cbn [baseCount CONFIG]; unfold Math_round.
  pose proof (clamp_range (area / (1366 * 768))) as Hc.
  set (c := clamp (area / (1366 * 768)) 0.5 2.2) in *.
  split.
  - apply Zfloor_lub; lra.
  - pose proof (Zfloor_bound (60 * c + 1 / 2)) as [Hb _].
    assert (IZR (Zfloor (60 * c + 1 / 2)) < IZR 133) by lra.
    apply lt_IZR in H; lia.
Qed.


Lemma resize_reconciles cfg l w :
  let wd := or_else (clientWidth l) (innerWidth l) in
  let ht := or_else (clientHeight l) (innerHeight l) in
  exec (resize cfg l) w
  = exec (reconcile cfg (targetCount cfg (wd * ht)))
      (set_surface wd ht (Math_round (wd * devicePixelRatio w))
         (Math_round (ht * devicePixelRatio w)) (devicePixelRatio w) w).
Proof. reflexivity. Qed.

Lemma count_ok_core : core_pred count_ok.
Proof. intros w w' (Hp & _) H; unfold count_ok; rewrite Hp; exact H. Qed.

(** [reconcile] leaves the target number of particles or the old field. *)
Lemma reconcile_count cfg T w :
  (0 <= T)%Z ->
  Z.of_nat (length (particles (exec (reconcile cfg T) w))) = T
  \/ particles (exec (reconcile cfg T) w) = particles w.
Proof.
  intros HT.
  destruct (reconcile_cases cfg T w HT) as (H0 & H1 & H2 & H3).
  set (C := Z.of_nat (length (particles w))) in *.
  destruct (Z.eq_dec C 0) as [E0|E0]; [left; apply H0, E0|].
  destruct (Z_lt_dec C T) as [E1|E1]; [left; apply H1; lia|].
  destruct (Rlt_dec (1.4 * IZR T) (IZR C)) as [E2|E2]; [left; apply H2; lra|].
  right; apply H3; split; [lia | lra].
Qed.

Lemma count_ok_resize l w :
  count_ok w \/ particles w = [] -> count_ok (exec (resize CONFIG l) w).
Proof.
  intros Hw; rewrite resize_reconciles; cbn zeta.
  set (T := targetCount CONFIG _).
  set (w1 := set_surface _ _ _ _ _ w).
  assert (HT : (30 <= T <= 132)%Z) by apply targetCount_bounds.
  assert (Hp : particles w1 = particles w) by reflexivity.
  unfold count_ok.
  destruct Hw as [Hw | Hw].
  - destruct (reconcile_count CONFIG T w1) as [H | H]; [lia | lia |].
    rewrite H, Hp; exact Hw.
  - destruct (reconcile_cases CONFIG T w1) as (H0 & _); [lia|].
    rewrite H0; [lia | rewrite Hp, Hw; reflexivity].
Qed.

Lemma count_ok_update cfg w : count_ok w -> count_ok (exec (update cfg) w).
Proof. unfold count_ok; cbn; rewrite length_map; auto. Qed.

Lemma count_ok_boot pg : count_ok (boot CONFIG pg).
Proof.
  unfold boot, init, exec, bind.
  pose proof (count_ok_resize (layout pg) (fresh pg) (or_intror eq_refl)) as H.
  unfold exec in H.
  destruct (resize CONFIG (layout pg) (fresh pg)) as [u w1]; cbn [snd] in *.
  exact (loop_preserves CONFIG count_ok count_ok_core (count_ok_update CONFIG) w1 H).
Qed.

(** X1.  However the page is resized and whatever else happens, the field
    holds between 30 and 132 particles. *)
Theorem particle_count_bounded (pg : Page) (evs : list Event) :
  (30 <= Z.of_nat (length (particles (run CONFIG evs (boot CONFIG pg)))) <= 132)%Z.
Proof.
  apply (run_preserves CONFIG count_ok (fun _ => True) count_ok_core
           (count_ok_update CONFIG)).
  - intros l w _ H; apply count_ok_resize; left; exact H.
  - apply Forall_forall; intros; exact I.
  - apply count_ok_boot.
Qed.

(** X2.  The target count grows with the area of the surface, and it is 30
    up to half the reference area and 132 from 2.2 times the reference area
    on. *)
Theorem targetCount_monotone (a1 a2 : R) :
  a1 <= a2 ->
  (targetCount CONFIG a1 <= targetCount CONFIG a2)%Z
  /\ (a2 <= 0.5 * refArea -> targetCount CONFIG a1 = 30%Z)
  /\ (2.2 * refArea <= a1 -> targetCount CONFIG a2 = 132%Z).
Proof.
  intros H.
  assert (Hd : forall a c, a <= c -> a / (1366 * 768) <= c / (1366 * 768)).
  { intros a c Hac; unfold Rdiv; apply Rmult_le_compat_r; [|exact Hac].
    apply Rlt_le, Rinv_0_lt_compat; lra. }
  split; [|split].
  - rewrite !targetCount_clamp; cbn [baseCount CONFIG]; unfold Math_round.
    apply Zfloor_le.
    pose proof (clamp_monotone _ _ (Hd a1 a2 H)); lra.
  - intros Hs; apply targetCount_value.
    assert (a1 / (1366 * 768) <= 0.5).
    { replace 0.5 with (0.5 * refArea / (1366 * 768)) by (unfold refArea; field).
      apply Hd; lra. }
    unfold clamp; destruct (Rlt_dec (a1 / (1366 * 768)) 0.5);
      [|destruct (Rlt_dec 2.2 (a1 / (1366 * 768)))]; cbn; lra.
  - intros Hs; apply targetCount_value.
    assert (2.2 <= a2 / (1366 * 768)).
    { replace 2.2 with (2.2 * refArea / (1366 * 768)) at 1 by (unfold refArea; field).
      apply Hd; lra. }
    unfold clamp; destruct (Rlt_dec (a2 / (1366 * 768)) 0.5);
      [|destruct (Rlt_dec 2.2 (a2 / (1366 * 768)))]; cbn; lra.
Qed.

Lemma targetCount_monotone_witness :
  (targetCount CONFIG (800 * 600) <= targetCount CONFIG (1920 * 1080))%Z.
Proof.
  assert (H : 800 * 600 <= 1920 * 1080) by lra.
  exact (proj1 (targetCount_monotone (800 * 600) (1920 * 1080) H)).
Defined.







(** ** Size and opacity *)

Lemma update_particle_attributes cfg wd ht m p :
  size (update_particle cfg wd ht m p) = size p
  /\ alpha (update_particle cfg wd ht m p) = alpha p.
Proof.
  unfold update_particle, damp, interact, clamp_velocity.
  assert (Ha : size (advance wd ht p) = size p /\ alpha (advance wd ht p) = alpha p).
  { unfold advance, gtb; repeat case_ltb; psimpl; split; reflexivity. }
  destruct Ha as [Hs Ha].
  destruct (active m && not_null (m_x m)); [|cbn; split; assumption].
  match goal with |- context [if ltb ?a ?c then _ else _] => destruct (ltb a c) end;
    [|cbn; split; assumption].
  destruct (repel cfg); cbn; split; assumption.
Qed.

Lemma createParticle_in_ranges cfg w :
  minSize cfg <= maxSize cfg -> 0.4 <= particleAlpha cfg ->
  random_ok w -> in_ranges cfg (fst (createParticle cfg w)).
Proof.
  intros Hs Ha Hr; unfold createParticle, rand, Math_random, in_ranges; run_m; cbn.
  pose proof (Hr 2%nat); pose proof (Hr 5%nat).
  repeat split; nra.
Qed.

(** X5.  Size and opacity are drawn once, within [[minSize, maxSize]] and
    [[0.4, particleAlpha]], and no update changes them: every particle of
    every state the animator reaches is within these ranges. *)
Theorem particle_attributes (cfg : Config) (pg : Page) (evs : list Event) :
  minSize cfg <= maxSize cfg ->
  0.4 <= particleAlpha cfg ->
  (forall n, 0 <= randoms pg n < 1) ->
  Forall (fun p => (minSize cfg <= size p <= maxSize cfg)
                   /\ (0.4 <= alpha p <= particleAlpha cfg))
         (particles (run cfg evs (boot cfg pg)))
  /\ (forall wd ht m p,
         size (update_particle cfg wd ht m p) = size p
         /\ alpha (update_particle cfg wd ht m p) = alpha p).
Proof.
  intros Hs Ha Hr; split; [|intros; apply update_particle_attributes].
  set (P := fun w => random_ok w /\ Forall (in_ranges cfg) (particles w)).
  assert (Pcore : core_pred P).
  { intros w w' (Hp & _ & _ & Hg) [H1 H2]; unfold P, random_ok.
    rewrite Hp, Hg; split; assumption. }
  assert (Pupd : forall w, P w -> P (exec (update cfg) w)).
  { intros w [H1 H2]; split; [exact H1|].
    cbn; apply Forall_map; revert H2; apply Forall_impl; intros p [Hp1 Hp2].
    destruct (update_particle_attributes cfg (width w) (height w) (mouse w) p)
      as [E1 E2].
    unfold in_ranges; rewrite E1, E2; split; assumption. }
  assert (Pres : forall l w, P w -> P (exec (resize cfg l) w)).
  { intros l w [H1 H2].
    destruct (resize_settled cfg (in_ranges cfg) _ _
                (fun w' Hr' _ _ => createParticle_in_ranges cfg w' Hs Ha Hr')
                l w eq_refl eq_refl H1 H2) as (A & _ & _ & C).
    split; assumption. }
  assert (Pboot : P (boot cfg pg)).
  { unfold boot, init, exec, bind.
    pose proof (Pres (layout pg) (fresh pg) (conj Hr (Forall_nil _))) as H.
    unfold exec in H.
    destruct (resize cfg (layout pg) (fresh pg)) as [u w1]; cbn [snd] in *.
    exact (loop_preserves cfg P Pcore Pupd w1 H). }
  refine (proj2 (run_preserves cfg P (fun _ => True) Pcore Pupd _ evs _ _ Pboot)).
  - intros l w _; apply Pres.
  - apply Forall_forall; intros; exact I.
Qed.

Lemma particle_attributes_witness :
  Forall (fun p => (minSize CONFIG <= size p <= maxSize CONFIG)
                   /\ (0.4 <= alpha p <= particleAlpha CONFIG))
         (particles (run CONFIG [Frame; pointer_at 3 4; Frame] (boot CONFIG page0))).
Proof.
  assert (Hs : minSize CONFIG <= maxSize CONFIG) by (cbn; lra).
  assert (Ha : 0.4 <= particleAlpha CONFIG) by (cbn; lra).
  assert (Hr : forall n, 0 <= randoms page0 n < 1) by (intros n; cbn; lra).
  exact (proj1 (particle_attributes CONFIG page0 [Frame; pointer_at 3 4; Frame] Hs Ha Hr)).
Defined.

(** ** The frame callbacks *)

Lemma mouse_frames_app q1 q2 :
  mouse_frames (q1 ++ q2) = (mouse_frames q1 + mouse_frames q2)%nat.
Proof. unfold mouse_frames; rewrite filter_app, length_app; reflexivity. Qed.

Lemma loops_app q1 q2 : loops (q1 ++ q2) = (loops q1 + loops q2)%nat.
Proof. unfold loops; rewrite filter_app, length_app; reflexivity. Qed.

Lemma mouse_frames_none q : existsb is_mouse_cb q = false -> mouse_frames q = 0%nat.
Proof.
  induction q as [|cb q IH]; [reflexivity|]; cbn.
  destruct cb; cbn; [exact IH | discriminate].
Qed.

Lemma raf_ok_raf_state w w' : raf_state w' = raf_state w -> raf_ok w -> raf_ok w'.
Proof.
  unfold raf_state, raf_ok; intros H; injection H as -> -> ->; auto.
Qed.

Lemma raf_ok_loop cfg w : raf_ok w -> raf_ok (exec (loop cfg) w).
Proof.
  intros [H1 H2]; unfold loop, update, render, requestAnimationFrame; run_m.
  destruct (isRunning w); cbn -[mouse_frames]; [|split; assumption].
  unfold raf_ok; cbn -[mouse_frames]; rewrite mouse_frames_app.
  change (mouse_frames [CbLoop]) with 0%nat.
  split; [lia|]. destruct (rafMouse w); [destruct H2; split; lia | lia].
Qed.

Lemma raf_ok_onMouseMove e rect w : raf_ok w -> raf_ok (exec (onMouseMove e rect) w).
Proof.
  intros [H1 H2]; unfold onMouseMove, requestAnimationFrame; run_m.
  cbn [rafMouse set_mouse].
  destruct (rafMouse w) as [n|] eqn:E; cbn [falsy_handle].
  - destruct H2 as [Hn Hc].
    destruct (Nat.eqb n 0) eqn:E0; [apply Nat.eqb_eq in E0; lia|].
    unfold raf_ok; cbn -[mouse_frames]; rewrite E; repeat split; assumption.
  - unfold raf_ok; cbn -[mouse_frames]; rewrite mouse_frames_app, H2.
    change (mouse_frames [CbMouse]) with 1%nat.
    repeat split; lia.
Qed.

(** Callbacks run with no [onMouseMove] callback queued: none gets queued,
    and [rafMouse] is cleared when one of the callbacks run is its own. *)
Lemma run_callbacks_raf cfg cbs w :
  (1 <= rafNext w)%nat -> mouse_frames (rafQueue w) = 0%nat ->
  let w' := exec (run_callbacks cfg cbs) w in
  (1 <= rafNext w')%nat
  /\ mouse_frames (rafQueue w') = 0%nat
  /\ rafMouse w' = if existsb is_mouse_cb cbs then None else rafMouse w.
Proof.
  revert w; induction cbs as [|cb cbs IH]; intros w H1 H2; [repeat split; assumption|].
  cbn [run_callbacks]; unfold exec, bind.
  destruct (run_callback cfg cb w) as [u w1] eqn:E.
  assert (Hw1 : (1 <= rafNext w1)%nat /\ mouse_frames (rafQueue w1) = 0%nat
                /\ rafMouse w1 = if is_mouse_cb cb then None else rafMouse w).
  { replace w1 with (exec (run_callback cfg cb) w) by (unfold exec; now rewrite E).
    destruct cb; cbn [run_callback is_mouse_cb].
    - unfold loop, update, render, requestAnimationFrame; run_m.
      destruct (isRunning w); cbn -[mouse_frames]; [|repeat split; assumption].
      rewrite mouse_frames_app, H2.
      change (mouse_frames [CbLoop]) with 0%nat; repeat split; lia.
    - repeat split; assumption. }
  destruct Hw1 as (A1 & A2 & A3).
  destruct (IH w1 A1 A2) as (B1 & B2 & B3); unfold exec in *; cbn [snd].
  split; [exact B1 | split; [exact B2|]].
  rewrite B3, A3; cbn [existsb].
  destruct (is_mouse_cb cb), (existsb is_mouse_cb cbs); reflexivity.
Qed.

Lemma raf_ok_frame cfg w : raf_ok w -> raf_ok (exec (frame cfg) w).
Proof.
  intros [H1 H2]; unfold frame; run_m.
  destruct (run_callbacks_raf cfg (rafQueue w) (set_raf [] (rafNext w) w) H1 eq_refl)
    as (B1 & B2 & B3); unfold exec in *; cbn [rafMouse set_raf] in B3.
  split; [exact B1|]; rewrite B3.
  destruct (existsb is_mouse_cb (rafQueue w)) eqn:E; [exact B2|].
  destruct (rafMouse w); [|exact B2].
  rewrite (mouse_frames_none _ E) in H2; destruct H2; discriminate.
Qed.

Lemma raf_ok_step cfg ev w : raf_ok w -> raf_ok (step cfg ev w).
Proof.
  intros H; destruct ev as [v| |l|e rect| |ts rect|]; unfold step; cbn [handle].
  - unfold onVisibilityChange; run_m; destruct v; cbn [is_visible isRunning set_isRunning].
    + apply (raf_ok_loop cfg (set_isRunning true w)); exact H.
    + exact H.
  - apply raf_ok_frame; exact H.
  - refine (raf_ok_raf_state w _ _ H).
    apply keeps_exec, keeps_resize; intros; reflexivity.
  - apply raf_ok_onMouseMove; exact H.
  - exact H.
  - destruct ts; [exact H | apply raf_ok_onMouseMove; exact H].
  - exact H.
Qed.

(** X7.  The frame callback of [onMouseMove] is throttled: in every state
    the animator reaches at most one is queued, exactly when [rafMouse] holds
    its handle. *)
Theorem mouse_frame_throttled (cfg : Config) (pg : Page) (evs : list Event) :
  let w := run cfg evs (boot cfg pg) in
  (mouse_frames (rafQueue w) <= 1)%nat
  /\ (rafMouse w = None <-> mouse_frames (rafQueue w) = 0%nat).
Proof.
  assert (Hboot : raf_ok (boot cfg pg)).
  { unfold boot, init, exec, bind.
    assert (H : raf_ok (exec (resize cfg (layout pg)) (fresh pg))).
    { refine (raf_ok_raf_state (fresh pg) _ _ _).
      - apply keeps_exec, keeps_resize; intros; reflexivity.
      - split; [cbn; lia | reflexivity]. }
    unfold exec in H.
    destruct (resize cfg (layout pg) (fresh pg)) as [u w1]; cbn [snd] in *.
    apply raf_ok_loop; exact H. }
  assert (H : raf_ok (run cfg evs (boot cfg pg))).
  { revert Hboot; generalize (boot cfg pg); induction evs as [|ev evs IH];
      intros w H; [exact H|].
    cbn [run fold_left]; apply IH, raf_ok_step; exact H. }
  cbn zeta; destruct H as [_ H].
  destruct (rafMouse (run cfg evs (boot cfg pg))) as [n|].
  - destruct H as [_ H]; rewrite H; split; [lia|]; split; discriminate.
  - rewrite H; split; [lia|]; split; reflexivity.
Qed.

(** ** After the pointer has left *)

Lemma mouse_step cfg ev w :
  no_move ev ->
  mouse (step cfg ev w) = mouse w
  \/ (active (mouse (step cfg ev w)) = false /\ m_x (mouse (step cfg ev w)) = None).
Proof.
  intros Hn; destruct ev as [v| |l|e rect| |ts rect|]; unfold step; cbn [handle];
    try destruct Hn.
  - left; apply keeps_exec, keeps_onVisibilityChange; intros; reflexivity.
  - left; apply keeps_exec, keeps_frame; intros; reflexivity.
  - left; apply keeps_exec, keeps_resize; intros; reflexivity.
  - right; split; reflexivity.
  - right; split; reflexivity.
Qed.

Lemma interact_inactive cfg m p : active m = false -> interact cfg m p = p.
Proof. intros H; unfold interact; rewrite H; reflexivity. Qed.

(** X8.  Once the pointer has left the canvas or the touch has ended, and
    until the next move, an update applies no pointer force, wherever the
    pointer was last, and [render] draws no halo. *)
Theorem pointer_cleared (cfg : Config) (w : World) (evs : list Event) :
  Forall no_move evs ->
  let w' := run cfg evs (step cfg MouseLeave w) in
  step cfg TouchEnd w = step cfg MouseLeave w
  /\ active (mouse w') = false
  /\ m_x (mouse w') = None
  /\ (forall wd ht p,
         update_particle cfg wd ht (mouse w') p = damp (advance wd ht p))
  /\ halo cfg (mouse w') = [].
Proof.
  intros Hq w'.
  assert (H : active (mouse w') = false /\ m_x (mouse w') = None).
  { unfold w'.
    assert (H0 : active (mouse (step cfg MouseLeave w)) = false
                 /\ m_x (mouse (step cfg MouseLeave w)) = None) by (split; reflexivity).
    revert H0; generalize (step cfg MouseLeave w).
    induction Hq as [|ev evs Hev Hevs IH]; intros w0 H0; [exact H0|].
    cbn [run fold_left]; apply IH.
    destruct (mouse_step cfg ev w0 Hev) as [E | E]; [rewrite E; exact H0 | exact E]. }
  destruct H as [Ha Hx].
  split; [reflexivity | split; [exact Ha | split; [exact Hx | split]]].
  - intros wd ht p; unfold update_particle.
    rewrite (interact_inactive cfg _ _ Ha); reflexivity.
  - unfold halo; rewrite Ha; reflexivity.
Qed.

Lemma pointer_cleared_witness :
  let w := run CONFIG [Frame; ResizeTimer (layout page0); Frame]
             (step CONFIG MouseLeave (step CONFIG (pointer_at 3 4) (crowd 2))) in
  active (mouse w) = false /\ halo CONFIG (mouse w) = [].
Proof.
  assert (Hq : Forall no_move [Frame; ResizeTimer (layout page0); Frame])
    by (repeat constructor).
  destruct (pointer_cleared CONFIG (step CONFIG (pointer_at 3 4) (crowd 2))
              [Frame; ResizeTimer (layout page0); Frame] Hq)
    as (_ & Ha & _ & _ & Hh).
  split; assumption.
Defined.

(** ** Hiding and showing the page again *)

Lemma loop_running_queue cfg w :
  isRunning w = true ->
  let w' := exec (loop cfg) w in
  isRunning w' = true /\ rafQueue w' = rafQueue w ++ [CbLoop].
Proof.
  intros H; unfold loop, update, render, requestAnimationFrame; run_m.
  rewrite H; cbn; split; [exact H | reflexivity].
Qed.

(** Callbacks run while the animator runs: one update for each [loop]
    callback, each of which queues [loop] again. *)
Lemma run_callbacks_running cfg cbs w :
  isRunning w = true ->
  let w' := exec (run_callbacks cfg cbs) w in
  isRunning w' = true
  /\ width w' = width w /\ height w' = height w /\ mouse w' = mouse w
  /\ particles w'
     = Nat.iter (loops cbs)
         (map (update_particle cfg (width w) (height w) (mouse w))) (particles w)
  /\ loops (rafQueue w') = (loops (rafQueue w) + loops cbs)%nat.
Proof.
  revert w; induction cbs as [|cb cbs IH]; intros w H.
  - cbn; repeat split; [exact H | lia].
  - cbn [run_callbacks]; unfold exec, bind.
    destruct (run_callback cfg cb w) as [u w1] eqn:E.
    assert (Ew1 : w1 = exec (run_callback cfg cb) w) by (unfold exec; now rewrite E).
    destruct cb; cbn [run_callback] in Ew1.
    + destruct (loop_running cfg w H) as (A1 & A2 & A3 & A4).
      destruct (loop_running_queue cfg w H) as (A5 & A6).
      rewrite <- Ew1 in A1, A2, A3, A4, A5, A6.
      destruct (IH w1 A5) as (B1 & B2 & B3 & B4 & B5 & B6); unfold exec in *.
      cbn [snd].
      rewrite B5, B6, A1, A2, A3, A4, A6, loops_app.
      change (loops (CbLoop :: cbs)) with (S (loops cbs)).
      change (loops [CbLoop]) with 1%nat.
      rewrite Nat.iter_succ_r.
      repeat split; try congruence; lia.
    + assert (A : isRunning w1 = true /\ width w1 = width w /\ height w1 = height w
                  /\ mouse w1 = mouse w /\ particles w1 = particles w
                  /\ rafQueue w1 = rafQueue w) by (rewrite Ew1; repeat split; exact H).
      destruct A as (A5 & A2 & A3 & A4 & A1 & A6).
      destruct (IH w1 A5) as (B1 & B2 & B3 & B4 & B5 & B6); unfold exec in *.
      cbn [snd].
      rewrite B5, B6, A1, A2, A3, A4, A6.
      change (loops (CbMouse :: cbs)) with (loops cbs).
      repeat split; congruence.
Qed.

Lemma frame_running cfg w :
  isRunning w = true ->
  particles (step cfg Frame w)
  = Nat.iter (loops (rafQueue w))
      (map (update_particle cfg (width w) (height w) (mouse w))) (particles w)
  /\ loops (rafQueue (step cfg Frame w)) = loops (rafQueue w).
Proof.
  intros H; unfold step; cbn [handle]; unfold frame; run_m.
  destruct (run_callbacks_running cfg (rafQueue w) (set_raf [] (rafNext w) w) H)
    as (_ & _ & _ & _ & B5 & B6); unfold exec in *.
  split; [exact B5 | exact B6].
Qed.

(** X9.  While the animator runs, a repaint applies one update for each
    queued [loop] callback and queues as many again.  Showing the page queues
    one more [loop] beside those still waiting from before it was hidden, so
    after hiding and showing every repaint updates once more often than
    before. *)
Theorem resume_stacks_loops (cfg : Config) (w : World) :
  isRunning w = true ->
  let upd := map (update_particle cfg (width w) (height w) (mouse w)) in
  let k := loops (rafQueue w) in
  let w1 := step cfg (VisibilityChange visible) (step cfg (VisibilityChange hidden) w) in
  particles (step cfg Frame w) = Nat.iter k upd (particles w)
  /\ loops (rafQueue (step cfg Frame w)) = k
  /\ loops (rafQueue w1) = S k
  /\ particles w1 = upd (particles w)
  /\ particles (step cfg Frame w1) = Nat.iter (S k) upd (upd (particles w))
  /\ loops (rafQueue (step cfg Frame w1)) = S k.
Proof.
  intros H upd k w1.
  destruct (frame_running cfg w H) as [F1 F2].
  split; [exact F1 | split; [exact F2|]].
  assert (Hw1 : isRunning w1 = true /\ width w1 = width w /\ height w1 = height w
                /\ mouse w1 = mouse w /\ particles w1 = upd (particles w)
                /\ rafQueue w1 = rafQueue w ++ [CbLoop]) by (repeat split).
  destruct Hw1 as (A1 & A2 & A3 & A4 & A5 & A6).
  destruct (frame_running cfg w1 A1) as [G1 G2].
  rewrite A2, A3, A4, A5, A6, loops_app in G1.
  rewrite A6, loops_app in G2.
  change (loops [CbLoop]) with 1%nat in G1, G2.
  replace (loops (rafQueue w) + 1)%nat with (S k) in G1, G2 by (unfold k; lia).
  split; [rewrite A6, loops_app; cbn; unfold k; lia|].
  split; [exact A5 | split; [exact G1 | exact G2]].
Qed.

Lemma resume_stacks_loops_witness :
  loops (rafQueue (step CONFIG (VisibilityChange visible)
                     (step CONFIG (VisibilityChange hidden) (boot CONFIG page0))))
  = S (loops (rafQueue (boot CONFIG page0))).
Proof.
  assert (H : isRunning (boot CONFIG page0) = true).
  { unfold boot, init, exec, bind.
    assert (H0 : isRunning (exec (resize CONFIG (layout page0)) (fresh page0)) = true).
    { rewrite (keeps_exec isRunning); [reflexivity|].
      apply keeps_resize; intros; reflexivity. }
    unfold exec in H0.
    destruct (resize CONFIG (layout page0) (fresh page0)) as [u w1]; cbn [snd] in *.
    exact (proj1 (loop_running_queue CONFIG w1 H0)). }
  destruct (resume_stacks_loops CONFIG (boot CONFIG page0) H) as (_ & _ & H3 & _).
  exact H3.
Defined.

(** ** Damping *)

Lemma update_particle_idle_velocity cfg wd ht m p :
  active m = false ->
  vx (update_particle cfg wd ht m p) = vx p * 0.995
  /\ vy (update_particle cfg wd ht m p) = vy p * 0.995.
Proof.
  intros H; unfold update_particle; rewrite (interact_inactive cfg m _ H).
  unfold damp; cbn [vx vy set_vx set_vy].
  destruct (advance_velocity wd ht p) as [-> ->]; split; reflexivity.
Qed.

(** X10.  With the pointer inactive the velocity of a particle decays
    geometrically: after [n] updates it is the initial velocity times
    [0.995 ^ n], so it never grows and never changes direction. *)
Theorem idle_velocity_decay (cfg : Config) (wd ht : R) (m : Mouse) (p : Particle)
    (n : nat) :
  active m = false ->
  let q := Nat.iter n (update_particle cfg wd ht m) p in
  vx q = vx p * 0.995 ^ n
  /\ vy q = vy p * 0.995 ^ n
  /\ Rabs (vx q) <= Rabs (vx p)
  /\ Rabs (vy q) <= Rabs (vy p)
  /\ 0 <= vx q * vx p
  /\ 0 <= vy q * vy p.
Proof.
  intros H q.
  assert (Hv : vx q = vx p * 0.995 ^ n /\ vy q = vy p * 0.995 ^ n).
  { unfold q; induction n as [|n IH]; [cbn; split; lra|].
    rewrite !Nat.iter_succ.
    destruct (update_particle_idle_velocity cfg wd ht m
                (Nat.iter n (update_particle cfg wd ht m) p) H) as [-> ->].
    destruct IH as [-> ->]; cbn [pow]; split; ring. }
  destruct Hv as [Hx Hy].
  assert (Hp : 0 < 0.995 ^ n <= 1).
  { split; [apply pow_lt; lra|].
    clear; induction n as [|n IH]; cbn [pow]; [lra|]. nra. }
  split; [exact Hx | split; [exact Hy|]].
  rewrite Hx, Hy, !Rabs_mult, (Rabs_right (0.995 ^ n)) by lra.
  pose proof (Rabs_pos (vx p)); pose proof (Rabs_pos (vy p)).
  repeat split; nra.
Qed.

Lemma idle_velocity_decay_witness :
  vx (Nat.iter 2 (update_particle CONFIG 100 100 mouse0)
        {| x := 1; y := 1; size := 1; vx := 0.2; vy := 0; alpha := 0.5 |})
  = 0.2 * 0.995 ^ 2.
Proof.
  exact (proj1 (idle_velocity_decay CONFIG 100 100 mouse0
           {| x := 1; y := 1; size := 1; vx := 0.2; vy := 0; alpha := 0.5 |}
           2 eq_refl)).
Defined.

(** ** The pointer velocity *)

(** X12.  Two moves in a row store their displacement as the pointer
    velocity.  Leaving resets the last position but not the velocity, so
    the first move after a leave keeps the velocity of before the leave. *)
Theorem pointer_velocity_derivation (cfg : Config) (w : World)
    (e1 e2 : PointerEvent) (r1 r2 : Rect) :
  let w2 := step cfg (MouseMove e2 r2) (step cfg (MouseMove e1 r1) w) in
  let w3 := step cfg (MouseMove e1 r1) (step cfg MouseLeave w) in
  m_vx (mouse w2) = (clientX e2 - left r2) - (clientX e1 - left r1)
  /\ m_vy (mouse w2) = (clientY e2 - top r2) - (clientY e1 - top r1)
  /\ m_vx (mouse w3) = m_vx (mouse w)
  /\ m_vy (mouse w3) = m_vy (mouse w)
  /\ lastX (mouse w3) = Some (clientX e1 - left r1)
  /\ lastY (mouse w3) = Some (clientY e1 - top r1).
Proof.
  assert (Hm : forall e r w0,
            mouse (step cfg (MouseMove e r) w0)
            = {| m_x := Some (clientX e - left r); m_y := Some (clientY e - top r);
                 m_vx := if not_null (lastX (mouse w0))
                         then clientX e - left r - to_number (lastX (mouse w0))
                         else m_vx (mouse w0);
                 m_vy := if not_null (lastX (mouse w0))
                         then clientY e - top r - to_number (lastY (mouse w0))
                         else m_vy (mouse w0);
                 lastX := Some (clientX e - left r);
                 lastY := Some (clientY e - top r);
                 active := true |}).
  { intros e r w0; unfold step; cbn [handle].
    unfold onMouseMove, requestAnimationFrame; run_m; cbn [rafMouse set_mouse].
    destruct (falsy_handle (rafMouse w0)); reflexivity. }
  cbn zeta; rewrite !Hm; cbn.
  repeat split.
Qed.

(** ** The wrap *)

(** What [advance] does to each coordinate: one step of the velocity, and a
    coordinate that has left the margin comes back at the opposite one. *)
Lemma advance_wraps wd ht p :
  0 <= wd -> 0 <= ht ->
  let q := advance wd ht p in
  ((x p + vx p < -10 -> x q = wd + 10)
   /\ (wd + 10 < x p + vx p -> x q = -10)
   /\ (-10 <= x p + vx p <= wd + 10 -> x q = x p + vx p))
  /\ ((y p + vy p < -10 -> y q = ht + 10)
      /\ (ht + 10 < y p + vy p -> y q = -10)
      /\ (-10 <= y p + vy p <= ht + 10 -> y q = y p + vy p)).
Proof.
  intros Hw Hh; cbn zeta; unfold advance, gtb.
  repeat case_ltb; psimpl; repeat split; intros; lra.
Qed.

Lemma update_particle_position cfg wd ht m p :
  x (update_particle cfg wd ht m p) = x (advance wd ht p)
  /\ y (update_particle cfg wd ht m p) = y (advance wd ht p).
Proof.
  unfold update_particle.
  destruct (damp_position (interact cfg m (advance wd ht p))) as [-> ->].
  exact (interact_position cfg m (advance wd ht p)).
Qed.

Lemma page_const_ok c : 0 <= c < 1 -> page_ok (page_const c).
Proof.
  intros Hc; split; [unfold layout_ok; cbn; lra | intros n; exact Hc].
Defined.

(** C1.  Start the animator on any page and let any events happen.  While
    they are frames, pointer and visibility events, every particle stays
    within [[-10, width + 10]] by [[-10, height + 10]]; and whatever the
    events were, resizes included, an update step puts every particle within
    those bounds of the current surface.  The step keeps the particles in
    their places in the field and moves each by its velocity; a coordinate
    that has passed [-10] comes back at the dimension plus 10, one that has
    passed the dimension plus 10 comes back at [-10], and any other
    coordinate is left where the velocity took it. *)
Theorem wrap_invariant (cfg : Config) (pg : Page) (evs : list Event) :
  page_ok pg ->
  Forall event_ok evs ->
  let w := run cfg evs (boot cfg pg) in
  let w' := exec (update cfg) w in
  (Forall not_resize evs ->
   Forall (inside (width w) (height w)) (particles w))
  /\ Forall (inside (width w) (height w)) (particles w')
  /\ length (particles w') = length (particles w)
  /\ (forall i p, nth_error (particles w) i = Some p ->
      exists q, nth_error (particles w') i = Some q
        /\ (x p + vx p < -10 -> x q = width w + 10)
        /\ (width w + 10 < x p + vx p -> x q = -10)
        /\ (-10 <= x p + vx p <= width w + 10 -> x q = x p + vx p)
        /\ (y p + vy p < -10 -> y q = height w + 10)
        /\ (height w + 10 < y p + vy p -> y q = -10)
        /\ (-10 <= y p + vy p <= height w + 10 -> y q = y p + vy p)).
Proof.
  intros Hpg Hok w w'.
  assert (H : Inv_d w).
  { apply (run_preserves cfg Inv_d event_ok Inv_d_core (Inv_d_update cfg));
      [intros l w0 Hl; apply Inv_d_resize; exact Hl | exact Hok |].
    exact (proj1 (Inv_p_boot cfg pg Hpg)). }
  destruct H as (_ & Hw & Hh).
  split; [|split; [|split]].
  - intros Hnr.
    assert (H : Inv_p w).
    { apply (run_preserves cfg Inv_p not_resize Inv_p_core (Inv_p_update cfg));
        [intros l w0 [] | exact Hnr | apply Inv_p_boot; exact Hpg]. }
    exact (proj2 H).
  - apply update_inside; assumption.
  - subst w'; cbn; apply length_map.
  - intros i p Hi.
    exists (update_particle cfg (width w) (height w) (mouse w) p).
    split; [subst w'; cbn; now rewrite nth_error_map, Hi|].
    destruct (update_particle_position cfg (width w) (height w) (mouse w) p) as [-> ->].
    destruct (advance_wraps (width w) (height w) p Hw Hh)
      as ((X1 & X2 & X3) & (Y1 & Y2 & Y3)).
    repeat split; assumption.
Qed.

Lemma wrap_invariant_witness :
  let evs := [pointer_at 3 4; Frame; MouseLeave; ResizeTimer (layout page0); Frame] in
  let w := run CONFIG evs (boot CONFIG (page_const 0.25)) in
  Forall (inside (width w) (height w)) (particles (exec (update CONFIG) w)).
Proof.
  intros evs w.
  assert (Hc : 0 <= 0.25 < 1) by lra.
  assert (Hev : Forall event_ok evs).
  { repeat constructor; cbn; lra. }
  exact (proj1 (proj2 (wrap_invariant CONFIG (page_const 0.25) evs
                         (page_const_ok 0.25 Hc) Hev))).
Defined.

(** A particle crossing the left margin comes back at [width + 10], one
    crossing the bottom margin at [-10]. *)
Example update_wraps :
  let q := update_particle CONFIG 1366 768 mouse0 leaving in
  x q = 1376 /\ y q = -10.
Proof.
  cbn zeta.
  destruct (update_particle_position CONFIG 1366 768 mouse0 leaving) as [-> ->].
  destruct (advance_wraps 1366 768 leaving ltac:(lra) ltac:(lra))
    as ((X1 & _) & (_ & Y2 & _)).
  split; [rewrite X1 | rewrite Y2]; cbn; lra.
Qed.

(** ** Resizing in binary64 *)

Lemma upto_In n z : (0 <= z < Z.of_nat n)%Z -> In z (upto n).
Proof.
  intros H; unfold upto; apply in_map_iff.
  exists (Z.to_nat z); split; [lia | apply in_seq; lia].
Qed.

Lemma band_scan_true : band_scan = true.
Proof. vm_compute; reflexivity. Qed.

Lemma over_band_spec (C T : Z) :
  (0 <= C <= 200)%Z -> (0 <= T <= 132)%Z ->
  Binary64.over_band C T = ((7 * T <? 5 * C)%Z || band_edgeb C T).
Proof.
  intros HC HT.
  pose proof band_scan_true as H; unfold band_scan in H.
  rewrite forallb_forall in H.
  specialize (H T (upto_In 133 T ltac:(lia))).
  rewrite forallb_forall in H.
  specialize (H C (upto_In 201 C ltac:(lia))).
  now apply eqb_prop in H.
Qed.

Lemma band_edgeb_spec C T : band_edgeb C T = true <-> band_edge C T.
Proof. unfold band_edgeb, band_edge. lia. Qed.

Lemma over_exact (C T : Z) : IZR C > 1.4 * IZR T <-> (7 * T < 5 * C)%Z.
Proof.
  split; intros H.
  - apply lt_IZR; rewrite !mult_IZR; lra.
  - apply IZR_lt in H; rewrite !mult_IZR in H; lra.
Qed.

Lemma reconcile64_cases (cfg : Config) (T : Z) (w : World) :
  (0 <= T)%Z ->
  let C := Z.of_nat (length (particles w)) in
  let ps' := particles (exec (Binary64.reconcile cfg T) w) in
  (C = 0%Z -> Z.of_nat (length ps') = T)
  /\ ((0 < C < T)%Z ->
      Z.of_nat (length ps') = T /\ firstn (length (particles w)) ps' = particles w)
  /\ ((0 < C)%Z /\ (T <= C)%Z /\ Binary64.over_band C T = true ->
      Z.of_nat (length ps') = T /\ ps' = firstn (Z.to_nat T) (particles w))
  /\ ((T <= C)%Z /\ (C = 0%Z \/ Binary64.over_band C T = false) -> ps' = particles w).
Proof.
  intros HT C ps'; subst C ps'.
  unfold Binary64.reconcile, bind, gets, exec; cbn [fst snd].
  fold (Binary64.over_band (Z.of_nat (length (particles w))) T).
  set (len := length (particles w)).
  assert (Hpush : forall n, (Z.of_nat len + Z.of_nat n = T)%Z ->
            Z.of_nat (length (particles (snd (push_loop cfg n w)))) = T
            /\ firstn len (particles (snd (push_loop cfg n w))) = particles w).
  { intros n Hn. destruct (push_loop_appends cfg n w) as [news [Hp Hl]].
    unfold exec in Hp; rewrite Hp; split.
    - rewrite length_app, Hl; fold len; lia.
    - subst len; rewrite firstn_app, Nat.sub_diag, firstn_all; cbn.
      now rewrite app_nil_r. }
  destruct (Nat.eqb len 0) eqn:E0.
  - apply Nat.eqb_eq in E0.
    split; [|split; [|split]].
    + intros _; apply Hpush; lia.
    + lia.
    + lia.
    + intros [H1 _]. assert (T = 0%Z) by lia; subst T. reflexivity.
  - apply Nat.eqb_neq in E0.
    destruct (Z.of_nat len <? T)%Z eqn:E1.
    + apply Z.ltb_lt in E1.
      split; [lia | split; [| split; lia]].
      intros _; apply Hpush; lia.
    + apply Z.ltb_ge in E1.
      destruct (Binary64.over_band (Z.of_nat len) T) eqn:E2.
      * assert (Hs : slice0 (particles w) T = firstn (Z.to_nat T) (particles w)).
        { unfold slice0. destruct (T <? 0)%Z eqn:E3;
            [apply Z.ltb_lt in E3; lia|reflexivity]. }
        unfold modify; cbn [snd particles set_particles].
        split; [lia | split; [lia | split]].
        -- intros _; split; [|exact Hs].
           rewrite Hs, length_firstn. fold len. lia.
        -- intros [_ [H|H]]; [lia | discriminate].
      * unfold ret; cbn [snd].
        split; [lia | split; [lia | split]].
        -- intros (_ & _ & H); discriminate.
        -- reflexivity.
Qed.

(** C3.  The reconciliation with the test of the script, [C] being the
    number of particles (up to 200) and [T] the target (up to 132; [resize]
    computes targets from 30 to 132).  It leaves [T] particles when the field
    is empty, [T] when [0 < C < T] (the old particles stay in front), [T] when
    [C > 1.4 * T] (the first [T] particles are kept), and changes nothing
    when [T <= C <= 1.4 * T], with one exception: for [T] = 45, 85 and 90
    the double [T * 1.4] is below [1.4 * T], and the field of [C = 1.4 * T]
    particles (63, 119, 126) is cut to [T] as well. *)
Theorem resize_reconciliation (cfg : Config) (T : Z) (w : World) :
  (0 <= T <= 132)%Z -> (length (particles w) <= 200)%nat ->
  let C := Z.of_nat (length (particles w)) in
  let ps' := particles (exec (Binary64.reconcile cfg T) w) in
  (C = 0%Z -> Z.of_nat (length ps') = T)
  /\ ((0 < C < T)%Z ->
      Z.of_nat (length ps') = T /\ firstn (length (particles w)) ps' = particles w)
  /\ (IZR C > 1.4 * IZR T \/ band_edge C T ->
      Z.of_nat (length ps') = T /\ ps' = firstn (Z.to_nat T) (particles w))
  /\ ((T <= C)%Z /\ IZR C <= 1.4 * IZR T /\ ~ band_edge C T ->
      Z.of_nat (length ps') = C /\ ps' = particles w).
Proof.
  intros HT HC C ps'.
  destruct (reconcile64_cases cfg T w (proj1 HT)) as (H0 & H1 & H2 & H3).
  fold C in H0, H1, H2, H3; fold ps' in H0, H1, H2, H3.
  assert (Hob : Binary64.over_band C T = ((7 * T <? 5 * C)%Z || band_edgeb C T))
    by (apply over_band_spec; subst C; lia).
  split; [exact H0 | split; [exact H1 | split]].
  - intros H; apply H2.
    assert (Hb : ((7 * T <? 5 * C)%Z || band_edgeb C T) = true).
    { destruct H as [H | H].
      - apply over_exact in H. apply Z.ltb_lt in H. now rewrite H.
      - apply band_edgeb_spec in H. rewrite H. apply orb_true_r. }
    rewrite Hob; split; [|split; [|exact Hb]].
    + destruct H as [H | [H ?]]; [apply over_exact in H|]; lia.
    + destruct H as [H | [H ?]]; [apply over_exact in H|]; lia.
  - intros (H4 & H5 & H6).
    assert (E : ps' = particles w).
    { apply H3; split; [exact H4|].
      destruct (Z.eq_dec C 0) as [E0 | E0]; [now left | right].
      rewrite Hob. apply orb_false_iff; split.
      - apply Z.ltb_ge. destruct (Z_lt_le_dec (7 * T) (5 * C)) as [Hl | Hl]; [|exact Hl].
        apply over_exact in Hl; lra.
      - destruct (band_edgeb C T) eqn:Eb; [|reflexivity].
        apply band_edgeb_spec in Eb; contradiction. }
    split; [now rewrite E | exact E].
Qed.

Lemma crowd_small n : (n <= 200)%nat -> (length (particles (crowd n)) <= 200)%nat.
Proof. intros H; cbn; now rewrite repeat_length. Qed.

(** The pairs 0/60, 50/60, 90/60 and 70/60, and the pair 119/85 on the edge
    of the band. *)
Lemma resize_reconciliation_witness :
  let after (C : nat) (T : Z) :=
    Z.of_nat (length (particles (exec (Binary64.reconcile CONFIG T) (crowd C)))) in
  after 0%nat 60%Z = 60%Z /\ after 50%nat 60%Z = 60%Z /\ after 90%nat 60%Z = 60%Z
  /\ after 70%nat 60%Z = 70%Z /\ after 119%nat 85%Z = 85%Z.
Proof.
  intros after; subst after; cbv beta.
  assert (HT : (0 <= 60 <= 132)%Z) by lia.
  assert (HT' : (0 <= 85 <= 132)%Z) by lia.
  split; [|split; [|split; [|split]]].
  - destruct (resize_reconciliation CONFIG 60 (crowd 0) HT (crowd_small 0 ltac:(lia)))
      as (H & _); apply H; reflexivity.
  - destruct (resize_reconciliation CONFIG 60 (crowd 50) HT (crowd_small 50 ltac:(lia)))
      as (_ & H & _); apply H; rewrite crowd_count; lia.
  - destruct (resize_reconciliation CONFIG 60 (crowd 90) HT (crowd_small 90 ltac:(lia)))
      as (_ & _ & H & _); apply H; left; rewrite crowd_count; cbn; lra.
  - destruct (resize_reconciliation CONFIG 60 (crowd 70) HT (crowd_small 70 ltac:(lia)))
      as (_ & _ & _ & H).
    destruct H as [H _];
      [rewrite crowd_count; split; [lia | split; [cbn; lra | unfold band_edge; lia]]|].
    rewrite H; exact (crowd_count 70).
  - destruct (resize_reconciliation CONFIG 85 (crowd 119) HT' (crowd_small 119 ltac:(lia)))
      as (_ & _ & H & _); apply H; right; rewrite crowd_count; unfold band_edge; lia.
Defined.

(** On the edge: 85 <= 119 <= 1.4 * 85, and 34 particles are dropped. *)
Lemma reconcile_drops_within_band :
  let w := crowd 119 in
  let T := 85%Z in
  let C := Z.of_nat (length (particles w)) in
  ~ ((T <= C)%Z /\ IZR C <= 1.4 * IZR T ->
     Z.of_nat (length (particles (exec (Binary64.reconcile CONFIG T) w))) = C).
Proof.
  intros w T C H.
  assert (HC : C = 119%Z) by (subst C w; apply crowd_count).
  assert (H1 : Z.of_nat (length (particles (exec (Binary64.reconcile CONFIG T) w))) = C).
  { apply H; rewrite HC; subst T; split; [lia | lra]. }
  destruct (reconcile64_cases CONFIG T w ltac:(subst T; lia)) as (_ & _ & H2 & _).
  fold C in H2. destruct H2 as [H2 _].
  { rewrite HC; subst T; split; [lia | split; [lia | vm_compute; reflexivity]]. }
  rewrite H2 in H1. rewrite HC in H1. subst T; discriminate.
Qed.

(** *** Doubles and their values

    What follows rests on the specification of the primitive floats: the
    comparisons of two doubles are those of their mantissas and exponents. *)

Lemma digits2_bounds (m : positive) :
  (2 ^ (Z.pos (SpecFloat.digits2_pos m) - 1) <= Z.pos m
   < 2 ^ Z.pos (SpecFloat.digits2_pos m))%Z.
Proof.
  induction m as [m IH | m IH |]; cbn [SpecFloat.digits2_pos].
  - rewrite Pos2Z.inj_succ.
    replace (Z.succ (Z.pos (SpecFloat.digits2_pos m)) - 1)%Z
      with (Z.succ (Z.pos (SpecFloat.digits2_pos m) - 1)) by lia.
    rewrite !Z.pow_succ_r by lia. lia.
  - rewrite Pos2Z.inj_succ.
    replace (Z.succ (Z.pos (SpecFloat.digits2_pos m)) - 1)%Z
      with (Z.succ (Z.pos (SpecFloat.digits2_pos m) - 1)) by lia.
    rewrite !Z.pow_succ_r by lia. lia.
  - cbn; lia.
Qed.

(** A valid double [m * 2^e] has at most 53 bits, and exactly 53 unless it
    is subnormal. *)
Lemma valid_digits (s : bool) (m : positive) (e : Z) :
  FloatAxioms.valid_binary (SpecFloat.S754_finite s m e) = true ->
  (Z.pos m < 2 ^ 53)%Z /\ ((-1074 < e)%Z -> (2 ^ 52 <= Z.pos m)%Z).
Proof.
  cbn [SpecFloat.valid_binary]; unfold SpecFloat.bounded, SpecFloat.canonical_mantissa.
  intros H; apply andb_true_iff in H as [H _]; apply Z.eqb_eq in H.
  unfold SpecFloat.fexp, SpecFloat.emin in H.
  change FloatOps.prec with 53%Z in H. change FloatOps.emax with 1024%Z in H.
  pose proof (digits2_bounds m) as [Hl Hu].
  set (d := Z.pos (SpecFloat.digits2_pos m)) in *.
  assert (Hd : (0 < d)%Z) by (subst d; lia).
  split.
  - assert (d <= 53)%Z by lia.
    apply Z.lt_le_trans with (1 := Hu). apply Z.pow_le_mono_r; lia.
  - intros He. assert (d = 53)%Z by lia.
    replace 52%Z with (d - 1)%Z by lia. exact Hl.
Qed.

Lemma half_ok_spec f twice :
  half_ok f twice = true ->
  exists m e, FloatOps.Prim2SF f = SpecFloat.S754_finite false m e
    /\ (-60 <= e < 0)%Z /\ (2 ^ 52 <= Z.pos m < 2 ^ 53)%Z
    /\ scaled_value m e = (twice * 2 ^ 59)%Z.
Proof.
  unfold half_ok; destruct (FloatOps.Prim2SF f) as [| | |[|] m e]; try discriminate.
  intros H.
  apply andb_true_iff in H as [H H4]. apply andb_true_iff in H as [H H3].
  apply andb_true_iff in H as [H1 H2].
  apply Z.leb_le in H1. apply Z.ltb_lt in H2.
  apply Z.eqb_eq in H3. apply Z.eqb_eq in H4.
  exists m, e; split; [reflexivity|].
  pose proof (digits2_bounds m) as Hd.
  rewrite H3 in Hd.
  split; [split; assumption | split; [exact Hd | exact H4]].
Qed.

(** The order of two positive doubles is the order of their values. *)
Lemma SFcompare_finite (m1 m2 : positive) (e1 e2 : Z) :
  (-60 <= e1)%Z -> (-60 <= e2)%Z ->
  (Z.pos m1 < 2 ^ 53)%Z -> (Z.pos m2 < 2 ^ 53)%Z ->
  ((-1074 < e1)%Z -> (2 ^ 52 <= Z.pos m1)%Z) ->
  ((-1074 < e2)%Z -> (2 ^ 52 <= Z.pos m2)%Z) ->
  SpecFloat.SFcompare (SpecFloat.S754_finite false m1 e1)
    (SpecFloat.S754_finite false m2 e2)
  = Some (scaled_value m1 e1 ?= scaled_value m2 e2)%Z.
Proof.
  intros H1 H2 U1 U2 L1 L2; cbn [SpecFloat.SFcompare]; f_equal.
  unfold scaled_value.
  destruct (Z.compare_spec e1 e2) as [E | E | E].
  - subst e2. rewrite Pos.compare_cont_spec; cbn [Pos.switch_Eq].
    symmetry.
    assert (Hp : (0 < 2 ^ (e1 + 60))%Z) by (apply Z.pow_pos_nonneg; lia).
    destruct (Pos.compare_spec m1 m2) as [E | E | E].
    + subst; apply Z.compare_refl.
    + apply Z.compare_lt_iff. apply Z.mul_lt_mono_pos_r; [exact Hp | lia].
    + apply Z.compare_gt_iff. apply Z.mul_lt_mono_pos_r; [exact Hp | lia].
  - symmetry; apply Z.compare_lt_iff.
    assert (A2 : (-1074 < e2)%Z) by (clear - H2; lia). specialize (L2 A2).
    replace (e2 + 60)%Z with ((e1 + 60) + (e2 - e1))%Z by lia.
    rewrite (Z.pow_add_r 2 (e1 + 60) (e2 - e1)) by lia.
    assert (Hp : (0 < 2 ^ (e1 + 60))%Z) by (apply Z.pow_pos_nonneg; lia).
    assert (Hq : (2 ^ 1 <= 2 ^ (e2 - e1))%Z) by (apply Z.pow_le_mono_r; lia).
    change (2 ^ 1)%Z with 2%Z in Hq.
    change (2 ^ 53)%Z with (2 * 2 ^ 52)%Z in U1.
    assert (Hc : (0 < 2 ^ 52)%Z) by reflexivity.
    revert U1 L2 Hc Hp Hq; clear.
    generalize (2 ^ 52)%Z (2 ^ (e1 + 60))%Z (2 ^ (e2 - e1))%Z (Z.pos m1) (Z.pos m2).
    intros c P Q a1 a2 U1 L2 Hc Hp Hq.
    apply Z.lt_le_trans with (2 * c * P)%Z; [nia|].
    replace (a2 * (P * Q))%Z with (Q * a2 * P)%Z by ring.
    apply Z.mul_le_mono_nonneg_r; [lia | nia].
  - symmetry; apply Z.compare_gt_iff.
    assert (A1 : (-1074 < e1)%Z) by (clear - H1; lia). specialize (L1 A1).
    replace (e1 + 60)%Z with ((e2 + 60) + (e1 - e2))%Z by lia.
    rewrite (Z.pow_add_r 2 (e2 + 60) (e1 - e2)) by lia.
    assert (Hp : (0 < 2 ^ (e2 + 60))%Z) by (apply Z.pow_pos_nonneg; lia).
    assert (Hq : (2 ^ 1 <= 2 ^ (e1 - e2))%Z) by (apply Z.pow_le_mono_r; lia).
    change (2 ^ 1)%Z with 2%Z in Hq.
    change (2 ^ 53)%Z with (2 * 2 ^ 52)%Z in U2.
    assert (Hc : (0 < 2 ^ 52)%Z) by reflexivity.
    revert U2 L1 Hc Hp Hq; clear.
    generalize (2 ^ 52)%Z (2 ^ (e2 + 60))%Z (2 ^ (e1 - e2))%Z (Z.pos m1) (Z.pos m2).
    intros c P Q a1 a2 U2 L1 Hc Hp Hq.
    apply Z.lt_le_trans with (2 * c * P)%Z; [nia|].
    replace (a1 * (P * Q))%Z with (Q * a1 * P)%Z by ring.
    apply Z.mul_le_mono_nonneg_r; [lia | nia].
Qed.

Lemma SFleb_finite_exp (m1 m2 : positive) (e1 e2 : Z) :
  SpecFloat.SFleb (SpecFloat.S754_finite false m1 e1) (SpecFloat.S754_finite false m2 e2)
  = true -> (e1 <= e2)%Z.
Proof.
  unfold SpecFloat.SFleb; cbn [SpecFloat.SFcompare].
  destruct (Z.compare_spec e1 e2) as [E | E | E]; intros Hc; try lia; discriminate.
Qed.

Lemma SFltb_finite_exp (m1 m2 : positive) (e1 e2 : Z) :
  SpecFloat.SFltb (SpecFloat.S754_finite false m1 e1) (SpecFloat.S754_finite false m2 e2)
  = true -> (e1 <= e2)%Z.
Proof.
  unfold SpecFloat.SFltb; cbn [SpecFloat.SFcompare].
  destruct (Z.compare_spec e1 e2) as [E | E | E]; intros Hc; try lia; discriminate.
Qed.

(** [Math.round] of a double between [k - 0.5] and [k + 0.5] is [k]. *)
Lemma Math_round_near (x : PrimFloat.float) (k : Z) :
  threshold_ok k = true -> Binary64.near x k = true -> Binary64.Math_round x = k.
Proof.
  intros Ht Hn.
  apply andb_true_iff in Ht as [Hs Ht].
  apply half_ok_spec in Hs as (ms & es & Es & Hes & Hms & Vs).
  apply half_ok_spec in Ht as (mt & et & Et & Het & Hmt & Vt).
  apply andb_true_iff in Hn as [Hl Hu].
  rewrite FloatAxioms.leb_spec, Es in Hl. rewrite FloatAxioms.ltb_spec, Et in Hu.
  pose proof (FloatAxioms.Prim2SF_valid x) as Hv.
  unfold Binary64.Math_round.
  destruct (FloatOps.Prim2SF x) as [[|]|[|]| |[|] m e]; try discriminate.
  destruct (valid_digits false m e Hv) as [Um Lm].
  pose proof (SFleb_finite_exp _ _ _ _ Hl) as He1.
  pose proof (SFltb_finite_exp _ _ _ _ Hu) as He2.
  unfold SpecFloat.SFleb in Hl; unfold SpecFloat.SFltb in Hu.
  rewrite SFcompare_finite in Hl, Hu; try lia.
  assert (Hlo : (scaled_value ms es <= scaled_value m e)%Z).
  { destruct (Z.compare_spec (scaled_value ms es) (scaled_value m e));
      try lia; discriminate. }
  assert (Hhi : (scaled_value m e < scaled_value mt et)%Z).
  { destruct (Z.compare_spec (scaled_value m e) (scaled_value mt et));
      try lia; discriminate. }
  rewrite Vs in Hlo; rewrite Vt in Hhi; unfold scaled_value in Hlo, Hhi.
  destruct (0 <=? e)%Z eqn:E0; [apply Z.leb_le in E0; lia|].
  rewrite Z.shiftr_div_pow2, Z.shiftl_mul_pow2 by lia.
  replace (e + 60)%Z with (60 - - e)%Z in Hlo, Hhi by lia.
  assert (Hj : (1 <= - e <= 60)%Z) by lia.
  revert Hlo Hhi Hj; generalize (- e)%Z; intros j Hlo Hhi Hj.
  assert (E59 : (2 ^ 59 = 2 ^ (60 - j) * 2 ^ (j - 1))%Z).
  { rewrite <- Z.pow_add_r by lia. f_equal; lia. }
  assert (Ej : (2 ^ j = 2 * 2 ^ (j - 1))%Z).
  { replace j with (Z.succ (j - 1)) at 1 by lia. apply Z.pow_succ_r; lia. }
  assert (Ej1 : (2 ^ (j + 1) = 2 * 2 ^ j)%Z) by (apply Z.pow_succ_r; lia).
  assert (HQ : (0 < 2 ^ (60 - j))%Z) by (apply Z.pow_pos_nonneg; lia).
  assert (HP : (0 < 2 ^ (j - 1))%Z) by (apply Z.pow_pos_nonneg; lia).
  rewrite Ej1, Ej; rewrite E59 in Hlo, Hhi.
  revert Hlo Hhi HQ HP; clear.
  generalize (2 ^ (60 - j))%Z (2 ^ (j - 1))%Z (Z.pos m); intros Q P a Hlo Hhi HQ HP.
  assert (H1 : ((2 * k - 1) * P <= a)%Z) by nia.
  assert (H2 : (a < (2 * k + 1) * P)%Z) by nia.
  symmetry; apply Z.div_unique with (2 * a + 1 * (2 * P) - 2 * (2 * P) * k)%Z; [lia | ring].
Qed.

Lemma thresholds_ok_true : thresholds_ok = true.
Proof. vm_compute; reflexivity. Qed.

Lemma threshold_ok_true k : (30 <= k <= 132)%Z -> threshold_ok k = true.
Proof.
  intros Hk. pose proof thresholds_ok_true as H; unfold thresholds_ok in H.
  rewrite forallb_forall in H.
  replace k with (30 + Z.of_nat (Z.to_nat (k - 30)))%Z by lia.
  apply H, in_seq; lia.
Qed.

(** *** The target count *)

Lemma is_target_sound (a k : Z) :
  is_target a k = true ->
  Js.Math_round (60 * clamp (IZR a / (1366 * 768)) 0.5 2.2) = k.
Proof.
  unfold is_target; intros H.
  set (v := IZR a / (1366 * 768)).
  assert (Ev : IZR a = v * 1049088) by (unfold v; field).
  clearbody v.
  apply Math_round_eq.
  destruct (2 * a <=? 1049088)%Z eqn:E1.
  - apply Z.leb_le, IZR_le in E1; rewrite mult_IZR in E1.
    apply Z.eqb_eq in H; subst k.
    unfold clamp; destruct (Rlt_dec v 0.5), (Rlt_dec 2.2 v); lra.
  - apply Z.leb_gt, IZR_lt in E1; rewrite mult_IZR in E1.
    destruct (23079936 <=? 10 * a)%Z eqn:E2.
    + apply Z.leb_le, IZR_le in E2; rewrite mult_IZR in E2.
      apply Z.eqb_eq in H; subst k.
      unfold clamp; destruct (Rlt_dec v 0.5), (Rlt_dec 2.2 v); lra.
    + apply Z.leb_gt, IZR_lt in E2; rewrite mult_IZR in E2.
      apply andb_true_iff in H as [H1 H2].
      apply Z.leb_le, IZR_le in H1. apply Z.ltb_lt, IZR_lt in H2.
      rewrite plus_IZR, !mult_IZR in H1. rewrite mult_IZR, !plus_IZR, mult_IZR in H2.
      unfold clamp; destruct (Rlt_dec v 0.5), (Rlt_dec 2.2 v); lra.
Qed.

Lemma is_target_iff a k :
  is_target a k = true <->
  ((2 * a <= 1049088 /\ k = 30)
   \/ (1049088 < 2 * a /\ 23079936 <= 10 * a /\ k = 132)
   \/ (1049088 < 2 * a /\ 10 * a < 23079936
       /\ 2098176 * k <= 120 * a + 1049088 < 2098176 * (k + 1)))%Z.
Proof.
  unfold is_target.
  destruct (Z.leb_spec (2 * a) 1049088); [rewrite Z.eqb_eq; lia|].
  destruct (Z.leb_spec 23079936 (10 * a)); [rewrite Z.eqb_eq; lia|].
  rewrite andb_true_iff, Z.leb_le, Z.ltb_lt; lia.
Qed.

Lemma exact_next_target a k :
  (a = 0 /\ k = 30 \/ is_target (a - 1) k = true)%Z ->
  is_target a (exact_next a k) = true.
Proof.
  intros H. apply is_target_iff.
  assert (H' : (k = 30 /\ 2 * (a - 1) <= 1049088
                \/ (1049088 < 2 * (a - 1) /\ 23079936 <= 10 * (a - 1) /\ k = 132)
                \/ (1049088 < 2 * (a - 1) /\ 10 * (a - 1) < 23079936
                    /\ 2098176 * k <= 120 * (a - 1) + 1049088 < 2098176 * (k + 1)))%Z).
  { destruct H as [[-> ->] | H]; [lia|]. apply is_target_iff in H. lia. }
  clear H; unfold exact_next.
  destruct (Z.leb_spec (2 * a) 1049088); [lia|].
  destruct (Z.leb_spec 23079936 (10 * a)); [lia|].
  destruct (Z.leb_spec (2098176 * (k + 1)) (120 * a + 1049088)); lia.
Qed.

Lemma target_scan_sound n :
  let '(a, k, ok) := target_scan n in
  a = Z.of_N n
  /\ (a = 0 /\ k = 30 \/ is_target (a - 1) k = true)%Z
  /\ (ok = true ->
      forall b, (0 <= b < a)%Z -> exists kb, is_target b kb = true /\ target_near b kb = true).
Proof.
  induction n as [|n IH] using N.peano_ind.
  - cbn. split; [reflexivity | split; [left; split; reflexivity | intros _ b Hb; lia]].
  - unfold target_scan in *; rewrite N.iter_succ.
    destruct (N.iter n scan_step (0%Z, 30%Z, true)) as [[a k] ok].
    destruct IH as (Ea & Hk & Hok); cbn [scan_step].
    pose proof (exact_next_target a k Hk) as Hk'.
    split; [lia | split].
    + right. replace (a + 1 - 1)%Z with a by lia. exact Hk'.
    + intros H b Hb. apply andb_true_iff in H as [H1 H2].
      destruct (Z.eq_dec b a) as [-> | Hne].
      * exists (exact_next a k); split; assumption.
      * apply Hok; [exact H1 | lia].
Qed.

Lemma target_scan_true : target_scan 2400001 = (2400001%Z, 132%Z, true).
Proof. vm_cast_no_check (eq_refl (2400001%Z, 132%Z, true)). Qed.

Lemma is_target_range a k : is_target a k = true -> (30 <= k <= 132)%Z.
Proof. intros H; apply is_target_iff in H; lia. Qed.

Lemma targetCount64_scan a :
  (0 <= a <= 2400000)%Z ->
  exists k, is_target a k = true
    /\ Binary64.Math_round (Binary64.scaled (Binary64.of_Z a))
       = if (a =? 2141888)%Z then 122%Z else k.
Proof.
  intros Ha. pose proof (target_scan_sound 2400001) as H.
  rewrite target_scan_true in H. destruct H as (_ & _ & H).
  destruct (H eq_refl a ltac:(lia)) as (k & Hk & Hn).
  exists k; split; [exact Hk|].
  unfold target_near in Hn. apply Math_round_near; [|exact Hn].
  apply threshold_ok_true.
  destruct (a =? 2141888)%Z; [lia | exact (is_target_range a k Hk)].
Qed.

Lemma targetCount64_exact a :
  (0 <= a <= 2400000)%Z -> a <> 2141888%Z ->
  Binary64.targetCount (Binary64.of_Z a)
  = Js.Math_round (60 * clamp (IZR a / (1366 * 768)) 0.5 2.2).
Proof.
  intros Ha Hne. destruct (targetCount64_scan a Ha) as (k & Hk & E).
  unfold Binary64.targetCount; rewrite E.
  destruct (a =? 2141888)%Z eqn:Ea; [apply Z.eqb_eq in Ea; contradiction|].
  symmetry; now apply is_target_sound.
Qed.

Lemma targetCount64_range a :
  (0 <= a <= 2400000)%Z -> (30 <= Binary64.targetCount (Binary64.of_Z a) <= 132)%Z.
Proof.
  intros Ha.
  destruct (Z.eq_dec a 2141888) as [-> | Hne]; [vm_compute; split; discriminate|].
  rewrite targetCount64_exact by assumption.
  rewrite <- (targetCount_clamp CONFIG). apply targetCount_bounds.
Qed.

Lemma resize64_reconciles (l : Binary64.Layout) (w : World) :
  let wd := Binary64.or_else (Binary64.clientWidth l) (Binary64.innerWidth l) in
  let ht := Binary64.or_else (Binary64.clientHeight l) (Binary64.innerHeight l) in
  exists w1,
    particles w1 = particles w
    /\ exec (Binary64.resize l) w
       = exec (Binary64.reconcile CONFIG (Binary64.targetCount (Binary64.area wd ht))) w1.
Proof. intros wd ht; eexists; split; [|reflexivity]; reflexivity. Qed.

Lemma reconcile64_empty (cfg : Config) (T : Z) (w : World) :
  particles w = [] ->
  length (particles (exec (Binary64.reconcile cfg T) w)) = Z.to_nat T.
Proof.
  intros Hw; unfold Binary64.reconcile, bind, gets, exec; cbn [fst snd].
  rewrite Hw; cbn [length Nat.eqb].
  destruct (push_loop_appends cfg (Z.to_nat (T - 0)) w) as (news & Hp & Hl).
  unfold exec in Hp; rewrite Hp, Hw; cbn [app]; rewrite Hl; f_equal; lia.
Qed.

Lemma resize64_creates (l : Binary64.Layout) (w : World) :
  let wd := Binary64.or_else (Binary64.clientWidth l) (Binary64.innerWidth l) in
  let ht := Binary64.or_else (Binary64.clientHeight l) (Binary64.innerHeight l) in
  particles w = [] ->
  length (particles (exec (Binary64.resize l) w))
  = Z.to_nat (Binary64.targetCount (Binary64.area wd ht)).
Proof.
  intros wd ht Hw.
  destruct (resize64_reconciles l w) as (w1 & Hp & E); fold wd ht in E.
  rewrite E. apply reconcile64_empty. now rewrite Hp.
Qed.



(** From an empty field [resize] creates 122 particles on that surface. *)
Example resize_1568_by_1366 :
  let l := {| Binary64.clientWidth := 1568; Binary64.clientHeight := 1366;
              Binary64.innerWidth := 1568; Binary64.innerHeight := 1366 |} in
  length (particles (exec (Binary64.resize l) world0)) = 122%nat.
Proof.
  intros l. rewrite (resize64_creates l world0 eq_refl).
  change (Binary64.or_else (Binary64.clientWidth l) (Binary64.innerWidth l)) with 1568%Z.
  change (Binary64.or_else (Binary64.clientHeight l) (Binary64.innerHeight l)) with 1366%Z.
  vm_compute; reflexivity.
Qed.

Lemma reconcile64_agrees (cfg : Config) (T : Z) (w : World) :
  (0 <= T <= 132)%Z -> (length (particles w) <= 200)%nat ->
  ~ band_edge (Z.of_nat (length (particles w))) T ->
  exec (Binary64.reconcile cfg T) w = exec (reconcile cfg T) w.
Proof.
  intros HT HC He.
  unfold Binary64.reconcile, reconcile, exec, bind, gets; cbn [fst snd].
  fold (Binary64.over_band (Z.of_nat (length (particles w))) T).
  rewrite over_band_spec by lia.
  destruct (band_edgeb _ T) eqn:Eb; [apply band_edgeb_spec in Eb; contradiction|].
  rewrite orb_false_r.
  replace (gtb (IZR (Z.of_nat (length (particles w)))) (IZR T * 1.4))
    with (7 * T <? 5 * Z.of_nat (length (particles w)))%Z; [reflexivity|].
  unfold gtb.
  destruct (7 * T <? 5 * Z.of_nat (length (particles w)))%Z eqn:E; symmetry.
  - apply Z.ltb_lt, over_exact in E. apply ltb_true; lra.
  - apply Z.ltb_ge in E. apply ltb_false.
    destruct (Rle_dec (IZR (Z.of_nat (length (particles w)))) (IZR T * 1.4)) as [H | H];
      [exact H|].
    assert (H' : IZR (Z.of_nat (length (particles w))) > 1.4 * IZR T) by lra.
    apply over_exact in H'; lia.
Qed.

(** The edge is reached: the animator starts on a 1366 by 1523 surface with
    119 particles, the window shrinks to 1366 by 1088, whose target is 85, and
    34 particles are dropped although [85 <= 119 <= 1.4 * 85]. *)
Example resize_drops_within_band :
  let tall := {| Binary64.clientWidth := 1366; Binary64.clientHeight := 1523;
                 Binary64.innerWidth := 1366; Binary64.innerHeight := 1523 |} in
  let short := {| Binary64.clientWidth := 1366; Binary64.clientHeight := 1088;
                  Binary64.innerWidth := 1366; Binary64.innerHeight := 1088 |} in
  let w1 := exec (Binary64.resize tall) world0 in
  let w2 := exec (Binary64.resize short) w1 in
  Z.of_nat (length (particles w1)) = 119%Z
  /\ Binary64.targetCount (Binary64.area 1366 1088) = 85%Z
  /\ Z.of_nat (length (particles w2)) = 85%Z.
Proof.
  intros tall short w1 w2.
  assert (T1 : Binary64.targetCount (Binary64.area 1366 1523) = 119%Z)
    by (vm_compute; reflexivity).
  assert (T2 : Binary64.targetCount (Binary64.area 1366 1088) = 85%Z)
    by (vm_compute; reflexivity).
  assert (H1 : Z.of_nat (length (particles w1)) = 119%Z).
  { destruct (resize64_reconciles tall world0) as (v & Hv & E).
    subst w1; rewrite E.
    change (Binary64.or_else (Binary64.clientWidth tall) (Binary64.innerWidth tall))
      with 1366%Z.
    change (Binary64.or_else (Binary64.clientHeight tall) (Binary64.innerHeight tall))
      with 1523%Z.
    rewrite T1.
    destruct (reconcile64_cases CONFIG 119 v ltac:(lia)) as (H & _).
    apply H; rewrite Hv; reflexivity. }
  split; [exact H1 | split; [exact T2|]].
  destruct (resize64_reconciles short w1) as (v & Hv & E).
  subst w2; rewrite E.
  change (Binary64.or_else (Binary64.clientWidth short) (Binary64.innerWidth short))
    with 1366%Z.
  change (Binary64.or_else (Binary64.clientHeight short) (Binary64.innerHeight short))
    with 1088%Z.
  rewrite T2.
  destruct (reconcile64_cases CONFIG 85 v ltac:(lia)) as (_ & _ & H & _).
  apply H; rewrite Hv, H1.
  split; [lia | split; [lia | vm_compute; reflexivity]].
Qed.

(** ** Pausing and resuming *)

Lemma determined_ret {A} (a : A) : determined (ret a).
Proof. intros w1 w2 H; split; [reflexivity | exact H]. Qed.

Lemma determined_bind {A B} (m : M A) (k : A -> M B) :
  determined m -> (forall a, determined (k a)) -> determined (bind m k).
Proof.
  intros Hm Hk w1 w2 H; unfold bind.
  destruct (Hm w1 w2 H) as [Hf Hs].
  destruct (m w1) as [a1 v1], (m w2) as [a2 v2]; cbn [fst snd] in *; subst a2.
  exact (Hk a1 v1 v2 Hs).
Qed.

Lemma determined_gets {A} (f : World -> A) :
  (forall w1 w2, same_core w1 w2 -> f w1 = f w2) -> determined (gets f).
Proof. intros Hf w1 w2 H; split; [exact (Hf w1 w2 H) | exact H]. Qed.

Lemma determined_modify (f : World -> World) :
  (forall w1 w2, same_core w1 w2 -> same_core (f w1) (f w2)) -> determined (modify f).
Proof. intros Hf w1 w2 H; split; [reflexivity | exact (Hf w1 w2 H)]. Qed.

Lemma determined_Math_random : determined Math_random.
Proof.
  intros w1 w2 (Hp & Hw & Hh & Hr); cbn; rewrite Hr; repeat split; assumption.
Qed.

Lemma determined_createParticle cfg : determined (createParticle cfg).
Proof.
  unfold createParticle, rand.
  repeat first
    [ apply determined_ret
    | apply determined_Math_random
    | apply determined_gets; intros w1 w2 (Hp & Hw & Hh & Hr); congruence
    | apply determined_bind; [|intros ?] ].
Qed.

Lemma determined_push_loop cfg n : determined (push_loop cfg n).
Proof.
  induction n as [|n IH]; cbn [push_loop]; [apply determined_ret|].
  apply determined_bind; [|intros _; exact IH].
  apply determined_bind; [apply determined_createParticle|]; intros p.
  apply determined_modify; intros w1 w2 (Hp & Hw & Hh & Hr); cbn.
  rewrite Hp; repeat split; assumption.
Qed.

Lemma determined_resize cfg l : determined (resize cfg l).
Proof.
  unfold resize, reconcile.
  apply determined_bind;
    [apply determined_modify; intros w1 w2 (Hp & Hw & Hh & Hr); repeat split; assumption|].
  intros _; apply determined_bind;
    [apply determined_gets; intros w1 w2 (Hp & Hw & Hh & Hr); congruence|].
  intros wd; apply determined_bind;
    [apply determined_gets; intros w1 w2 (Hp & Hw & Hh & Hr); congruence|].
  intros ht; apply determined_bind;
    [apply determined_gets; intros w1 w2 (Hp & Hw & Hh & Hr); congruence|].
  intros len.
  destruct (Nat.eqb len 0); [apply determined_push_loop|].
  destruct (Z.of_nat len <? _)%Z; [apply determined_push_loop|].
  destruct (gtb _ _); [|apply determined_ret].
  apply determined_modify; intros w1 w2 (Hp & Hw & Hh & Hr); cbn.
  rewrite Hp; repeat split; assumption.
Qed.

Lemma prng_step cfg ev w : not_resize ev -> prng (step cfg ev w) = prng w.
Proof.
  intros Hn; destruct ev as [v| |l|e rect| |ts rect|]; unfold step; cbn [handle].
  - apply keeps_exec, keeps_onVisibilityChange; intros; reflexivity.
  - apply keeps_exec, keeps_frame; intros; reflexivity.
  - destruct Hn.
  - exact (proj2 (proj2 (proj2 (onMouseMove_core e rect w)))).
  - reflexivity.
  - exact (proj2 (proj2 (proj2 (onTouchMove_core ts rect w)))).
  - reflexivity.
Qed.

Lemma quiet_not_resize ev : quiet ev -> not_resize ev.
Proof. destruct ev; cbn; auto. Qed.

(** One event while paused: nothing is painted, [isRunning] stays false, no
    [loop] is queued, and only a resize touches the core. *)
Lemma step_hidden cfg ev w :
  while_hidden ev -> isRunning w = false ->
  let w' := step cfg ev w in
  isRunning w' = false
  /\ painted w' = painted w
  /\ (is_resize ev = false -> same_core w w')
  /\ (~ In CbLoop (rafQueue w) \/ ev = Frame -> ~ In CbLoop (rafQueue w')).
Proof.
  intros Hh H w'.
  destruct (is_resize ev) eqn:E.
  - destruct ev as [v| |l|e rect| |ts rect|]; try discriminate.
    subst w'; unfold step; cbn [handle].
    split; [|split; [|split]].
    + rewrite <- H. apply keeps_exec, keeps_resize; intros; reflexivity.
    + apply keeps_exec, keeps_resize; intros; reflexivity.
    + discriminate.
    + intros [Hn | Habs]; [|discriminate].
      replace (rafQueue (exec (resize cfg l) w)) with (rafQueue w); [exact Hn|].
      symmetry; apply keeps_exec, keeps_resize; intros; reflexivity.
  - assert (Hq : quiet ev) by (destruct ev as [[|]| | | | | |]; cbn in *; auto; discriminate).
    destruct (step_paused cfg ev w Hq H) as [(A1 & A2 & A3 & A4 & A5) An].
    split; [exact A1 | split; [exact A3 | split; [|exact An]]].
    intros _; repeat split; try assumption.
    apply prng_step, quiet_not_resize, Hq.
Qed.

Lemma same_core_sym w1 w2 : same_core w1 w2 -> same_core w2 w1.
Proof. intros (A1 & A2 & A3 & A4); repeat split; congruence. Qed.

(** A resize moves no particle: it appends new ones behind the old, or keeps
    a front part of the old. *)
Lemma resize_moves_none cfg l w :
  let ps := particles w in
  let ps' := particles (exec (resize cfg l) w) in
  (exists news, ps' = ps ++ news) \/ (exists n, ps' = firstn n ps).
Proof.
  cbn zeta; unfold resize, reconcile, exec, bind, gets, modify; cbn [fst snd].
  cbn [particles set_surface].
  match goal with
  | |- context [snd ((if ?c then _ else _) ?w1)] => set (v := w1); destruct c
  end.
  - left. destruct (push_loop_appends cfg (Z.to_nat (targetCount cfg (width v * height v) - 0)) v)
      as (news & Hn & _). exists news; exact Hn.
  - match goal with
    | |- context [snd ((if ?c then _ else _) v)] => destruct c
    end.
    + left. match goal with
      | |- context [push_loop cfg ?n v] =>
          destruct (push_loop_appends cfg n v) as (news & Hn & _)
      end. exists news; exact Hn.
    + match goal with
      | |- context [snd ((if ?c then _ else _) v)] => destruct c
      end.
      * right; cbn. unfold slice0.
        destruct (_ <? 0)%Z; eexists; reflexivity.
      * left; exists []; cbn; now rewrite app_nil_r.
Qed.

(** While paused the core is what the resizes alone make of it. *)
Lemma run_hidden cfg evs w v :
  Forall while_hidden evs -> isRunning w = false -> same_core v w ->
  let w' := run cfg evs w in
  isRunning w' = false
  /\ painted w' = painted w
  /\ same_core (run cfg (resizes evs) v) w'
  /\ (~ In CbLoop (rafQueue w) \/ In Frame evs -> ~ In CbLoop (rafQueue w')).
Proof.
  revert w v; induction evs as [|ev evs IH]; intros w v Hq H Hc.
  - cbn; split; [exact H | split; [reflexivity | split; [exact Hc|]]].
    intros [Hn | []]; exact Hn.
  - inversion Hq as [|? ? Hev Hevs]; subst.
    destruct (step_hidden cfg ev w Hev H) as (A1 & A2 & A3 & An).
    cbn [run fold_left]; fold (run cfg evs (step cfg ev w)).
    assert (Hv : exists v', run cfg (resizes (ev :: evs)) v = run cfg (resizes evs) v'
                            /\ same_core v' (step cfg ev w)).
    { unfold resizes; cbn [filter].
      destruct (is_resize ev) eqn:E.
      - destruct ev as [?| |l|? ?| |? ?|]; try discriminate.
        exists (step cfg (ResizeTimer l) v); split; [reflexivity|].
        exact (proj2 (determined_resize cfg l v w Hc)).
      - exists v; split; [reflexivity|].
        exact (same_core_trans _ _ _ Hc (A3 eq_refl)). }
    destruct Hv as (v' & -> & Hc').
    destruct (IH (step cfg ev w) v' Hevs A1 Hc') as (B1 & B2 & B3 & Bn).
    split; [exact B1 | split; [congruence | split; [exact B3|]]].
    intros [Hn | [Hf | Hin]]; apply Bn; auto.
Qed.

Lemma resizes_none evs : Forall not_resize evs -> resizes evs = [].
Proof.
  induction 1 as [|ev evs Hev _ IH]; [reflexivity|].
  unfold resizes in *; cbn [filter]; destruct ev; cbn in *; try exact IH; destruct Hev.
Qed.

(** C7.  When the page is hidden the listener clears [isRunning] and updates
    nothing.  From then on, whatever reaches the animator before the page is
    shown again (frames, pointer and touch events, further hidden
    notifications, the resize timer), [isRunning] stays false, nothing is
    painted, [loop] returns at once, and after the first frame no [loop]
    callback is queued.  No update runs: the particles are the ones the
    resizes among the events make of the particles of the moment of hiding,
    a resize only appending new particles or keeping a front part of the
    field; without a resize they are the same particles.  When the page is
    shown again, [isRunning] is set, [loop] is queued again, and the
    particles are one update step from exactly the last particles. *)
Theorem pause_and_resume (cfg : Config) (w0 : World) (evs : list Event) :
  Forall while_hidden evs ->
  let w := step cfg (VisibilityChange hidden) w0 in
  let w' := run cfg evs w in
  let w'' := step cfg (VisibilityChange visible) w' in
  (isRunning w = false /\ particles w = particles w0 /\ painted w = painted w0)
  /\ (isRunning w' = false /\ painted w' = painted w0)
  /\ particles w' = particles (run cfg (resizes evs) w0)
  /\ (forall l v,
        let ps := particles v in
        let ps' := particles (step cfg (ResizeTimer l) v) in
        (exists news, ps' = ps ++ news) \/ (exists n, ps' = firstn n ps))
  /\ (Forall not_resize evs -> particles w' = particles w0)
  /\ exec (loop cfg) w' = w'
  /\ (In Frame evs -> ~ In CbLoop (rafQueue w'))
  /\ (isRunning w'' = true
      /\ particles w''
         = map (update_particle cfg (width w') (height w') (mouse w')) (particles w')
      /\ In CbLoop (rafQueue w'')).
Proof.
  intros Hq w w' w''.
  assert (H1 : isRunning w = false) by reflexivity.
  assert (Hc : same_core w0 w) by (repeat split).
  subst w'' w'.
  destruct (run_hidden cfg evs w w0 Hq H1 Hc) as (B1 & B2 & (B3 & _) & Bn).
  split; [repeat split|].
  split; [split; [exact B1 | exact B2]|].
  split; [exact B3|].
  split; [intros l v; exact (resize_moves_none cfg l v)|].
  split; [intros Hn; rewrite B3, (resizes_none evs Hn); reflexivity|].
  split; [apply loop_paused; exact B1|].
  split; [intros Hin; apply Bn; right; exact Hin|].
  destruct (resume_step cfg (run cfg evs w)) as (C1 & C2 & C3 & C4).
  split; [exact C1 | split; [exact C2|]].
  rewrite C4, in_app_iff; right; left; reflexivity.
Qed.

(** A frame, a resize, a pointer move and another frame while hidden. *)
Lemma pause_and_resume_witness :
  let evs := [Frame; ResizeTimer (layout page0); pointer_at 3 4; Frame] in
  let w := step CONFIG (VisibilityChange hidden) (crowd 3) in
  let w' := run CONFIG evs w in
  isRunning w' = false /\ painted w' = painted (crowd 3)
  /\ particles w' = particles (step CONFIG (ResizeTimer (layout page0)) (crowd 3))
  /\ ~ In CbLoop (rafQueue w').
Proof.
  intros evs w w'.
  assert (Hq : Forall while_hidden evs) by (repeat constructor).
  destruct (pause_and_resume CONFIG (crowd 3) evs Hq)
    as (_ & (H1 & H2) & H3 & _ & _ & _ & H4 & _).
  split; [exact H1 | split; [exact H2 | split; [exact H3|]]].
  apply H4; left; reflexivity.
Defined.

(** ** The divisions of the update step *)

Lemma divide_nonzero a c : c <> 0 -> divide a c = Some (a / c).
Proof. intros H; unfold divide; destruct (Req_dec_T c 0); [contradiction | reflexivity]. Qed.

Lemma direction_total dx dy dist :
  direction dx dy dist = Some (dx / or_else dist 1, dy / or_else dist 1).
Proof.
  unfold direction; rewrite !divide_nonzero by apply or_else_nonzero; reflexivity.
Qed.

(** No division of the interaction meets a zero divisor, and the result is
    the one [interact] computes. *)
Lemma interact_checked_total cfg m p :
  interact_checked cfg m p = Some (interact cfg m p).
Proof.
  unfold interact_checked, interact.
  destruct (active m && not_null (m_x m)); [|reflexivity].
  set (dx := x p - to_number (m_x m)); set (dy := y p - to_number (m_y m)).
  destruct (ltb (Math_sqrt (dx * dx + dy * dy)) (mouseRadius cfg)) eqn:E; [|reflexivity].
  apply ltb_true in E.
  assert (Hd : 0 <= Math_sqrt (dx * dx + dy * dy)) by apply sqrt_pos.
  rewrite divide_nonzero by lra.
  rewrite direction_total; reflexivity.
Qed.

Lemma direction_at_zero : direction 0 0 0 = Some (0, 0).
Proof.
  rewrite direction_total. unfold or_else.
  destruct (Req_dec_T 0 0) as [_ | H]; [|contradiction H; reflexivity].
  f_equal; f_equal; lra.
Qed.

Lemma direction_unguarded_at_zero : direction_unguarded 0 0 0 = None.
Proof.
  unfold direction_unguarded, divide.
  destruct (Req_dec_T 0 0) as [_ | H]; [reflexivity | contradiction H; reflexivity].
Qed.

(** C9.  No division of the update step meets a zero divisor: with the
    divisions made through [divide], the update of a particle always has a
    result, the one [update_particle] computes.  The guard does it: at
    distance 0 the direction computed with [dist || 1] is [(0, 0)], while
    without the guard it would have no result.  In every state the animator
    reaches, a particle that its move puts exactly on the active pointer has
    distance 0, divisor 1 and direction [(0, 0)], and the update multiplies
    its velocity by 0.995 and changes it in no other way. *)
Theorem update_at_zero_distance (cfg : Config) (pg : Page) (evs : list Event) :
  0 <= speedRange cfg ->
  (forall n, 0 <= randoms pg n < 1) ->
  let w := run cfg evs (boot cfg pg) in
  (forall wd ht m p,
      update_particle_checked cfg wd ht m p = Some (update_particle cfg wd ht m p))
  /\ direction_unguarded 0 0 0 = None
  /\ Forall (fun p =>
       let q := advance (width w) (height w) p in
       active (mouse w) = true ->
       m_x (mouse w) = Some (x q) ->
       m_y (mouse w) = Some (y q) ->
       let dx := x q - to_number (m_x (mouse w)) in
       let dy := y q - to_number (m_y (mouse w)) in
       let dist := Math_sqrt (dx * dx + dy * dy) in
       dist = 0
       /\ or_else dist 1 = 1
       /\ direction dx dy dist = Some (0, 0)
       /\ exists q',
            update_particle_checked cfg (width w) (height w) (mouse w) p = Some q'
            /\ vx q' = vx p * 0.995 /\ vy q' = vy p * 0.995)
     (particles w).
Proof.
  intros Hs Hr w.
  assert (Htotal : forall wd ht m p,
             update_particle_checked cfg wd ht m p = Some (update_particle cfg wd ht m p)).
  { intros wd ht m p; unfold update_particle_checked, update_particle.
    rewrite interact_checked_total; reflexivity. }
  split; [exact Htotal | split; [exact direction_unguarded_at_zero |]].
  destruct (Inv_v_reachable cfg pg evs Hs Hr) as [_ Hf]; fold w in Hf.
  revert Hf; apply Forall_impl; intros p Hp q Ha Hx Hy.
  destruct (update_at_pointer cfg (width w) (height w) (mouse w) p Hp Ha Hx Hy)
    as (Hd & Ho & H1 & H2 & Hv1 & Hv2).
  cbn zeta; fold q.
  split; [exact Hd | split; [exact Ho | split]].
  - rewrite direction_total.
    fold q in H1, H2; cbn zeta in H1, H2; rewrite H1, H2; reflexivity.
  - eexists; split; [apply Htotal | split; assumption].
Qed.

(** *** A run that puts the pointer on moving particles

    With every draw 0.25, [init] makes 60 particles at [(341.5, 192)] with
    velocity [(-0.15, -0.15)] and moves them once; the pointer then goes
    where their next move takes them. *)

Lemma boot_page_const c :
  -10 <= c * 1366 + (c - 0.5) * 0.6 <= 1376 ->
  -10 <= c * 768 + (c - 0.5) * 0.6 <= 778 ->
  let w := boot CONFIG (page_const c) in
  particles w
  = repeat (damp (set_y (c * 768 + (c - 0.5) * 0.6)
                    (set_x (c * 1366 + (c - 0.5) * 0.6) (newborn CONFIG c 1366 768)))) 60
  /\ width w = 1366 /\ height w = 768 /\ mouse w = mouse0.
Proof.
  intros Hx Hy.
  assert (Hk : targetCount CONFIG (1366 * 768) = Z.of_nat 60).
  { apply targetCount_value.
    replace (1366 * 768 / (1366 * 768)) with 1 by (field; lra).
    unfold clamp; destruct (Rlt_dec 1 0.5), (Rlt_dec 2.2 1); cbn; lra. }
  assert (Hw : or_else 1366 1366 = 1366) by (apply or_else_left; lra).
  assert (Hh : or_else 768 768 = 768) by (apply or_else_left; lra).
  destruct (resize_empty_const CONFIG (layout page0) c 60 (fresh (page_const c))
              eq_refl (fun _ => eq_refl)) as (A1 & A2 & A3 & A4 & A5).
  { cbn [layout page0 clientWidth clientHeight innerWidth innerHeight].
    rewrite Hw, Hh; exact Hk. }
  unfold boot, init, exec, bind in *.
  change (layout (page_const c)) with (layout page0).
  destruct (resize CONFIG (layout page0) (fresh (page_const c))) as [u w1]; cbn [snd] in *.
  cbn [layout page0 clientWidth clientHeight innerWidth innerHeight] in A1, A2, A3.
  rewrite Hw, Hh in A1; rewrite Hw in A2; rewrite Hh in A3.
  destruct (loop_running CONFIG w1 A5) as (B1 & B2 & B3 & B4); unfold exec in *.
  rewrite B1, B2, B3, B4, A1, A2, A3, A4, map_repeat.
  rewrite update_particle_idle by (cbn; lra).
  repeat split.
Qed.

Lemma update_at_zero_distance_witness :
  let w := run CONFIG [pointer_at 341.20075 191.70075] (boot CONFIG (page_const 0.25)) in
  particles w <> []
  /\ Forall (fun p =>
       vx p = -0.14925 /\ vy p = -0.14925
       /\ exists q',
            update_particle_checked CONFIG (width w) (height w) (mouse w) p = Some q'
            /\ vx q' = vx p * 0.995 /\ vy q' = vy p * 0.995)
     (particles w).
Proof.
  intros w.
  assert (Hs : 0 <= speedRange CONFIG) by (cbn; lra).
  assert (Hr : forall n, 0 <= randoms (page_const 0.25) n < 1) by (intros n; cbn; lra).
  destruct (update_at_zero_distance CONFIG (page_const 0.25)
              [pointer_at 341.20075 191.70075] Hs Hr) as (_ & _ & Hf).
  fold w in Hf.
  destruct (boot_page_const 0.25) as (B1 & B2 & B3 & B4); [lra | lra |].
  assert (Hc : same_core (boot CONFIG (page_const 0.25)) w)
    by (apply onMouseMove_core).
  destruct Hc as (C1 & C2 & C3 & _).
  destruct (onMouseMove_mouse {| clientX := 341.20075; clientY := 191.70075 |}
              {| left := 0; top := 0 |} (boot CONFIG (page_const 0.25))) as (M1 & M2 & M3).
  change (exec (onMouseMove {| clientX := 341.20075; clientY := 191.70075 |}
                  {| left := 0; top := 0 |}) (boot CONFIG (page_const 0.25)))
    with w in M1, M2, M3.
  cbn [clientX clientY left top] in M2, M3.
  set (p0 := damp (set_y (0.25 * 768 + (0.25 - 0.5) * 0.6)
                     (set_x (0.25 * 1366 + (0.25 - 0.5) * 0.6)
                        (newborn CONFIG 0.25 1366 768)))) in *.
  assert (Hq : advance 1366 768 p0
               = set_y (y p0 + vy p0) (set_x (x p0 + vx p0) p0)).
  { apply advance_free; unfold p0; cbn; lra. }
  rewrite C1, C2, C3, B1, B2, B3 in *.
  split; [discriminate|].
  apply Forall_forall; intros p Hin.
  pose proof (proj1 (Forall_forall _ _) Hf p Hin) as H; cbn zeta in H.
  apply repeat_spec in Hin; subst p.
  assert (Ex : x (advance 1366 768 p0) = 341.20075 - 0)
    by (rewrite Hq; unfold p0; cbn; lra).
  assert (Ey : y (advance 1366 768 p0) = 191.70075 - 0)
    by (rewrite Hq; unfold p0; cbn; lra).
  rewrite Ex, Ey in H.
  destruct (H M1 M2 M3) as (_ & _ & _ & Hv).
  split; [unfold p0; cbn; lra | split; [unfold p0; cbn; lra | exact Hv]].
Defined.

(** * The older engine *)

Module LegacyFacts.
Import Legacy.

Lemma iter_push n w :
  let w' := Nat.iter n push w in
  length (particlesArray w') = (length (particlesArray w) + n)%nat
  /\ canvas_width w' = canvas_width w
  /\ canvas_height w' = canvas_height w
  /\ painted w' = painted w /\ frames w' = frames w.
Proof.
  induction n as [|n IH]; [cbn; repeat split; lia|].
  rewrite Nat.iter_succ; cbn zeta in *.
  destruct IH as (A1 & A2 & A3 & A4 & A5).
  cbn [push particlesArray canvas_width canvas_height painted frames].
  rewrite length_app, A1; cbn; repeat split; try assumption; lia.
Qed.

Lemma iter_push_fresh n w :
  random_ok w -> 0 <= canvas_width w -> 0 <= canvas_height w ->
  Forall (fresh_on (canvas_width w) (canvas_height w)) (particlesArray w) ->
  let w' := Nat.iter n push w in
  random_ok w'
  /\ Forall (fresh_on (canvas_width w) (canvas_height w)) (particlesArray w').
Proof.
  intros Hr Hw Hh Hf; induction n as [|n IH]; [split; assumption|].
  rewrite Nat.iter_succ; cbn zeta in *.
  destruct IH as [Ir If].
  destruct (iter_push n w) as (_ & A2 & A3 & _).
  split; [intros k; apply Ir|].
  cbn [push particlesArray]; apply Forall_app; split; [exact If|].
  constructor; [|constructor].
  unfold fresh_on, new_particle; cbn [x y size speedX speedY]; rewrite A2, A3.
  pose proof (Ir 0%nat); pose proof (Ir 1%nat); pose proof (Ir 2%nat);
    pose proof (Ir 3%nat); pose proof (Ir 4%nat).
  repeat split; try nra; apply Rabs_le; lra.
Qed.

(** X13.  [initParticles] throws the old particles away and makes
    [max (40, floor (width * height / 90000))] new ones, so never fewer than
    40; each lies on the canvas, has a radius between 1 and 3 and moves at
    most 0.25 per frame on each axis. *)
Theorem initParticles_count (innerWidth innerHeight : R) (w : World) :
  random_ok w -> 0 <= innerWidth -> 0 <= innerHeight ->
  let w' := initParticles innerWidth innerHeight w in
  length (particlesArray w')
  = Z.to_nat (Z.max 40 (Zfloor (innerWidth * innerHeight / 90000)))
  /\ (40 <= length (particlesArray w'))%nat
  /\ canvas_width w' = innerWidth /\ canvas_height w' = innerHeight
  /\ Forall (fun p => (0 <= x p <= innerWidth) /\ (0 <= y p <= innerHeight)
                      /\ (1 <= size p <= 3)
                      /\ Rabs (speedX p) <= 0.25 /\ Rabs (speedY p) <= 0.25)
       (particlesArray w').
Proof.
  intros Hr Hw Hh w'; unfold w', initParticles; cbn zeta.
  cbn [canvas_width canvas_height].
  set (n := Z.to_nat (Z.max 40 (Zfloor (innerWidth * innerHeight / 90000)))).
  set (w0 := {| canvas_width := innerWidth; canvas_height := innerHeight;
                particlesArray := []; painted := painted w;
                frames := frames w; prng := prng w |}).
  destruct (iter_push n w0) as (A1 & A2 & A3 & _).
  destruct (iter_push_fresh n w0 Hr Hw Hh (Forall_nil _)) as [_ Hf].
  cbn zeta in *; cbn in A1.
  repeat split; try assumption; unfold n in *; lia.
Qed.

Lemma initParticles_count_witness :
  (40 <= length (particlesArray (initParticles 1366 768 steady)))%nat.
Proof.
  assert (Hr : random_ok steady) by (intros n; cbn; lra).
  assert (Hw : 0 <= 1366) by lra.
  assert (Hh : 0 <= 768) by lra.
  destruct (initParticles_count 1366 768 steady Hr Hw Hh) as (_ & H & _).
  exact H.
Defined.

Ltac case_cmp :=
  match goal with
  | |- context [if ltb ?a ?c then _ else _] =>
      lazymatch a with
      | context [ltb] => fail
      | _ =>
          lazymatch c with
          | context [ltb] => fail
          | _ =>
              let E := fresh "E" in
              destruct (ltb a c) eqn:E;
              [apply ltb_true in E | apply ltb_false in E]
          end
      end
  end.

Lemma move_inside cw ch p :
  0 <= cw -> 0 <= ch ->
  (0 <= x (move cw ch p) <= cw) /\ (0 <= y (move cw ch p) <= ch).
Proof.
  intros Hw Hh; unfold move, gtb; cbn [x y].
  repeat case_cmp; lra.
Qed.

(** X14.  After [animateParticles] every particle lies on the canvas as it
    is at that call, wherever it was before; the number of particles, their
    radii and their speeds are unchanged.  The discs of the frame are drawn
    at the positions before the move. *)
Theorem animateParticles_wraps (w : World) :
  0 <= canvas_width w -> 0 <= canvas_height w ->
  let w' := animateParticles w in
  Forall (fun p => (0 <= x p <= canvas_width w) /\ (0 <= y p <= canvas_height w))
    (particlesArray w')
  /\ map size (particlesArray w') = map size (particlesArray w)
  /\ map speedX (particlesArray w') = map speedX (particlesArray w)
  /\ map speedY (particlesArray w') = map speedY (particlesArray w)
  /\ (forall i p, nth_error (particlesArray w) i = Some p ->
                  In (disc p) (painted w')).
Proof.
  intros Hw Hh w'; unfold w', animateParticles; cbn [particlesArray painted].
  split; [|split; [|split; [|split]]].
  - apply Forall_map, Forall_forall; intros p _; apply move_inside; assumption.
  - rewrite map_map; reflexivity.
  - rewrite map_map; reflexivity.
  - rewrite map_map; reflexivity.
  - intros i p Hi; rewrite !in_app_iff; right; right; left.
    apply in_map; exact (nth_error_In _ _ Hi).
Qed.

Lemma animateParticles_wraps_witness :
  Forall (fun p => (0 <= x p <= 1366) /\ (0 <= y p <= 768))
    (particlesArray (animateParticles (initParticles 1366 768 steady))).
Proof.
  assert (Hr : random_ok steady) by (intros n; cbn; lra).
  destruct (initParticles_count 1366 768 steady Hr) as (_ & _ & Ew & Eh & _);
    [lra | lra |].
  pose proof (animateParticles_wraps (initParticles 1366 768 steady)) as H.
  rewrite Ew, Eh in H.
  destruct H as [H _]; [lra | lra | exact H].
Defined.

Lemma connect_self p :
  connect p p
  = [Stroke {| cr := 0; cg := 245; cb := 255; ca := 0.1 |} 0.5
       (x p) (y p) (x p) (y p)].
Proof.
  unfold connect.
  replace ((x p - x p) * (x p - x p) + (y p - y p) * (y p - y p)) with 0 by ring.
  unfold Math_sqrt; rewrite sqrt_0.
  destruct (ltb 0 120) eqn:E; [reflexivity | apply ltb_false in E; lra].
Qed.

Lemma connectParticles_self ps p :
  In p ps ->
  In (Stroke {| cr := 0; cg := 245; cb := 255; ca := 0.1 |} 0.5
        (x p) (y p) (x p) (y p))
     (connectParticles ps).
Proof.
  induction ps as [|a rest IH]; intros H; [destruct H|].
  cbn [connectParticles connect_row flat_map]; destruct H as [H | H].
  - subst a; rewrite connect_self; left; reflexivity.
  - rewrite !in_app_iff; right; exact (IH H).
Qed.

Lemma connectParticles_length ps : (length ps <= length (connectParticles ps))%nat.
Proof.
  induction ps as [|a rest IH]; [cbn; lia|].
  cbn [connectParticles connect_row flat_map].
  rewrite !length_app, connect_self; cbn [length]; lia.
Qed.

(** X15.  The inner loop of [connectParticles] starts at the particle
    itself, so every frame strokes, for each particle, a line from the
    particle to itself, and at least as many lines as there are particles. *)
Theorem connectParticles_connects_self (w : World) :
  (forall p, In p (particlesArray (animateParticles w)) ->
             In (Stroke {| cr := 0; cg := 245; cb := 255; ca := 0.1 |} 0.5
                   (x p) (y p) (x p) (y p))
                (painted (animateParticles w)))
  /\ (length (particlesArray w)
      <= length (connectParticles (particlesArray (animateParticles w))))%nat.
Proof.
  split.
  - intros p Hp; unfold animateParticles in *; cbn [particlesArray painted] in *.
    rewrite !in_app_iff; right; right; right.
    apply connectParticles_self; exact Hp.
  - pose proof (connectParticles_length (particlesArray (animateParticles w))) as H.
    unfold animateParticles in H at 1; cbn [particlesArray] in H.
    rewrite length_map in H; exact H.
Qed.

End LegacyFacts.

(** * The counters of the statistics *)

Module StatCounterFacts.
Import StatCounter.

Lemma reached_le v m : reached m (Finite v) = true <-> v <= INR m.
Proof.
  unfold reached; destruct (Rle_dec v (INR m)); split; intros; auto; discriminate.
Qed.

Lemma reached_ceil v m :
  (1 <= m)%nat ->
  reached m (Finite v) = (Z.to_nat (Z.max 1 (Zceil v)) <=? m)%nat.
Proof.
  intros Hm; pose proof (Zceil_bound v) as [Hc1 Hc2].
  destruct (Z.to_nat (Z.max 1 (Zceil v)) <=? m)%nat eqn:E.
  - apply Nat.leb_le in E; apply reached_le.
    rewrite INR_IZR_INZ.
    assert (IZR (Zceil v) <= IZR (Z.of_nat m)) by (apply IZR_le; lia).
    lra.
  - apply Nat.leb_gt in E.
    destruct (reached m (Finite v)) eqn:R; [|reflexivity].
    apply reached_le in R; rewrite INR_IZR_INZ in R.
    assert (IZR (Zceil v) - 1 < IZR (Z.of_nat m)) by lra.
    assert (IZR (Zceil v) < IZR (Z.of_nat m + 1)) by (rewrite plus_IZR; lra).
    apply lt_IZR in H0; lia.
Qed.

Lemma tick_running c :
  ticking c = true ->
  tick c = {| target := target c; count := S (count c);
              textContent := Some (S (count c));
              ticking := negb (reached (S (count c)) (target c)) |}.
Proof. intros H; unfold tick; rewrite H; reflexivity. Qed.

Lemma tick_stopped c : ticking c = false -> tick c = c.
Proof. intros H; unfold tick; rewrite H; reflexivity. Qed.

(** X16.  A counter with target [v] counts 1, 2, ... up to
    [max (1, ceil v)] and stops there, the text following the count: the
    first tick always writes 1, so a target of 0 or below ends showing 1. *)
Theorem counter_stops (v : R) (k : nat) :
  let n := Z.to_nat (Z.max 1 (Zceil v)) in
  let c := Nat.iter k tick (start (Finite v)) in
  count c = Nat.min k n
  /\ ticking c = (k <? n)%nat
  /\ target c = Finite v
  /\ (textContent c = if (k =? 0)%nat then None else Some (Nat.min k n)).
Proof.
  intros n c; unfold c; clear c.
  assert (Hn : (1 <= n)%nat) by (unfold n; lia).
  induction k as [|k IH].
  - cbn; repeat split.
    destruct n; [lia | reflexivity].
  - rewrite Nat.iter_succ.
    destruct IH as (A1 & A2 & A3 & A4).
    destruct (k <? n)%nat eqn:E.
    + apply Nat.ltb_lt in E.
      rewrite (tick_running _ A2); cbn [count ticking target textContent].
      rewrite A1, A3, (Nat.min_l k n) by lia.
      rewrite (reached_ceil v (S k)) by lia; fold n.
      rewrite (Nat.min_l (S k) n) by lia.
      repeat split.
      destruct (n <=? S k)%nat eqn:E1, (S k <? n)%nat eqn:E2; try reflexivity.
      * apply Nat.leb_le in E1; apply Nat.ltb_lt in E2; lia.
      * apply Nat.leb_gt in E1; apply Nat.ltb_ge in E2; lia.
    + apply Nat.ltb_ge in E.
      rewrite (tick_stopped _ A2).
      rewrite A1, A2, A3, A4, (Nat.min_r k n), (Nat.min_r (S k) n) by lia.
      split; [reflexivity | split; [|split; [reflexivity|]]].
      * symmetry; apply Nat.ltb_ge; lia.
      * destruct k; [lia | reflexivity].
Qed.

(** X17.  A counter whose target is [NaN] never stops: after [k] ticks it
    shows [k] and still runs. *)
Theorem counter_never_stops (k : nat) :
  let c := Nat.iter k tick (start NaN) in
  count c = k /\ ticking c = true
  /\ (textContent c = if (k =? 0)%nat then None else Some k).
Proof.
  cbn zeta; induction k as [|k IH]; [cbn; repeat split|].
  rewrite Nat.iter_succ; destruct IH as (A1 & A2 & A3).
  assert (At : target (Nat.iter k tick (start NaN)) = NaN).
  { clear; induction k as [|k IH]; [reflexivity|].
    rewrite Nat.iter_succ; unfold tick.
    destruct (ticking _); cbn; exact IH. }
  rewrite (tick_running _ A2); cbn [count ticking target textContent].
  rewrite A1, At; repeat split.
Qed.

End StatCounterFacts.

(** * The project grid *)

Module ProjectsFacts.
Import Projects.

Lemma strict_eq_true a c : strict_eq a c = true <-> exists s, a = Some s /\ c = Some s.
Proof.
  destruct a as [s|], c as [t|]; cbn; split; intros H;
    try discriminate; try (destruct H as (u & H1 & H2); discriminate).
  - apply String.eqb_eq in H; subst t; exists s; split; reflexivity.
  - destruct H as (u & H1 & H2); injection H1 as ->; injection H2 as ->.
    apply String.eqb_refl.
Qed.

Lemma activate_nth i btns j b :
  (i < length btns)%nat ->
  nth_error (activate i (map (set_active false) btns)) j = Some b ->
  exists b0, nth_error btns j = Some b0
             /\ data_filter b = data_filter b0
             /\ active b = (j =? i)%nat.
Proof.
  revert i j; induction btns as [|b0 rest IH]; intros i j Hi Hj; [cbn in Hi; lia|].
  destruct i as [|i], j as [|j]; cbn in Hj |- *.
  - injection Hj as <-; exists b0; repeat split.
  - rewrite nth_error_map in Hj.
    destruct (nth_error rest j) as [b1|]; [|discriminate].
    injection Hj as <-; exists b1; repeat split.
  - injection Hj as <-; exists b0; repeat split.
  - cbn in Hi; apply (IH i j); [lia | exact Hj].
Qed.

Lemma activate_length i btns : length (activate i btns) = length btns.
Proof.
  revert i; induction btns as [|b rest IH]; intros i; destruct i; cbn;
    try reflexivity.
  now rewrite IH.
Qed.

(** X18.  A click on a filter button leaves that button as the only active
    one and shows exactly the cards it selects: all of them when its
    [data-filter] is [all], else those whose category is the filter.  A card
    without a category shows under [all] only, and a button without
    [data-filter] hides every card. *)
Theorem filter_click (g : Grid) (i : nat) (btn : Button) :
  nth_error (filterBtns g) i = Some btn ->
  let g' := onFilterClick i g in
  (forall j b, nth_error (filterBtns g') j = Some b -> active b = (j =? i)%nat)
  /\ length (filterBtns g') = length (filterBtns g)
  /\ map title (projectCards g') = map title (projectCards g)
  /\ map category (projectCards g') = map category (projectCards g)
  /\ (forall k c', nth_error (projectCards g') k = Some c' ->
        (display c' = "block"%string \/ display c' = "none"%string)
        /\ (display c' = "block"%string
            <-> data_filter btn = Some "all"%string
                \/ exists f, data_filter btn = Some f /\ category c' = Some f)).
Proof.
  intros Hi g'; subst g'; unfold onFilterClick; rewrite Hi.
  cbn [filterBtns projectCards].
  assert (Hlt : (i < length (filterBtns g))%nat)
    by (apply nth_error_Some; rewrite Hi; discriminate).
  split; [|split; [|split; [|split]]].
  - intros j b Hj.
    destruct (activate_nth i (filterBtns g) j b Hlt Hj) as (b0 & _ & _ & Ha).
    exact Ha.
  - rewrite activate_length, length_map; reflexivity.
  - rewrite map_map; reflexivity.
  - rewrite map_map; reflexivity.
  - intros k c' Hk; rewrite nth_error_map in Hk.
    destruct (nth_error (projectCards g) k) as [c|]; [|discriminate].
    injection Hk as <-; cbn [display category set_display].
    unfold matches.
    destruct (strict_eq (data_filter btn) (Some "all"%string)) eqn:E1; cbn [orb].
    + split; [left; reflexivity|]; split; [intros _|reflexivity].
      apply strict_eq_true in E1; destruct E1 as (s & H1 & H2).
      injection H2 as <-; left; exact H1.
    + destruct (strict_eq (category c) (data_filter btn)) eqn:E2.
      * split; [left; reflexivity|]; split; [intros _|reflexivity].
        apply strict_eq_true in E2; destruct E2 as (s & H1 & H2).
        right; exists s; split; assumption.
      * split; [right; reflexivity|]; split; [discriminate|].
        intros [H | (f & H1 & H2)].
        -- rewrite H in E1; cbn in E1; discriminate.
        -- rewrite H1, H2 in E2; cbn in E2; rewrite String.eqb_refl in E2; discriminate.
Qed.

Lemma filter_click_witness :
  length (filterBtns (onFilterClick 1 sample_grid)) = 2%nat.
Proof.
  exact (proj1 (proj2 (filter_click sample_grid 1
                  {| data_filter := Some "web"%string; active := false |} eq_refl))).
Defined.

(** X19.  Search and filter do not combine: each sets the display of every
    card anew, so the later one alone decides what is shown.  After a
    search the clicked filter button still stands active although its
    filter no longer applies. *)
Theorem search_overrides_filter (toLowerCase : string -> string) (value : string)
    (i : nat) (g : Grid) :
  (i < length (filterBtns g))%nat ->
  projectCards (onSearchInput toLowerCase value (onFilterClick i g))
  = projectCards (onSearchInput toLowerCase value g)
  /\ filterBtns (onSearchInput toLowerCase value (onFilterClick i g))
     = filterBtns (onFilterClick i g)
  /\ projectCards (onFilterClick i (onSearchInput toLowerCase value g))
     = projectCards (onFilterClick i g).
Proof.
  intros Hi; unfold onSearchInput, onFilterClick; cbn [filterBtns projectCards].
  destruct (nth_error (filterBtns g) i) as [btn|] eqn:E;
    [|apply nth_error_None in E; lia].
  cbn [filterBtns projectCards]; rewrite !map_map; repeat split.
Qed.

Lemma search_overrides_filter_witness :
  map display
    (projectCards (onSearchInput (fun s => s) "a" (onFilterClick 1 sample_grid)))
  = map display (projectCards (onSearchInput (fun s => s) "a" sample_grid)).
Proof.
  assert (Hi : (1 < length (filterBtns sample_grid))%nat) by (cbn; lia).
  rewrite (proj1 (search_overrides_filter (fun s => s) "a" 1 sample_grid Hi)).
  reflexivity.
Defined.

Lemma prefix_append sub s :
  prefix sub s = true <-> exists post, s = (sub ++ post)%string.
Proof.
  revert s; induction sub as [|a sub IH]; intros s.
  - split; [intros _; exists s; reflexivity | intros _; destruct s; reflexivity].
  - destruct s as [|c s]; cbn [prefix].
    + split; [discriminate | intros (post & H); discriminate].
    + destruct (Ascii.ascii_dec a c) as [->|Hn].
      * rewrite IH; split; intros (post & H); exists post.
        -- cbn; rewrite H; reflexivity.
        -- cbn in H; injection H as H; exact H.
      * split; [discriminate | intros (post & H)].
        cbn in H; injection H as H1 _; congruence.
Qed.

Lemma includes_occurs s sub :
  includes s sub = true <-> exists pre post, s = (pre ++ sub ++ post)%string.
Proof.
  induction s as [|c s IH].
  - cbn [includes]; rewrite orb_false_r, prefix_append; split.
    + intros (post & H); exists ""%string, post; exact H.
    + intros (pre & post & H); destruct pre; [|discriminate].
      exists post; exact H.
  - cbn [includes]; rewrite orb_true_iff, prefix_append, IH; split.
    + intros [(post & H) | (pre & post & H)].
      * exists ""%string, post; exact H.
      * exists (String c pre), post; cbn; rewrite H; reflexivity.
    + intros (pre & post & H); destruct pre as [|c' pre].
      * left; exists post; exact H.
      * right; cbn in H; injection H as _ H; exists pre, post; exact H.
Qed.

(** X20.  After a search a card is shown exactly when the lower-cased query
    occurs in its lower-cased title, and hidden otherwise; categories and
    titles are untouched. *)
Theorem search_shows_matching_titles (toLowerCase : string -> string)
    (value : string) (g : Grid) :
  let g' := onSearchInput toLowerCase value g in
  map title (projectCards g') = map title (projectCards g)
  /\ map category (projectCards g') = map category (projectCards g)
  /\ (forall k c', nth_error (projectCards g') k = Some c' ->
        (display c' = "block"%string \/ display c' = "none"%string)
        /\ (display c' = "block"%string
            <-> exists pre post,
                  toLowerCase (title c')
                  = (pre ++ toLowerCase value ++ post)%string)).
Proof.
  cbn zeta; unfold onSearchInput; cbn [projectCards].
  split; [rewrite map_map; reflexivity | split; [rewrite map_map; reflexivity|]].
  intros k c' Hk; rewrite nth_error_map in Hk.
  destruct (nth_error (projectCards g) k) as [c|]; [|discriminate].
  injection Hk as <-; cbn [display title set_display].
  destruct (includes (toLowerCase (title c)) (toLowerCase value)) eqn:E.
  - split; [left; reflexivity|]; split; [intros _ | reflexivity].
    apply includes_occurs; exact E.
  - split; [right; reflexivity|]; split; [discriminate|].
    intros H; apply includes_occurs in H; rewrite H in E; discriminate.
Qed.

(** The empty query shows every card. *)
Example search_empty_shows_all (g : Grid) :
  Forall (fun c => display c = "block"%string)
    (projectCards (onSearchInput (fun s => s) "" g)).
Proof.
  unfold onSearchInput; cbn [projectCards].
  apply Forall_map, Forall_forall; intros c _; cbn [display set_display].
  assert (H : includes (title c) "" = true)
    by (apply includes_occurs; exists ""%string, (title c); reflexivity).
  rewrite H; reflexivity.
Qed.

End ProjectsFacts.

(** * The navigation highlight *)

Module NavFacts.
Import Nav.

Lemma last_cons {A} (a : A) (l : list A) (d : A) : last (a :: l) d = last l a.
Proof.
  revert a d; induction l as [|b l IH]; intros a d; [reflexivity|].
  change (last (a :: b :: l) d) with (last (b :: l) d).
  rewrite (IH b d), (IH b a); reflexivity.
Qed.

Lemma fold_current y secs acc :
  fold_left (fun cur sec => if reached y sec then id sec else cur) secs acc
  = last (map id (filter (reached y) secs)) acc.
Proof.
  revert acc; induction secs as [|s secs IH]; intros acc; [reflexivity|].
  cbn [fold_left filter]; rewrite IH.
  destruct (reached y s); [|reflexivity].
  cbn [map]; rewrite last_cons; reflexivity.
Qed.

(** X21.  After a scroll, [current] is the id of the last section, in document
    order, whose top is at most 70 above the scroll position; when there is
    none it is the empty string, and then just the links to [#] are
    highlighted. *)
Theorem current_is_last_reached (y : R) (secs : list SectionEl) (links : list Link) :
  current y secs = last (map id (filter (reached y) secs)) (Some ""%string)
  /\ (forall pre s post,
         secs = pre ++ s :: post ->
         offsetTop s - 70 <= y ->
         Forall (fun t => y < offsetTop t - 70) post ->
         current y secs = id s)
  /\ (Forall (fun t => y < offsetTop t - 70) secs ->
      current y secs = Some ""%string
      /\ map active (onscroll y secs links)
         = map (fun l => Projects.strict_eq (href l) (Some "#"%string)) links).
Proof.
  assert (Hnone : forall l, Forall (fun t => y < offsetTop t - 70) l ->
                            filter (reached y) l = []).
  { induction l as [|t l IH]; intros H; [reflexivity|].
    inversion H as [|? ? Ht Hl]; subst; cbn [filter].
    unfold reached at 1; destruct (Rle_dec (offsetTop t - 70) y); [lra|].
    exact (IH Hl). }
  split; [apply fold_current | split].
  - intros pre s post -> Hs Hpost.
    unfold current; rewrite fold_current, filter_app; cbn [filter].
    unfold reached at 2; destruct (Rle_dec (offsetTop s - 70) y); [|lra].
    rewrite (Hnone post Hpost), map_app; cbn [map].
    rewrite last_last; reflexivity.
  - intros H.
    assert (Hc : current y secs = Some ""%string)
      by (unfold current; rewrite fold_current, (Hnone secs H); reflexivity).
    split; [exact Hc|].
    unfold onscroll; rewrite Hc, map_map; reflexivity.
Qed.

Lemma strict_eq_same a c d :
  Projects.strict_eq a d = true -> Projects.strict_eq c d = true -> a = c.
Proof.
  destruct a as [s|], c as [t|], d as [u|]; cbn; intros H1 H2; try discriminate.
  apply String.eqb_eq in H1, H2; congruence.
Qed.

(** X22.  When no two links have the same [href], a scroll leaves at most
    one link highlighted. *)
Theorem at_most_one_link_active (y : R) (secs : list SectionEl) (links : list Link)
    (i j : nat) (li lj : Link) :
  NoDup (map href links) ->
  nth_error (onscroll y secs links) i = Some li ->
  nth_error (onscroll y secs links) j = Some lj ->
  active li = true -> active lj = true ->
  i = j.
Proof.
  intros Hnd Hi Hj Ai Aj; unfold onscroll in Hi, Hj.
  rewrite nth_error_map in Hi, Hj.
  destruct (nth_error links i) as [l1|] eqn:E1; [|discriminate].
  destruct (nth_error links j) as [l2|] eqn:E2; [|discriminate].
  injection Hi as <-; injection Hj as <-; cbn [active] in Ai, Aj.
  pose proof (strict_eq_same _ _ _ Ai Aj) as He.
  assert (H1 : nth_error (map href links) i = Some (href l1))
    by (rewrite nth_error_map, E1; reflexivity).
  assert (H2 : nth_error (map href links) j = Some (href l2))
    by (rewrite nth_error_map, E2; reflexivity).
  rewrite <- He in H2.
  apply (proj1 (NoDup_nth_error (map href links)) Hnd i j).
  - apply nth_error_Some; rewrite H1; discriminate.
  - rewrite H1, H2; reflexivity.
Qed.

Lemma at_most_one_link_active_witness :
  let links := [ {| href := Some "#home"%string; active := false |};
                 {| href := Some "#about"%string; active := true |} ] in
  let secs := [ {| offsetTop := 0; id := Some "home"%string |};
                {| offsetTop := 800; id := Some "about"%string |} ] in
  map active (onscroll 100 secs links) = [true; false].
Proof.
  intros links secs.
  assert (Hnd : NoDup (map href links)).
  { repeat constructor; cbn; intuition discriminate. }
  assert (Hc : current 100 secs = Some "home"%string).
  { unfold current, secs; cbn [fold_left]; unfold reached; cbn [offsetTop id].
    destruct (Rle_dec (0 - 70) 100); [|lra].
    destruct (Rle_dec (800 - 70) 100); [lra | reflexivity]. }
  assert (H0 : nth_error (onscroll 100 secs links) 0
               = Some {| href := Some "#home"%string; active := true |})
    by (unfold onscroll; rewrite Hc; reflexivity).
  destruct (nth_error (onscroll 100 secs links) 1) as [l1|] eqn:E1;
    [|unfold onscroll in E1; rewrite Hc in E1; discriminate].
  destruct (active l1) eqn:A1.
  - pose proof (at_most_one_link_active 100 secs links 0 1 _ l1 Hnd H0 E1 eq_refl A1).
    discriminate.
  - unfold onscroll in *; rewrite Hc in *; cbn in E1 |- *.
    injection E1 as <-; cbn in A1 |- *; reflexivity.
Defined.

End NavFacts.
